(** * questbench: model_utils.py

    A shallow embedding of [src/model_utils.py] (the model-calling layer:
    provider dispatch, retries, the prompt cache and its file) and the
    properties of it that the specification states.

    Conventions of the embedding.
    - Python values that the code only reads are trees ([pyval]).  The
      dictionaries the code updates in place (the turns of the caller's
      prompts) live in a heap and are named by locations, so aliasing
      between prompts is visible.
    - Everything that runs has type [M A]: a function from the world
      (heap, files, log of external effects) to a result or a raised
      exception, together with the world it leaves behind.
    - The libraries the module imports are outside the repository.  [json],
      [requests] and [genai] are parameters (class [Externals]); [tenacity]'s
      [retry] decorator is modelled from its documented behaviour. *)

From Stdlib Require Import ZArith Floats Ascii String List Bool Lia DecimalString.
From stdpp Require Import gmap strings list.

Local Open Scope string_scope.
Local Open Scope list_scope.
Set Warnings "-register-all".

(** ** Python values *)

Inductive pyval : Type :=
| PNone
| PBool (b : bool)
| PInt (z : Z)
| PFloat (f : float)
| PStr (s : string)
| PList (l : list pyval)
| PDict (d : list (string * pyval)).

Inductive pyexn : Type :=
| TypeError
| KeyError
| IndexError
| AttributeError
| AssertionError
| OverflowError
| JSONDecodeError
| RequestException
| ProviderError
| NonStringKey
| RetryError (last_attempt : pyexn).

Inductive pyres (A : Type) : Type :=
| Ok (a : A)
| Raise (e : pyexn).
Arguments Ok {A} a.
Arguments Raise {A} e.

(** ** Strings *)

Definition newline : string := String "010"%char EmptyString.

(** The literal of two line feeds. *)
Definition blank_line : string := String "010"%char (String "010"%char EmptyString).

Definition lower_char (c : ascii) : ascii :=
  let n := nat_of_ascii c in
  if (65 <=? n)%nat && (n <=? 90)%nat then ascii_of_nat (n + 32) else c.

(** [str.lower()] on the ASCII range. *)
Fixpoint lower (s : string) : string :=
  match s with
  | EmptyString => EmptyString
  | String c rest => String (lower_char c) (lower rest)
  end.

(** [needle in hay] for two strings. *)
Fixpoint contains (needle hay : string) : bool :=
  String.prefix needle hay
  || match hay with
     | EmptyString => false
     | String _ rest => contains needle rest
     end.

Definition startswith (pre s : string) : bool := String.prefix pre s.

Definition is_space (c : ascii) : bool :=
  let n := nat_of_ascii c in
  ((9 <=? n)%nat && (n <=? 13)%nat) || ((28 <=? n)%nat && (n <=? 32)%nat).

Fixpoint lstrip (s : string) : string :=
  match s with
  | EmptyString => EmptyString
  | String c rest => if is_space c then lstrip rest else s
  end.

Definition string_rev (s : string) : string :=
  string_of_list_ascii (List.rev (list_ascii_of_string s)).

(** [str.strip()] with no argument, on the ASCII range. *)
Definition strip (s : string) : string :=
  string_rev (lstrip (string_rev (lstrip s))).

(** ** Dictionaries with insertion order *)

Fixpoint dict_get {V : Type} (k : string) (d : list (string * V)) : option V :=
  match d with
  | [] => None
  | (k', v) :: rest => if String.eqb k k' then Some v else dict_get k rest
  end.

(** [d[k] = v]: an existing key keeps its position, a new key goes last. *)
Fixpoint dict_set {V : Type} (k : string) (v : V) (d : list (string * V))
  : list (string * V) :=
  match d with
  | [] => [(k, v)]
  | (k', v') :: rest =>
      if String.eqb k k' then (k', v) :: rest else (k', v') :: dict_set k v rest
  end.

(** [del d[k]] for a key that is present. *)
Fixpoint dict_del {V : Type} (k : string) (d : list (string * V))
  : list (string * V) :=
  match d with
  | [] => []
  | (k', v') :: rest =>
      if String.eqb k k' then rest else (k', v') :: dict_del k rest
  end.

Definition dict_has {V : Type} (k : string) (d : list (string * V)) : bool :=
  match dict_get k d with Some _ => true | None => false end.

(** ** Operations on values *)

(** [key in v] for a string [key]: a key of a dict, an element of a list, a
    substring of a string; other values are not iterable. *)
Definition py_contains (key : string) (v : pyval) : pyres bool :=
  match v with
  | PDict d => Ok (dict_has key d)
  | PList l =>
      Ok (existsb (fun e => match e with PStr s => String.eqb s key | _ => false end) l)
  | PStr s => Ok (contains key s)
  | _ => Raise TypeError
  end.

(** [v[key]] for a string [key]. *)
Definition py_getitem (v : pyval) (key : string) : pyres pyval :=
  match v with
  | PDict d => match dict_get key d with Some x => Ok x | None => Raise KeyError end
  | _ => Raise TypeError
  end.

Definition list_index {A : Type} (l : list A) (i : Z) : option A :=
  let n := Z.of_nat (length l) in
  let j := if (i <? 0)%Z then (i + n)%Z else i in
  if (j <? 0)%Z then None else nth_error l (Z.to_nat j).

(** [v[i]] for an integer [i]. *)
Definition py_index (v : pyval) (i : Z) : pyres pyval :=
  match v with
  | PList l => match list_index l i with Some x => Ok x | None => Raise IndexError end
  | PStr s =>
      match list_index (list_ascii_of_string s) i with
      | Some c => Ok (PStr (String c EmptyString))
      | None => Raise IndexError
      end
  | PDict _ => Raise KeyError
  | _ => Raise TypeError
  end.

(** [v.strip()]. *)
Definition py_strip (v : pyval) : pyres pyval :=
  match v with
  | PStr s => Ok (PStr (strip s))
  | _ => Raise AttributeError
  end.

(** Conversion of a Python integer to a double: round to nearest, ties to
    even; [OverflowError] beyond the range of doubles. *)
Definition float_of_int (z : Z) : pyres float :=
  let f := SF2Prim (binary_normalize prec emax z 0 false) in
  if PrimFloat.is_infinity f then Raise OverflowError else Ok f.

(** [v * price] for a float [price]. *)
Definition py_mul_float (v : pyval) (price : float) : pyres float :=
  match v with
  | PInt z =>
      match float_of_int z with
      | Ok f => Ok (PrimFloat.mul f price)
      | Raise e => Raise e
      end
  | PBool b => Ok (PrimFloat.mul (if b then 1%float else 0%float) price)
  | PFloat f => Ok (PrimFloat.mul f price)
  | _ => Raise TypeError
  end.

(** ** Module constants *)

Definition GPT_COSTS : list (string * list (string * float)) :=
  [ ("gpt-4o",
     [ ("prompt_tokens", PrimFloat.div 5 1000000);
       ("completion_tokens", PrimFloat.div 15 1000000) ]);
    ("o1-preview",
     [ ("prompt_tokens", PrimFloat.div 15 1000000);
       ("completion_tokens", PrimFloat.div 60 1000000) ]);
    ("o1",
     [ ("prompt_tokens", PrimFloat.div 15 1000000);
       ("completion_tokens", PrimFloat.div 60 1000000) ]) ].

Definition CLAUDE_MODELS : list string := [ "claude-3-5-sonnet-20241022" ].

Definition in_claude_models (name : string) : bool :=
  existsb (String.eqb name) CLAUDE_MODELS.

(** ** The heap of turns, and the world *)

(** A turn is a [Dict[str, str]]; a prompt is a list of turns.  The lists are
    only read, so a prompt is the list of the locations of its turns. *)
Abbreviation turn := (list (string * string)) (only parsing).
Abbreviation loc := nat (only parsing).
Abbreviation prompt := (list nat) (only parsing).
Abbreviation heap := (list (list (string * string))) (only parsing).

Definition deref (h : heap) (l : loc) : turn := default [] (h !! l).

Definition snapshot_turn (t : turn) : pyval :=
  PDict (map (fun kv => (fst kv, PStr (snd kv))) t).

(** The value of a prompt as [json.dumps] or [requests] sees it now. *)
Definition snapshot (h : heap) (p : prompt) : pyval :=
  PList (map (fun l => snapshot_turn (deref h l)) p).

(** The [cache] parameter of [cached_generate]: [None], or a reference to the
    caller's dictionary. *)
Inductive cache_arg : Type := CacheNone | CacheDict.

(** The first three parameters of [model_call_wrapper] are untyped at run
    time; these are the values its callers can bind to them. *)
Inductive arg : Type :=
| ANone
| AStr (s : string)
| ABatch (b : list prompt).

Inductive header : Type := OPENAI_HEADER | ANTHROPIC_HEADER | NoHeader.

Inductive wait_policy : Type :=
| wait_fixed (seconds : Z)
| wait_random_exponential (multiplier max : Z).

(** What the outside observes, newest first. *)
Inductive event : Type :=
| EvPost (url : arg) (hd : header) (data : pyval)
| EvChat (model : arg) (history : pyval) (message : pyval)
| EvSleep (policy : wait_policy) (attempt_number : nat)
| EvPrint
| EvPool (max_workers : nat).

(** [w_heap]: the turns.  [w_cache]: the dictionary the caller passes as
    [cache] (one object, updated in place).  [w_files]: the files by path.
    [w_log]: the external effects so far. *)
Record world : Type := World {
  w_heap : heap;
  w_cache : gmap string pyval;
  w_files : gmap string string;
  w_log : list event
}.

Definition set_heap (h : heap) (w : world) : world :=
  World h (w_cache w) (w_files w) (w_log w).
Definition set_cache (c : gmap string pyval) (w : world) : world :=
  World (w_heap w) c (w_files w) (w_log w).
Definition set_files (fs : gmap string string) (w : world) : world :=
  World (w_heap w) (w_cache w) fs (w_log w).
Definition log (e : event) (w : world) : world :=
  World (w_heap w) (w_cache w) (w_files w) (e :: w_log w).

(** ** The monad of the embedding *)

Definition M (A : Type) : Type := world -> pyres A * world.

Definition ret {A : Type} (a : A) : M A := fun w => (Ok a, w).
Definition raise {A : Type} (e : pyexn) : M A := fun w => (Raise e, w).
Definition lift {A : Type} (r : pyres A) : M A := fun w => (r, w).
Definition bind {A B : Type} (m : M A) (k : A -> M B) : M B :=
  fun w =>
    match m w with
    | (Ok a, w1) => k a w1
    | (Raise e, w1) => (Raise e, w1)
    end.

Declare Scope py_scope.
Delimit Scope py_scope with py.
Notation "x <- m ;; k" := (bind m (fun x => k))
  (at level 100, m at next level, right associativity) : py_scope.
Notation "m ;; k" := (bind m (fun _ => k))
  (at level 100, right associativity) : py_scope.
Local Open Scope py_scope.

Definition bind_res {A B : Type} (r : pyres A) (k : A -> pyres B) : pyres B :=
  match r with
  | Ok a => k a
  | Raise e => Raise e
  end.

(** [for x in l: f(x)]. *)
Fixpoint for_each {A : Type} (f : A -> M unit) (l : list A) : M unit :=
  match l with
  | [] => ret tt
  | x :: rest => f x ;; for_each f rest
  end.

Definition emit (e : event) : M unit := fun w => (Ok tt, log e w).
Definition py_print : M unit := emit EvPrint.

Definition read_turn (l : loc) : M turn := fun w => (Ok (deref (w_heap w) l), w).
Definition write_turn (l : loc) (t : turn) : M unit :=
  fun w => (Ok tt, set_heap (<[l := t]> (w_heap w)) w).

(** [message[k]]. *)
Definition getitem (k : string) (l : loc) : M string :=
  t <- read_turn l ;;
  match dict_get k t with
  | Some v => ret v
  | None => raise KeyError
  end.

(** [message[k] = v]. *)
Definition setitem (k v : string) (l : loc) : M unit :=
  t <- read_turn l ;; write_turn l (dict_set k v t).

(** [del message[k]]. *)
Definition delitem (k : string) (l : loc) : M unit :=
  t <- read_turn l ;;
  if dict_has k t then write_turn l (dict_del k t) else raise KeyError.

(** A dict display [{...}] creates a new object. *)
Definition new_turn (t : turn) : M loc :=
  fun w => (Ok (length (w_heap w)), set_heap (w_heap w ++ [t]) w).

Definition snapshot_now (p : prompt) : M pyval :=
  fun w => (Ok (snapshot (w_heap w) p), w).

(** ** tenacity.retry

    [@retry(stop=stop_after_attempt(n), wait=...)]: call the function; when
    it raises and fewer than [n] attempts were made, sleep as the wait policy
    says and call it again; when the [n]-th attempt raises, raise
    [RetryError] carrying that last failure. *)
Fixpoint retry_from {A : Type} (wait : wait_policy) (attempt_number remaining : nat)
  (f : M A) : M A :=
  fun w =>
    match f w with
    | (Ok a, w1) => (Ok a, w1)
    | (Raise e, w1) =>
        match remaining with
        | O => (Raise (RetryError e), w1)
        | S k => retry_from wait (S attempt_number) k f
                   (log (EvSleep wait attempt_number) w1)
        end
    end.

Definition retry {A : Type} (stop_after_attempt : nat) (wait : wait_policy) (f : M A)
  : M A :=
  retry_from wait 1 (stop_after_attempt - 1) f.

(** ** The libraries outside the repository *)

(** What [requests.post] does: it raises, or it returns a response whose
    body decodes as JSON ([Some]) or does not. *)
Inductive http_reply : Type :=
| HttpFails
| HttpBody (json : option pyval).

(** [json_dumps], [json_loads]: [json.dumps] and [json.loads] ([None] is a
    decode error).  [http] and [chat]: what the service answers to a call,
    given everything observed so far. *)
Class Externals : Type := {
  json_dumps : pyval -> string;
  json_loads : string -> option pyval;
  http : list event -> arg -> header -> pyval -> http_reply;
  chat : list event -> arg -> pyval -> pyval -> option string
}.

Section Model.
Context {E : Externals}.

Definition requests_post (url : arg) (hd : header) (data : pyval) : M (option pyval) :=
  fun w =>
    let w' := log (EvPost url hd data) w in
    match http (w_log w) url hd data with
    | HttpFails => (Raise RequestException, w')
    | HttpBody body => (Ok body, w')
    end.

(** [genai.GenerativeModel(url).start_chat(history=...).send_message(...).text] *)
Definition send_message (url : arg) (history message : pyval) : M pyval :=
  fun w =>
    let w' := log (EvChat url history message) w in
    match chat (w_log w) url history message with
    | Some text => (Ok (PStr text), w')
    | None => (Raise ProviderError, w')
    end.

(** The body of [openai_request] and of [claude_request]: post, decode,
    assert that [field] is in the response; print and re-raise otherwise. *)
Definition request_once (hd : header) (field : string) (model_url : arg) (data : pyval)
  : M pyval :=
  body <- requests_post model_url hd data ;;
  match body with
  | None => py_print ;; raise JSONDecodeError
  | Some response =>
      match py_contains field response with
      | Ok true => ret response
      | Ok false => py_print ;; raise AssertionError
      | Raise e => py_print ;; raise e
      end
  end.

Definition openai_request (model_url : arg) (data : pyval) : M pyval :=
  retry 10 (wait_random_exponential 1 60)
    (request_once OPENAI_HEADER "choices" model_url data).

Definition claude_request (model_url : arg) (data : pyval) : M pyval :=
  retry 10 (wait_random_exponential 1 60)
    (request_once ANTHROPIC_HEADER "content" model_url data).

(** *** process_gemma_messages *)

(** One round of the first loop; the state is [processed_messages] and
    [last_role]. *)
Definition gemma_merge_step (st : list loc * option string) (message : loc)
  : M (list loc * option string) :=
  let '(processed_messages, last_role) := st in
  role <- getitem "role" message ;;
  cur <- (if String.eqb role "system"
          then content <- getitem "content" message ;;
               m <- new_turn [("role", "user"); ("content", content)] ;;
               ret (m, "user")
          else ret (message, role)) ;;
  let '(message, current_role) := cur in
  if match last_role with Some r => String.eqb current_role r | None => false end
  then
    match last processed_messages with
    | None => raise IndexError
    | Some prev =>
        old <- getitem "content" prev ;;
        more <- getitem "content" message ;;
        setitem "content" (old +:+ (blank_line +:+ more)) prev ;;
        ret (processed_messages, last_role)
    end
  else ret (processed_messages ++ [message], Some current_role).

Fixpoint gemma_merge (st : list loc * option string) (messages : list loc)
  : M (list loc) :=
  match messages with
  | [] => ret (fst st)
  | message :: rest => st' <- gemma_merge_step st message ;; gemma_merge st' rest
  end.

(** One round of the second loop; [i] is the index from [enumerate]. *)
Definition gemma_alternate_step (i : nat) (final_messages : list loc) (message : loc)
  : M (list loc) :=
  role <- getitem "role" message ;;
  final1 <- (if (i =? 0)%nat && negb (String.eqb role "user")
             then d <- new_turn [("role", "user"); ("content", "Hello")] ;;
                  ret (final_messages ++ [d])
             else ret final_messages) ;;
  final2 <- (if (0 <? i)%nat
             then match last final1 with
                  | None => raise IndexError
                  | Some prev =>
                      prev_role <- getitem "role" prev ;;
                      if String.eqb role prev_role
                      then
                        (if String.eqb role "user"
                         then d <- new_turn [("role", "assistant");
                                             ("content", "I understand.")] ;;
                              ret (final1 ++ [d])
                         else d <- new_turn [("role", "user");
                                             ("content", "Please continue.")] ;;
                              ret (final1 ++ [d]))
                      else ret final1
                  end
             else ret final1) ;;
  ret (final2 ++ [message]).

Fixpoint gemma_alternate (i : nat) (final_messages : list loc) (processed : list loc)
  : M (list loc) :=
  match processed with
  | [] => ret final_messages
  | message :: rest =>
      final' <- gemma_alternate_step i final_messages message ;;
      gemma_alternate (S i) final' rest
  end.

Definition process_gemma_messages (messages : list loc) : M (list loc) :=
  processed_messages <- gemma_merge ([], None) messages ;;
  gemma_alternate 0 [] processed_messages.

(** *** model_call_wrapper *)

(** One element of [batch_messages]: a prompt, or (when a string was bound to
    [batch_messages]) one character of it. *)
Inductive messages : Type :=
| MStr (s : string)
| MPrompt (p : prompt).

(** [bool(a)] *)
Definition arg_truthy (a : arg) : bool :=
  match a with
  | ANone => false
  | AStr s => negb (String.eqb s "")
  | ABatch b => match b with [] => false | _ => true end
  end.

(** The elements that [for messages in a] visits. *)
Definition arg_items (a : arg) : list messages :=
  match a with
  | ANone => []
  | AStr s => map (fun c => MStr (String c EmptyString)) (list_ascii_of_string s)
  | ABatch b => map MPrompt b
  end.

Definition messages_value (m : messages) : M pyval :=
  match m with
  | MStr s => ret (PStr s)
  | MPrompt p => snapshot_now p
  end.

(** [for message in messages: body] where [body] starts by reading
    [message["role"]], which a character of a string does not support. *)
Definition for_turns (body : loc -> M unit) (m : messages) : M unit :=
  match m with
  | MPrompt p => for_each body p
  | MStr EmptyString => ret tt
  | MStr _ => raise TypeError
  end.

(** [{"model": model_name, "messages": messages, **generation_config}] *)
Definition request_data (model_name : string) (msgs : pyval)
  (generation_config : list (string * pyval)) : pyval :=
  PDict (fold_left (fun d kv => dict_set (fst kv) (snd kv) d) generation_config
           [("model", PStr model_name); ("messages", msgs)]).

Definition system_to_user (message : loc) : M unit :=
  role <- getitem "role" message ;;
  if String.eqb role "system" then setitem "role" "user" message else ret tt.

Definition openai_response (model_name : string) (model_url : arg)
  (generation_config : list (string * pyval)) (msgs : messages) : M pyval :=
  v <- messages_value msgs ;;
  openai_request model_url (request_data model_name v generation_config).

Definition gemini_turn (message : loc) : M unit :=
  system_to_user message ;;
  t <- read_turn message ;;
  match dict_get "content" t with
  | Some content => setitem "parts" content message ;; delitem "content" message
  | None => ret tt
  end.

Definition gemini_response (model_url : arg) (msgs : messages) : M pyval :=
  for_turns gemini_turn msgs ;;
  match msgs with
  | MStr _ => raise IndexError
  | MPrompt p =>
      match last p with
      | None => raise IndexError
      | Some final_turn =>
          history <- snapshot_now (removelast p) ;;
          t <- read_turn final_turn ;;
          send_message model_url history (snapshot_turn t)
      end
  end.

Definition gemma_response (model_name : string) (model_url : arg) (msgs : messages)
  : M pyval :=
  final_messages <- match msgs with
                    | MPrompt p => fm <- process_gemma_messages p ;; snapshot_now fm
                    | MStr EmptyString => ret (PList [])
                    | MStr _ => raise TypeError
                    end ;;
  let data := PDict [ ("model", PStr model_name); ("messages", final_messages);
                      ("temperature", PFloat 0); ("max_tokens", PInt 512) ] in
  body <- requests_post model_url NoHeader data ;;
  match
    match body with
    | None => Raise JSONDecodeError
    | Some response_json =>
        bind_res (py_getitem response_json "choices") (fun a =>
        bind_res (py_index a 0) (fun b =>
        bind_res (py_getitem b "message") (fun c =>
        bind_res (py_getitem c "content") py_strip)))
    end
  with
  | Ok text => ret text
  | Raise e => py_print ;; raise e
  end.

Definition claude_response (model_name : string) (model_url : arg)
  (generation_config : list (string * pyval)) (msgs : messages) : M pyval :=
  for_turns system_to_user msgs ;;
  v <- messages_value msgs ;;
  claude_request model_url (request_data model_name v generation_config).

Fixpoint run_sequential (get_response : messages -> M pyval) (items : list messages)
  : M (list pyval) :=
  match items with
  | [] => ret []
  | m :: rest =>
      r <- get_response m ;;
      rs <- run_sequential get_response rest ;;
      ret (r :: rs)
  end.

(** The workers of the pool, each run to its end whatever the others do.
    They are scheduled in the order of the input. *)
Fixpoint run_workers (get_response : messages -> M pyval) (items : list messages)
  : world -> list (pyres pyval) * world :=
  fun w =>
    match items with
    | [] => ([], w)
    | m :: rest =>
        let (r, w1) := get_response m w in
        let (rs, w2) := run_workers get_response rest w1 in
        (r :: rs, w2)
    end.

(** [list(executor.map(...))]: the results in order, or the first failure. *)
Fixpoint gather (rs : list (pyres pyval)) : pyres (list pyval) :=
  match rs with
  | [] => Ok []
  | Raise e :: _ => Raise e
  | Ok v :: rest => bind_res (gather rest) (fun vs => Ok (v :: vs))
  end.

Definition get_batch_responses (parallel_model_calls : bool) (batch_messages : arg)
  (get_response : messages -> M pyval) : M (list pyval) :=
  let items := arg_items batch_messages in
  if negb parallel_model_calls || (length items <=? 1)%nat
  then run_sequential get_response items
  else
    emit (EvPool (length items)) ;;
    (fun w => let (rs, w') := run_workers get_response items w in (gather rs, w')).

(** The decorated function, one attempt. *)
Definition model_call_wrapper_once (model_name model_url batch_messages : arg)
  (generation_config : list (string * pyval)) (parallel_model_calls : bool) : M pyval :=
  if negb (arg_truthy batch_messages) then ret (PList [])
  else
    let batch := get_batch_responses parallel_model_calls batch_messages in
    match model_name with
    | ABatch _ => raise TypeError
    | ANone => raise AttributeError
    | AStr name =>
        if dict_has name GPT_COSTS
        then rs <- batch (openai_response name model_url generation_config) ;;
             ret (PList rs)
        else if contains "gemini" (lower name)
        then rs <- batch (gemini_response model_url) ;; ret (PList rs)
        else if contains "gemma" (lower name)
        then rs <- batch (gemma_response name model_url) ;; ret (PList rs)
        else if in_claude_models name
        then rs <- batch (claude_response name model_url generation_config) ;;
             ret (PList rs)
        else ret PNone
    end.

Definition model_call_wrapper (model_name model_url batch_messages : arg)
  (generation_config : list (string * pyval)) (parallel_model_calls : bool) : M pyval :=
  retry 10 (wait_fixed 20)
    (model_call_wrapper_once model_name model_url batch_messages generation_config
       parallel_model_calls).

(** *** The cache and its file *)

Definition cache_get (k : string) : M (option pyval) :=
  fun w => (Ok (w_cache w !! k), w).

(** [cache[k]] *)
Definition cache_getitem (k : string) : M pyval :=
  entry <- cache_get k ;;
  match entry with
  | Some v => ret v
  | None => raise KeyError
  end.

(** [cache[k] = v] *)
Definition cache_set (k : string) (v : pyval) : M unit :=
  fun w => (Ok tt, set_cache (<[k := v]> (w_cache w)) w).

(** The text of the file at [path]; a file that does not exist has none. *)
Definition file_text (fs : gmap string string) (path : string) : string :=
  default "" (fs !! path).

(** [with open(path, "a") as f: f.write(text)] *)
Definition append_file (path text : string) : M unit :=
  fun w => (Ok tt, set_files (<[path := file_text (w_files w) path +:+ text]> (w_files w)) w).

(** The lines that iterating over a text file yields: a line ends at a line
    feed, a carriage return or the pair of them, and is yielded with a line
    feed as its end; an unterminated last line is yielded as it is. *)
Fixpoint split_lines (cur : string) (s : string) : list string :=
  match s with
  | EmptyString => if String.eqb cur "" then [] else [cur]
  | String c rest =>
      if Ascii.eqb c "010" then (cur +:+ newline) :: split_lines "" rest
      else if Ascii.eqb c "013" then
        match rest with
        | String c' rest' =>
            if Ascii.eqb c' "010"
            then (cur +:+ newline) :: split_lines "" rest'
            else (cur +:+ newline) :: split_lines "" rest
        | EmptyString => [cur +:+ newline]
        end
      else split_lines (cur +:+ String c EmptyString) rest
  end.

Definition file_lines (content : string) : list string := split_lines "" content.

(** The body of the loop of [load_cache_file].  A dictionary takes any
    hashable key; this model keys the cache by strings, the only keys
    [cached_generate] writes or reads, and answers [NonStringKey] for the
    other hashable ones. *)
Definition load_line (cache : gmap string pyval) (line : string)
  : pyres (gmap string pyval) :=
  match json_loads line with
  | None => Raise JSONDecodeError
  | Some record =>
      bind_res (py_getitem record "completion") (fun completion =>
      bind_res (py_getitem record "prompt") (fun key =>
        match key with
        | PStr k => Ok (<[k := completion]> cache)
        | PList _ | PDict _ => Raise TypeError
        | _ => Raise NonStringKey
        end))
  end.

Fixpoint load_lines (cache : gmap string pyval) (lines : list string)
  : pyres (gmap string pyval) :=
  match lines with
  | [] => Ok cache
  | line :: rest => bind_res (load_line cache line) (fun c => load_lines c rest)
  end.

Definition load_cache_file (cache_file : string) : M (gmap string pyval) :=
  fun w =>
    match w_files w !! cache_file with
    | None => (Ok ∅, w)
    | Some content => (load_lines ∅ (file_lines content), w)
    end.

Definition jsonify_prompt (p : pyval) : string := json_dumps p.

Definition prompt_key (p : prompt) : M string :=
  v <- snapshot_now p ;; ret (jsonify_prompt v).

(** *** cached_generate *)

(** What [cached_generate] returns: the dispatcher's value as it is (no
    cache), or the texts and the cost. *)
Inductive generated : Type :=
| Raw (responses : pyval)
| Texts (batch_responses : list pyval) (cost : float).

(** Lines 308-313, the loops. *)
Definition reasoning_rewrite (batch_prompts : list prompt) : M unit :=
  for_each (for_each system_to_user) batch_prompts.

(** Lines 326-329: is this prompt appended to [new_batch_prompts]? *)
Definition is_cache_miss (model_name : string) (p : prompt) : M bool :=
  k <- prompt_key p ;;
  entry <- cache_get k ;;
  match entry with
  | None => ret true
  | Some v =>
      if dict_has model_name GPT_COSTS
      then c <- lift (py_contains "choices" v) ;; ret (negb c)
      else ret false
  end.

Fixpoint cache_misses (model_name : string) (batch_prompts : list prompt)
  : M (list prompt) :=
  match batch_prompts with
  | [] => ret []
  | p :: rest =>
      miss <- is_cache_miss model_name p ;;
      more <- cache_misses model_name rest ;;
      ret (if miss then p :: more else more)
  end.

(** What [zip] and [len] ask of [batch_responses]. *)
Definition py_iter (v : pyval) : pyres (list pyval) :=
  match v with
  | PList l => Ok l
  | PStr s => Ok (map (fun c => PStr (String c EmptyString)) (list_ascii_of_string s))
  | PDict d => Ok (map (fun kv => PStr (fst kv)) d)
  | _ => Raise TypeError
  end.

Definition py_len (v : pyval) : pyres nat :=
  match v with
  | PList l => Ok (length l)
  | PStr s => Ok (String.length s)
  | PDict d => Ok (length d)
  | _ => Raise TypeError
  end.

Definition cache_record (key : string) (completion : pyval) : pyval :=
  PDict [("prompt", PStr key); ("completion", completion)].

(** Lines 338-347, for one pair. *)
Definition persist_response (cache_file : string) (pair : prompt * pyval) : M unit :=
  k <- prompt_key (fst pair) ;;
  cache_set k (snd pair) ;;
  completion <- cache_getitem k ;;
  append_file cache_file (json_dumps (cache_record k completion) +:+ newline).

Definition extract_text (model_name key : string) : M pyval :=
  entry <- cache_getitem key ;;
  if dict_has model_name GPT_COSTS
  then lift (bind_res (py_getitem entry "choices") (fun a =>
             bind_res (py_index a 0) (fun b =>
             bind_res (py_getitem b "message") (fun c =>
             py_getitem c "content"))))
  else if in_claude_models model_name
  then lift (bind_res (py_getitem entry "content") (fun a =>
             bind_res (py_index a 0) (fun b =>
             py_getitem b "text")))
  else ret entry.

(** Lines 356-360: the loop over the token types of the price table. *)
Fixpoint add_costs (key : string) (prices : list (string * float)) (cost : float)
  : M float :=
  match prices with
  | [] => ret cost
  | (token_type, price) :: rest =>
      entry <- cache_getitem key ;;
      n <- lift (bind_res (py_getitem entry "usage") (fun u => py_getitem u token_type)) ;;
      x <- lift (py_mul_float n price) ;;
      add_costs key rest (PrimFloat.add cost x)
  end.

(** Lines 352-365. *)
Fixpoint collect_outputs (model_name : string) (batch_prompts : list prompt)
  (batch_responses : list pyval) (cost : float) : M (list pyval * float) :=
  match batch_prompts with
  | [] => ret (batch_responses, cost)
  | p :: rest =>
      k <- prompt_key p ;;
      text_output <- extract_text model_name k ;;
      cost' <- match dict_get model_name GPT_COSTS with
               | Some prices => add_costs k prices cost
               | None => ret cost
               end ;;
      collect_outputs model_name rest (batch_responses ++ [text_output]) cost'
  end.

(** Lines 337-366: what follows the dispatch. *)
Definition after_dispatch (batch_prompts new_batch_prompts : list prompt)
  (model_name cache_file : string) (batch_responses : pyval) : M generated :=
  rs <- lift (py_iter batch_responses) ;;
  for_each (persist_response cache_file) (combine new_batch_prompts rs) ;;
  n <- lift (py_len batch_responses) ;;
  if (n =? length new_batch_prompts)%nat
  then out <- collect_outputs model_name batch_prompts [] 0%float ;;
       ret (Texts (fst out) (snd out))
  else raise AssertionError.

(** Lines 314-366: what [cached_generate] does once the reasoning-model
    step has fixed the prompts and the generation config. *)
Definition generate_with (batch_prompts : list prompt) (model_name : string)
  (model_url : arg) (cache : cache_arg) (cache_file : string)
  (generation_config : list (string * pyval)) (parallel_model_calls : bool)
  : M generated :=
  match cache with
  | CacheNone =>
      r <- model_call_wrapper (ABatch batch_prompts) (AStr model_name) model_url
             generation_config parallel_model_calls ;;
      ret (Raw r)
  | CacheDict =>
      new_batch_prompts <- cache_misses model_name batch_prompts ;;
      batch_responses <- model_call_wrapper (AStr model_name) model_url
                           (ABatch new_batch_prompts) generation_config
                           parallel_model_calls ;;
      after_dispatch batch_prompts new_batch_prompts model_name cache_file
        batch_responses
  end.

Definition cached_generate (batch_prompts : list prompt) (model_name : string)
  (model_url : arg) (cache : cache_arg) (cache_file : string)
  (generation_config : list (string * pyval)) (parallel_model_calls : bool)
  : M generated :=
  generation_config <- (if startswith "o1" model_name
                        then reasoning_rewrite batch_prompts ;; ret []
                        else ret generation_config) ;;
  generate_with batch_prompts model_name model_url cache cache_file generation_config
    parallel_model_calls.

End Model.

(** ** Vocabulary of the properties *)

Definition is_network_call (e : event) : bool :=
  match e with
  | EvPost _ _ _ | EvChat _ _ _ => true
  | _ => false
  end.

(** The calls to a service among the observed effects. *)
Definition network_calls (l : list event) : list event := List.filter is_network_call l.

Definition is_post (e : event) : bool :=
  match e with
  | EvPost _ _ _ => true
  | _ => false
  end.

Definition posts (l : list event) : list event := List.filter is_post l.

Definition is_fixed_wait (e : event) : bool :=
  match e with
  | EvSleep (wait_fixed _) _ => true
  | _ => false
  end.

(** The sleeps of the retry around [model_call_wrapper]. *)
Definition fixed_waits (l : list event) : list event := List.filter is_fixed_wait l.

(** A computation that leaves the world as it found it. *)
Definition reads_only {A : Type} (m : M A) : Prop :=
  forall w, snd (m w) = w.

(** A computation that may update turns and nothing else. *)
Definition heap_only {A : Type} (m : M A) : Prop :=
  forall w, snd (m w) = set_heap (w_heap (snd (m w))) w.

(** A computation whose new events all satisfy [P]. *)
Definition emits_only {A : Type} (P : event -> bool) (m : M A) : Prop :=
  forall w, exists evs,
    w_log (snd (m w)) = evs ++ w_log w /\ forallb P evs = true.

Definition is_sleep (e : event) : bool :=
  match e with
  | EvSleep _ _ => true
  | _ => false
  end.

Definition sleeps (l : list event) : list event := List.filter is_sleep l.

(** A reply that makes an attempt of [openai_request] ([field] is
    [choices]) or of [claude_request] ([content]) fail: the post raised, the
    body is not JSON, or the decoded body does not hold the field. *)
Definition reply_fails (field : string) (r : http_reply) : bool :=
  match r with
  | HttpFails => true
  | HttpBody None => true
  | HttpBody (Some v) =>
      match py_contains field v with
      | Ok true => false
      | _ => true
      end
  end.

(** The underlying HTTP call always fails. *)
Definition always_fails {E : Externals} (field : string) : Prop :=
  forall lg url hd data, reply_fails field (http lg url hd data) = true.

(** What the reasoning-model step does to one turn: a [system] role becomes
    [user], in its place; everything else stays. *)
Definition rewrite_turn (t : turn) : turn :=
  match dict_get "role" t with
  | Some r => if String.eqb r "system" then dict_set "role" "user" t else t
  | None => t
  end.

(** The heap with the turns at [ls] rewritten. *)
Definition rewrite_locs (ls : list loc) (h : heap) : heap :=
  imap (fun l t => if existsb (Nat.eqb l) ls then rewrite_turn t else t) h.

(** The heap with every turn of every prompt of the batch rewritten. *)
Definition rewritten (batch : list prompt) (h : heap) : heap :=
  rewrite_locs (concat batch) h.

(** Every turn of every prompt of the batch has a role. *)
Definition roles_present (batch : list prompt) (h : heap) : Prop :=
  forall p l, In p batch -> In l p -> dict_has "role" (deref h l) = true.

(** The cache key of a prompt as the heap has it. *)
Definition key_of {E : Externals} (h : list (list (string * string))) (p : list nat)
  : string :=
  jsonify_prompt (snapshot h p).

(** A cached value without the field [choices]. *)
Definition lacks_choices (v : pyval) : bool :=
  match v with
  | PDict d => negb (dict_has "choices" d)
  | _ => true
  end.

Definition is_object (v : pyval) : bool :=
  match v with
  | PDict _ => true
  | _ => false
  end.

(** The specification's cache miss: the key is absent, or the model is
    cost-tracked and the cached value lacks [choices]. *)
Definition miss {E : Externals} (model_name : string) (w : world) (p : list nat) : bool :=
  match w_cache w !! key_of (w_heap w) p with
  | None => true
  | Some v => dict_has model_name GPT_COSTS && lacks_choices v
  end.

(** What is cached for the prompts of the batch is a JSON object (a provider
    response), not a bare string, list or number. *)
Definition cached_objects {E : Externals} (batch : list (list nat)) (w : world) : Prop :=
  forall p v, In p batch -> w_cache w !! key_of (w_heap w) p = Some v -> is_object v = true.


(** The post that sends one prompt to an OpenAI-compatible endpoint. *)
Definition openai_post (model_name : string) (model_url : arg)
  (generation_config : list (string * pyval)) (h : list (list (string * string)))
  (p : list nat) : event :=
  EvPost model_url OPENAI_HEADER (request_data model_name (snapshot h p) generation_config).

(** The world as the reasoning-model step leaves it. *)
Definition prepared (model_name : string) (batch : list (list nat)) (w : world) : world :=
  if startswith "o1" model_name then set_heap (rewritten batch (w_heap w)) w else w.

(** The world after [n] failed attempts of a function that fails without
    effect, the first of them numbered [k]: the sleeps between them. *)
Fixpoint after_sleeps (wait : wait_policy) (k n : nat) (w : world) : world :=
  match n with
  | O => w
  | S n' => after_sleeps wait (S k) n' (log (EvSleep wait k) w)
  end.

(** Everything but the sleeps of the outer retry. *)
Definition inner_event (e : event) : bool := negb (is_fixed_wait e).


(** A computation that may update the cache and the files and nothing
    else: the turns and the log stay. *)
Definition store_only {A : Type} (m : M A) : Prop :=
  forall w, w_heap (snd (m w)) = w_heap w /\ w_log (snd (m w)) = w_log w.

(** The generation config that reaches the dispatcher. *)
Definition effective_config (model_name : string) (cfg : list (string * pyval))
  : list (string * pyval) :=
  if startswith "o1" model_name then [] else cfg.

(** The number a usage field stands for, as a float. *)
Definition usage_float (n : pyval) : option float :=
  match n with
  | PInt z => match float_of_int z with Ok f => Some f | Raise _ => None end
  | PBool b => Some (if b then 1%float else 0%float)
  | PFloat f => Some f
  | _ => None
  end.

(** The products [usage[token_type] * price[token_type]] of one cached
    response, for the token types of the price table in its order. *)
Fixpoint entry_terms (prices : list (string * float)) (entry : pyval)
  : option (list float) :=
  match prices with
  | [] => Some []
  | (token_type, price) :: rest =>
      match bind_res (py_getitem entry "usage") (fun u => py_getitem u token_type) with
      | Ok n =>
          match usage_float n, entry_terms rest entry with
          | Some f, Some ts => Some (PrimFloat.mul f price :: ts)
          | _, _ => None
          end
      | Raise _ => None
      end
  end.

(** The sum of floats as the code accumulates it: from [0.0], left to
    right. *)
Definition float_sum (terms : list float) : float := fold_left PrimFloat.add terms 0%float.

(** The entries of the prompts of a batch and their terms, prompt by
    prompt. *)
Definition batch_terms {E : Externals} (prices : list (string * float)) (w : world)
  (batch : list (list nat)) (termss : list (list float)) : Prop :=
  Forall2 (fun p ts => exists v, w_cache w !! key_of (w_heap w) p = Some v
                                 /\ entry_terms prices v = Some ts) batch termss.

(** A line of text: no line feed and no carriage return in it. *)
Definition no_line_break (s : string) : bool :=
  forallb (fun c => negb (Ascii.eqb c "010" || Ascii.eqb c "013")) (list_ascii_of_string s).

(** The text of a file made of these lines, each ended by a line feed. *)
Definition concat_lines (ls : list string) : string :=
  fold_right (fun l acc => l +:+ newline +:+ acc) "" ls.

(** The record that [cached_generate] writes for a key and its completion,
    without the line feed. *)
Definition record_text {E : Externals} (key : string) (completion : pyval) : string :=
  json_dumps (cache_record key completion).

(** What the cache file needs of the [json] library for one record:
    [json.dumps] writes it on one line, and [json.loads] reads that line back
    as the record. *)
Definition record_readable {E : Externals} (key : string) (completion : pyval) : Prop :=
  no_line_break (record_text key completion) = true
  /\ json_loads (record_text key completion +:+ newline) = Some (cache_record key completion).

(** The cache after the assignments [cache[key] = response], in order. *)
Definition replay {E : Externals} (h : list (list (string * string)))
  (pairs : list (list nat * pyval)) (m : gmap string pyval) : gmap string pyval :=
  fold_left (fun m pair => <[key_of h (fst pair) := snd pair]> m) pairs m.

(** *** The Gemma preprocessing, on values *)

(** The role and the content of the turn at [l]. *)
Definition view (h : list (list (string * string))) (l : nat) : string * string :=
  (default "" (dict_get "role" (deref h l)), default "" (dict_get "content" (deref h l))).

(** A [system] turn becomes a [user] turn. *)
Definition norm_turn (t : string * string) : string * string :=
  (if String.eqb (fst t) "system" then "user" else fst t, snd t).

(** Scan from left to right with an open turn of role [r] and content [c]:
    a turn of the same role is joined to the open turn, a blank line between
    the contents; a turn of another role closes it and opens the next. *)
Fixpoint merge_from (r c : string) (ts : list (string * string))
  : list (string * string) :=
  match ts with
  | [] => [(r, c)]
  | (r', c') :: rest =>
      if String.eqb r' r then merge_from r (c +:+ blank_line +:+ c') rest
      else (r, c) :: merge_from r' c' rest
  end.

Definition merge_turns (ts : list (string * string)) : list (string * string) :=
  match ts with
  | [] => []
  | (r, c) :: rest => merge_from r c rest
  end.

(** A conversation that does not start with a [user] turn gets one. *)
Definition with_leading_user (ts : list (string * string)) : list (string * string) :=
  match ts with
  | [] => []
  | (r, _) :: _ => if String.eqb r "user" then ts else ("user", "Hello") :: ts
  end.

(** The specification of [process_gemma_messages] on roles and contents. *)
Definition gemma_spec (ts : list (string * string)) : list (string * string) :=
  with_leading_user (merge_turns (map norm_turn ts)).

(** No two consecutive roles are the same. *)
Fixpoint alternating (rs : list string) : Prop :=
  match rs with
  | r1 :: rest =>
      match rest with
      | r2 :: _ => r1 <> r2 /\ alternating rest
      | [] => True
      end
  | [] => True
  end.

Definition chat_role (r : string) : Prop :=
  r = "system" \/ r = "user" \/ r = "assistant".

(** The turn at [l] has a role among the three and a content. *)
Definition well_formed_turn (h : list (list (string * string))) (l : nat) : Prop :=
  exists r c,
    dict_get "role" (deref h l) = Some r
    /\ dict_get "content" (deref h l) = Some c
    /\ chat_role r.

(** The roles of a conversation as Gemma takes it. *)
Definition turn_role (r : string) : Prop := r = "user" \/ r = "assistant".

(** The turn at [l] has role [r] and content [c]. *)
Definition turn_at (h : list (list (string * string))) (l : nat) (t : string * string)
  : Prop :=
  dict_get "role" (deref h l) = Some (fst t) /\ dict_get "content" (deref h l) = Some (snd t).

(** The first loop of [process_gemma_messages] between two rounds: [h0] is
    the heap it started from, [suf] the messages still to visit, [prev] the
    last of [processed_messages] and [done] the ones before it. *)
Record merge_state (h0 : list (list (string * string))) (suf : list nat)
  (h : list (list (string * string))) (done : list nat) (prev : nat) : Prop := {
  ms_grow : length h0 <= length h;
  ms_suf_old : forall l, In l suf -> l < length h0 /\ deref h l = deref h0 l;
  ms_prev_lt : prev < length h;
  ms_prev_suf : ~ In prev suf;
  ms_done_lt : Forall (fun l => l < length h) done;
  ms_done_suf : forall l, In l done -> ~ In l suf;
  ms_prev_done : ~ In prev done
}.

(** The new turn that stands for a [system] turn. *)
Definition system_as_user (content : string) : list (string * string) :=
  [("role", "user"); ("content", content)].

(** The turn put first when the conversation does not start with a [user]
    turn. *)
Definition hello_turn : list (string * string) := [("role", "user"); ("content", "Hello")].

(** *** The Gemma preprocessing, on roles alone *)

Definition norm_role (r : string) : string :=
  if String.eqb r "system" then "user" else r.

(** The roles of [merge_from]: a repeated role is dropped. *)
Fixpoint squeeze_from (r : string) (rs : list string) : list string :=
  match rs with
  | [] => [r]
  | r' :: rest =>
      if String.eqb r' r then squeeze_from r rest else r :: squeeze_from r' rest
  end.

Definition squeeze (rs : list string) : list string :=
  match rs with
  | [] => []
  | r :: rest => squeeze_from r rest
  end.

Definition with_leading_user_role (rs : list string) : list string :=
  match rs with
  | [] => []
  | r :: _ => if String.eqb r "user" then rs else "user" :: rs
  end.

(** The turn at [l] has the role [r]. *)
Definition role_at (h : list (list (string * string))) (l : nat) (r : string) : Prop :=
  dict_get "role" (deref h l) = Some r.

(** The turn at [l] exists and has a content. *)
Definition live (h : list (list (string * string))) (l : nat) : Prop :=
  l < length h /\ dict_has "content" (deref h l) = true.

(** From [h] to [h']: turns were added, contents were replaced; every turn
    of [h] keeps its role and still has a content if it had one. *)
Definition roles_kept (h h' : list (list (string * string))) : Prop :=
  length h <= length h'
  /\ forall l, l < length h ->
       dict_get "role" (deref h' l) = dict_get "role" (deref h l)
       /\ (dict_has "content" (deref h l) = true -> dict_has "content" (deref h' l) = true).

(** ** Vocabulary of the frame and error properties *)

(** A computation after which the world is related to the one before by
    [R], whatever its outcome. *)
Definition preserves {A : Type} (R : world -> world -> Prop) (m : M A) : Prop :=
  forall w, R w (snd (m w)).

(** A relation between worlds that steps compose under and that new events
    do not break. *)
Record frame (R : world -> world -> Prop) : Prop := {
  frame_refl : forall w, R w w;
  frame_trans : forall w1 w2 w3, R w1 w2 -> R w2 w3 -> R w1 w3;
  frame_log : forall e w, R w (log e w)
}.

(** A relation that updates of the turns do not break. *)
Definition frame_heap (R : world -> world -> Prop) : Prop :=
  forall h w, R w (set_heap h w).

(** The cache and the files are the same. *)
Definition same_store (w w' : world) : Prop :=
  w_cache w' = w_cache w /\ w_files w' = w_files w.

(** The turns are the same. *)
Definition same_heap (w w' : world) : Prop := w_heap w' = w_heap w.

(** The cache file was only appended to, the other files are as they were,
    and every key of the cache is still one. *)
Definition store_grows (cache_file : string) (w w' : world) : Prop :=
  (forall path, path <> cache_file -> w_files w' !! path = w_files w !! path)
  /\ (exists suffix,
        file_text (w_files w') cache_file = file_text (w_files w) cache_file +:+ suffix)
  /\ (forall k, is_Some (w_cache w !! k) -> is_Some (w_cache w' !! k)).

(** A computation that raises only exceptions that satisfy [P]. *)
Definition raises_only {A : Type} (P : pyexn -> Prop) (m : M A) : Prop :=
  forall w e, fst (m w) = Raise e -> P e.

(** An exception that is not the [RetryError] of an exhausted retry. *)
Definition not_retry_error (e : pyexn) : Prop :=
  match e with
  | RetryError _ => False
  | _ => True
  end.

(** An exception that is not a failed [assert]. *)
Definition not_assertion_error (e : pyexn) : Prop := e <> AssertionError.

(** The exceptions of reading a value: a wrong type, a missing key, an
    index out of range, an integer too large for a double. *)
Definition data_error (e : pyexn) : Prop :=
  e = TypeError \/ e = KeyError \/ e = IndexError \/ e = OverflowError.

(** The text of a cached response, as the last loop of [cached_generate]
    reads it: [choices[0].message.content] for a cost-tracked model,
    [content[0].text] for a Claude model, the entry itself otherwise. *)
Definition response_text (model_name : string) (entry : pyval) : pyres pyval :=
  if dict_has model_name GPT_COSTS
  then bind_res (py_getitem entry "choices") (fun a =>
       bind_res (py_index a 0) (fun b =>
       bind_res (py_getitem b "message") (fun c =>
       py_getitem c "content")))
  else if in_claude_models model_name
  then bind_res (py_getitem entry "content") (fun a =>
       bind_res (py_index a 0) (fun b =>
       py_getitem b "text"))
  else Ok entry.

(** The prompt [p] has an entry in the cache, with the text [t]. *)
Definition has_text {E : Externals} (model_name : string) (w : world) (p : list nat)
  (t : pyval) : Prop :=
  exists v, w_cache w !! key_of (w_heap w) p = Some v /\ response_text model_name v = Ok t.

(** A service that rejects the posts it receives until [base + k] posts
    were made, and accepts the one after them: [k] failures in a row for a
    caller that starts when [base] posts were made. *)
Definition answers_after {E : Externals} (field : string) (base k : nat) : Prop :=
  forall lg url hd data,
    (length (posts lg) < base + k -> reply_fails field (http lg url hd data) = true)
    /\ (length (posts lg) = base + k -> reply_fails field (http lg url hd data) = false).

(** The prompts of a batch that are attempted in one round of the
    dispatcher when every attempt fails: the first alone when they are sent
    one after the other, all of them when they are sent by a pool. *)
Definition attempted (parallel_model_calls : bool) (batch : list (list nat)) : nat :=
  if negb parallel_model_calls || (length batch <=? 1)%nat then 1 else length batch.

(** From the turns [h] to the turns [h'], for a call on the messages [ms]:
    no turn is gone; a turn of [h] keeps every key but its content; and it is
    the same turn altogether when it is not one of [ms] or is a [system]
    turn. *)
Definition content_updates (ms : list nat) (h h' : list (list (string * string))) : Prop :=
  length h <= length h'
  /\ forall l, l < length h ->
       (forall k, k <> "content" -> dict_get k (deref h' l) = dict_get k (deref h l))
       /\ (~ In l ms \/ dict_get "role" (deref h l) = Some "system" ->
           deref h' l = deref h l).

(** A turn that the first loop of [process_gemma_messages] may update: one
    it created, or a message of the caller that is not a [system] turn. *)
Definition updatable (ms : list nat) (h0 : list (list (string * string))) (l : nat) : Prop :=
  length h0 <= l \/ (In l ms /\ dict_get "role" (deref h0 l) <> Some "system").

(** The turns now, against the turns [h0] the call started from. *)
Definition merge_inv (ms : list nat) (h0 : list (list (string * string))) (w : world)
  : Prop :=
  content_updates ms h0 (w_heap w).

(** The turns were only added to. *)
Definition heap_extends (w w' : world) : Prop :=
  exists more, w_heap w' = w_heap w ++ more.

(** A computation that keeps the invariant [I] of the world whatever its
    outcome, and whose result, when it returns one, satisfies [Q]. *)
Definition ensures {A : Type} (I : world -> Prop) (Q : A -> Prop) (m : M A) : Prop :=
  forall w, I w -> I (snd (m w)) /\ forall a, fst (m w) = Ok a -> Q a.

(** What the Gemini branch does to one turn: a [system] role becomes
    [user], and the content moves to the key [parts]. *)
Definition gemini_form (t : list (string * string)) : list (string * string) :=
  match dict_get "content" (rewrite_turn t) with
  | Some content => dict_del "content" (dict_set "parts" content (rewrite_turn t))
  | None => rewrite_turn t
  end.

(** The heap with the turns at [ls] in the form the Gemini branch gives
    them. *)
Definition gemini_locs (ls : list nat) (h : list (list (string * string)))
  : list (list (string * string)) :=
  imap (fun l t => if existsb (Nat.eqb l) ls then gemini_form t else t) h.

(** The body that the Gemma branch posts: the generation config of the
    caller is not in it. *)
Definition gemma_data (model_name : string) (final_messages : pyval) : pyval :=
  PDict [ ("model", PStr model_name); ("messages", final_messages);
          ("temperature", PFloat 0); ("max_tokens", PInt 512) ].


(** The content [a] with [b] joined to it [n] times, a blank line before
    each. *)
Fixpoint joined (a b : string) (n : nat) : string :=
  match n with
  | O => a
  | S n' => joined a b n' +:+ blank_line +:+ b
  end.

(** ** A JSON text codec

    An instance of the two [json] functions, used to run the model on
    concrete inputs: the writer follows [json.dumps] with its defaults
    (separators [", "] and [": "], ASCII output with the short escapes and
    [\u00XX]); the reader accepts that text and insignificant white space.
    Numbers are integers here: the writer takes a float's digits as a
    parameter and the reader rejects a fraction or an exponent. *)
Module JsonText.

Definition hex_digit (n : nat) : ascii :=
  nth n (list_ascii_of_string "0123456789abcdef") "0"%char.

Definition escape_char (c : ascii) : string :=
  let n := nat_of_ascii c in
  if Ascii.eqb c "034" then String "\"%char (String "034"%char EmptyString)
  else if Ascii.eqb c "\" then "\\"
  else if (n =? 10)%nat then "\n"
  else if (n =? 13)%nat then "\r"
  else if (n =? 9)%nat then "\t"
  else if (n =? 8)%nat then "\b"
  else if (n =? 12)%nat then "\f"
  else if (32 <=? n)%nat && (n <=? 126)%nat then String c EmptyString
  else "\u00" +:+ String (hex_digit (n / 16)) (String (hex_digit (n mod 16)) EmptyString).

Fixpoint escape (s : string) : string :=
  match s with
  | EmptyString => EmptyString
  | String c rest => escape_char c +:+ escape rest
  end.

Definition dquote : string := String "034"%char EmptyString.

Definition quote (s : string) : string := dquote +:+ escape s +:+ dquote.

Definition decimal (z : Z) : string := DecimalString.NilZero.string_of_int (Z.to_int z).

Section Writer.
Variable float_repr : float -> string.

Fixpoint dumps (v : pyval) : string :=
  match v with
  | PNone => "null"
  | PBool true => "true"
  | PBool false => "false"
  | PInt z => decimal z
  | PFloat f => float_repr f
  | PStr s => quote s
  | PList l =>
      "[" +:+ (fix items (l : list pyval) : string :=
                 match l with
                 | [] => ""
                 | x :: [] => dumps x
                 | x :: rest => dumps x +:+ ", " +:+ items rest
                 end) l +:+ "]"
  | PDict d =>
      "{" +:+ (fix items (d : list (string * pyval)) : string :=
                 match d with
                 | [] => ""
                 | (k, x) :: [] => quote k +:+ ": " +:+ dumps x
                 | (k, x) :: rest => quote k +:+ ": " +:+ dumps x +:+ ", " +:+ items rest
                 end) d +:+ "}"
  end.
End Writer.

Definition is_ws (c : ascii) : bool :=
  let n := nat_of_ascii c in
  (n =? 32)%nat || (n =? 9)%nat || (n =? 10)%nat || (n =? 13)%nat.

Fixpoint skip_ws (s : string) : string :=
  match s with
  | String c rest => if is_ws c then skip_ws rest else s
  | EmptyString => s
  end.

Definition is_digit (c : ascii) : bool :=
  let n := nat_of_ascii c in (48 <=? n)%nat && (n <=? 57)%nat.

Definition hex_value (c : ascii) : option nat :=
  let n := nat_of_ascii c in
  if (48 <=? n)%nat && (n <=? 57)%nat then Some (n - 48)
  else if (97 <=? n)%nat && (n <=? 102)%nat then Some (n - 87)
  else if (65 <=? n)%nat && (n <=? 70)%nat then Some (n - 55)
  else None.

(** The characters of a string literal after its opening quote. *)
Fixpoint read_chars (s : string) : option (string * string) :=
  match s with
  | EmptyString => None
  | String c rest =>
      if Ascii.eqb c "034" then Some (EmptyString, rest)
      else if Ascii.eqb c "\" then
        match rest with
        | String e rest1 =>
            let continue (ch : ascii) (tail : string) :=
              match read_chars tail with
              | Some (body, after) => Some (String ch body, after)
              | None => None
              end in
            if Ascii.eqb e "034" then continue "034"%char rest1
            else if Ascii.eqb e "\" then continue "\"%char rest1
            else if Ascii.eqb e "/" then continue "/"%char rest1
            else if Ascii.eqb e "n" then continue "010"%char rest1
            else if Ascii.eqb e "r" then continue "013"%char rest1
            else if Ascii.eqb e "t" then continue "009"%char rest1
            else if Ascii.eqb e "b" then continue "008"%char rest1
            else if Ascii.eqb e "f" then continue "012"%char rest1
            else if Ascii.eqb e "u" then
              match rest1 with
              | String a (String b (String c1 (String d rest2))) =>
                  match hex_value a, hex_value b, hex_value c1, hex_value d with
                  | Some 0%nat, Some 0%nat, Some x, Some y =>
                      continue (ascii_of_nat (16 * x + y)) rest2
                  | _, _, _, _ => None
                  end
              | _ => None
              end
            else None
        | EmptyString => None
        end
      else if (nat_of_ascii c <? 32)%nat then None
      else
        match read_chars rest with
        | Some (body, after) => Some (String c body, after)
        | None => None
        end
  end.

Fixpoint span_digits (s : string) : string * string :=
  match s with
  | String c rest =>
      if is_digit c then let (ds, after) := span_digits rest in (String c ds, after)
      else (EmptyString, s)
  | EmptyString => (EmptyString, s)
  end.

Definition read_number (s : string) : option (pyval * string) :=
  let (neg, s1) := match s with
                   | String "-"%char rest => (true, rest)
                   | _ => (false, s)
                   end in
  let (ds, after) := span_digits s1 in
  match ds with
  | EmptyString => None
  | String "0"%char (String _ _) => None
  | _ =>
      match after with
      | String "."%char _ | String "e"%char _ | String "E"%char _ => None
      | _ =>
          match DecimalString.NilZero.int_of_string ds with
          | Some d => Some (PInt (if neg then Z.opp (Z.of_int d) else Z.of_int d), after)
          | None => None
          end
      end
  end.

Definition expect (word : string) (v : pyval) (s : string) : option (pyval * string) :=
  if String.prefix word s
  then Some (v, String.substring (String.length word) (String.length s - String.length word) s)
  else None.

Fixpoint read_value (fuel : nat) (s : string) : option (pyval * string) :=
  match fuel with
  | O => None
  | S fuel' =>
      let read_items :=
        fix read_items (n : nat) (s : string) : option (list pyval * string) :=
          match n with
          | O => None
          | S n' =>
              match read_value fuel' s with
              | Some (x, after) =>
                  match skip_ws after with
                  | String ","%char more =>
                      match read_items n' more with
                      | Some (xs, rest) => Some (x :: xs, rest)
                      | None => None
                      end
                  | String "]"%char more => Some ([x], more)
                  | _ => None
                  end
              | None => None
              end
          end in
      let read_members :=
        fix read_members (n : nat) (s : string) : option (list (string * pyval) * string) :=
          match n with
          | O => None
          | S n' =>
              match skip_ws s with
              | String "034"%char body =>
                  match read_chars body with
                  | Some (k, after_key) =>
                      match skip_ws after_key with
                      | String ":"%char more =>
                          match read_value fuel' more with
                          | Some (x, after) =>
                              match skip_ws after with
                              | String ","%char more' =>
                                  match read_members n' more' with
                                  | Some (kvs, rest) => Some ((k, x) :: kvs, rest)
                                  | None => None
                                  end
                              | String "}"%char more' => Some ([(k, x)], more')
                              | _ => None
                              end
                          | None => None
                          end
                      | _ => None
                      end
                  | None => None
                  end
              | _ => None
              end
          end in
      match skip_ws s with
      | String "034"%char body =>
          match read_chars body with
          | Some (str, after) => Some (PStr str, after)
          | None => None
          end
      | String "["%char more =>
          match skip_ws more with
          | String "]"%char rest => Some (PList [], rest)
          | _ =>
              match read_items fuel' more with
              | Some (xs, rest) => Some (PList xs, rest)
              | None => None
              end
          end
      | String "{"%char more =>
          match skip_ws more with
          | String "}"%char rest => Some (PDict [], rest)
          | _ =>
              match read_members fuel' more with
              | Some (kvs, rest) =>
                  Some (PDict (fold_left (fun d kv => dict_set (fst kv) (snd kv) d) kvs []),
                        rest)
              | None => None
              end
          end
      | String "n"%char _ as t => expect "null" PNone t
      | String "t"%char _ as t => expect "true" (PBool true) t
      | String "f"%char _ as t => expect "false" (PBool false) t
      | t => read_number t
      end
  end.

Definition loads (s : string) : option pyval :=
  match read_value (S (String.length s)) s with
  | Some (v, rest) =>
      match skip_ws rest with
      | EmptyString => Some v
      | _ => None
      end
  | None => None
  end.

End JsonText.

(** ** Sample services and data, for the examples *)

Definition no_float_digits (f : float) : string := "0.0".

(** A service that is down: every post fails, every chat fails. *)
Definition service_down : Externals := {|
  json_dumps := JsonText.dumps no_float_digits;
  json_loads := JsonText.loads;
  http := fun _ _ _ _ => HttpFails;
  chat := fun _ _ _ _ => None
|}.

Definition sample_usage : pyval :=
  PDict [("prompt_tokens", PInt 100); ("completion_tokens", PInt 50)].

Definition sample_completion (text : string) : pyval :=
  PDict [ ("choices", PList [PDict [("message", PDict [("role", PStr "assistant");
                                                       ("content", PStr text)])]]);
          ("usage", sample_usage) ].

(** A service that answers every post with a complete chat completion that
    reports 100 prompt tokens and 50 completion tokens. *)
Definition service_up : Externals := {|
  json_dumps := JsonText.dumps no_float_digits;
  json_loads := JsonText.loads;
  http := fun _ _ _ _ => HttpBody (Some (sample_completion "ok"));
  chat := fun _ _ _ _ => Some "ok"
|}.

Definition user_turn (content : string) : turn := [("role", "user"); ("content", content)].
Definition system_turn (content : string) : turn := [("role", "system"); ("content", content)].
Definition assistant_turn (content : string) : turn :=
  [("role", "assistant"); ("content", content)].

Definition empty_world (h : heap) : world := World h ∅ ∅ [].

(** Five one-turn prompts; the first three are in the cache. *)
Definition five_turns : list (list (string * string)) :=
  [user_turn "q0"; user_turn "q1"; user_turn "q2"; user_turn "q3"; user_turn "q4"].

Definition five_prompts : list (list nat) := [[0]; [1]; [2]; [3]; [4]].

Definition sample_key (l : nat) : string :=
  JsonText.dumps no_float_digits (snapshot five_turns [l]).

Definition three_cached : gmap string pyval :=
  <[sample_key 0 := sample_completion "a0"]>
    (<[sample_key 1 := sample_completion "a1"]>
       (<[sample_key 2 := sample_completion "a2"]> ∅)).

Definition five_world : world := World five_turns three_cached ∅ [].

Definition openai_url : arg := AStr "https://api.openai.com/v1/chat/completions".

(** [100 * (5 / 1000000) + 50 * (15 / 1000000)] in double arithmetic. *)
Definition sample_cost : float :=
  PrimFloat.add (PrimFloat.mul 100 (PrimFloat.div 5 1000000))
                (PrimFloat.mul 50 (PrimFloat.div 15 1000000)).

(** The turns [system, system, assistant, user]. *)
Definition four_turns : list (list (string * string)) :=
  [system_turn "s1"; system_turn "s2"; assistant_turn "a"; user_turn "u"].

(** A service that fails the first three posts it receives and answers from
    the fourth on. *)
Definition service_flaky : Externals := {|
  json_dumps := JsonText.dumps no_float_digits;
  json_loads := JsonText.loads;
  http := fun lg _ _ _ =>
            if (length (posts lg) <? 3)%nat then HttpFails
            else HttpBody (Some (sample_completion "ok"));
  chat := fun _ _ _ _ => None
|}.

(** A message of the Anthropic API with one block of text. *)
Definition sample_message (text : string) : pyval :=
  PDict [ ("role", PStr "assistant");
          ("content", PList [PDict [("type", PStr "text"); ("text", PStr text)]]) ].

(** A service that answers every post with such a message. *)
Definition service_claude : Externals := {|
  json_dumps := JsonText.dumps no_float_digits;
  json_loads := JsonText.loads;
  http := fun _ _ _ _ => HttpBody (Some (sample_message "ok"));
  chat := fun _ _ _ _ => None
|}.

Definition claude_url : arg := AStr "https://api.anthropic.com/v1/messages".

(** A system turn and a user turn. *)
Definition two_turns : list (list (string * string)) :=
  [system_turn "Be brief."; user_turn "hi"].

(** A service that rejects every request whose last message says [bad] and
    answers every other. *)
Definition service_picky : Externals := {|
  json_dumps := JsonText.dumps no_float_digits;
  json_loads := JsonText.loads;
  http := fun _ _ _ data =>
            match py_getitem data "messages" with
            | Ok (PList [PDict [_; ("content", PStr "bad")]]) => HttpFails
            | _ => HttpBody (Some (sample_completion "ok"))
            end;
  chat := fun _ _ _ _ => None
|}.

(** A good prompt, a bad one and one more. *)
Definition picky_turns : list (list (string * string)) :=
  [user_turn "good"; user_turn "bad"; user_turn "later"].


Definition gemma_url : arg := AStr "http://localhost:8000/v1/chat/completions".

(** A line of a cache file, and a line that lacks the completion. *)
Definition good_record_line : string :=
  "{" +:+ JsonText.quote "prompt" +:+ ": " +:+ JsonText.quote "p" +:+ ", "
      +:+ JsonText.quote "completion" +:+ ": " +:+ JsonText.quote "c" +:+ "}" +:+ newline.

Definition bad_record_line : string :=
  "{" +:+ JsonText.quote "prompt" +:+ ": " +:+ JsonText.quote "q" +:+ "}" +:+ newline.

Definition broken_cache_file : string := good_record_line +:+ bad_record_line.

(** A cache that holds a plain text for the prompt [hi], as a model without
    a price table leaves it. *)
Definition text_cached_world : world :=
  World [user_turn "hi"]
    (<[JsonText.dumps no_float_digits (snapshot [user_turn "hi"] [0])
       := PStr "Here are your choices."]> ∅)
    ∅ [].

(** * Properties *)

Section Properties.
Context {E : Externals}.

(** ** The monad *)

Lemma bind_Ok {A B : Type} (m : M A) (k : A -> M B) w a w1 :
  m w = (Ok a, w1) -> bind m k w = k a w1.
Proof. intros H. unfold bind. now rewrite H. Qed.

Lemma reads_only_eq {A : Type} (m : M A) w :
  reads_only m -> m w = (fst (m w), w).
Proof. intros H. specialize (H w). destruct (m w) as [r w']. simpl in *. now subst. Qed.

Lemma reads_only_ret {A : Type} (a : A) : reads_only (ret a).
Proof. now intros w. Qed.

Lemma reads_only_raise {A : Type} e : reads_only (@raise A e).
Proof. now intros w. Qed.

Lemma reads_only_lift {A : Type} (r : pyres A) : reads_only (lift r).
Proof. now intros w. Qed.

Lemma reads_only_bind {A B : Type} (m : M A) (k : A -> M B) :
  reads_only m -> (forall a, reads_only (k a)) -> reads_only (bind m k).
Proof.
  intros Hm Hk w. unfold bind. specialize (Hm w).
  destruct (m w) as [[a|e] w1]; simpl in *; subst; [apply Hk | reflexivity].
Qed.

Lemma heap_only_ret {A : Type} (a : A) : heap_only (ret a).
Proof. intros [h c f l]. reflexivity. Qed.

Lemma heap_only_raise {A : Type} e : heap_only (@raise A e).
Proof. intros [h c f l]. reflexivity. Qed.

Lemma reads_only_heap_only {A : Type} (m : M A) : reads_only m -> heap_only m.
Proof. intros H w. rewrite (H w). now destruct w. Qed.

Lemma heap_only_bind {A B : Type} (m : M A) (k : A -> M B) :
  heap_only m -> (forall a, heap_only (k a)) -> heap_only (bind m k).
Proof.
  intros Hm Hk w. unfold bind. specialize (Hm w).
  destruct (m w) as [[a|e] w1]; simpl in *.
  - specialize (Hk a w1). rewrite Hk at 1. rewrite Hm. reflexivity.
  - exact Hm.
Qed.

Lemma heap_only_for_each {A : Type} (f : A -> M unit) (l : list A) :
  (forall x, heap_only (f x)) -> heap_only (for_each f l).
Proof.
  intros Hf. induction l as [|x l IH]; simpl.
  - apply heap_only_ret.
  - apply heap_only_bind; [apply Hf | intros _; exact IH].
Qed.

Lemma heap_only_log {A : Type} (m : M A) w :
  heap_only m -> w_log (snd (m w)) = w_log w.
Proof. intros H. rewrite (H w). reflexivity. Qed.


(** ** Reads and writes of turns *)

Lemma reads_only_read_turn l : reads_only (read_turn l).
Proof. now intros w. Qed.

Lemma reads_only_getitem k l : reads_only (getitem k l).
Proof.
  apply reads_only_bind; [apply reads_only_read_turn |].
  intros t. destruct (dict_get k t); [apply reads_only_ret | apply reads_only_raise].
Qed.

Lemma heap_only_write_turn l t : heap_only (write_turn l t).
Proof. intros [h c f lg]. reflexivity. Qed.

Lemma heap_only_setitem k v l : heap_only (setitem k v l).
Proof.
  apply heap_only_bind; [apply reads_only_heap_only, reads_only_read_turn |].
  intros t. apply heap_only_write_turn.
Qed.

Lemma heap_only_system_to_user l : heap_only (system_to_user l).
Proof.
  apply heap_only_bind; [apply reads_only_heap_only, reads_only_getitem |].
  intros role. destruct (String.eqb role "system");
    [apply heap_only_setitem | apply heap_only_ret].
Qed.

Lemma heap_only_reasoning_rewrite batch : heap_only (reasoning_rewrite batch).
Proof.
  apply heap_only_for_each. intros p. apply heap_only_for_each.
  apply heap_only_system_to_user.
Qed.

Lemma reads_only_snapshot_now p : reads_only (snapshot_now p).
Proof. now intros w. Qed.

Lemma reads_only_prompt_key p : reads_only (prompt_key p).
Proof.
  apply reads_only_bind; [apply reads_only_snapshot_now | intros; apply reads_only_ret].
Qed.

(** ** Retries that never succeed *)


Lemma retry_from_raise {A : Type} wait k n e w :
  retry_from wait k n (@raise A e) w = (Raise (RetryError e), after_sleeps wait k n w).
Proof.
  revert k w. induction n as [|n IH]; intros k w; simpl; [reflexivity|].
  apply IH.
Qed.

Lemma after_sleeps_network wait k n w :
  network_calls (w_log (after_sleeps wait k n w)) = network_calls (w_log w).
Proof.
  revert k w. induction n as [|n IH]; intros k w; simpl; [reflexivity|].
  rewrite IH. reflexivity.
Qed.

(** ** model_call_wrapper: the cases that call nothing *)

Lemma model_call_wrapper_nil name url cfg par w :
  model_call_wrapper name url (ABatch []) cfg par w = (Ok (PList []), w).
Proof. reflexivity. Qed.

(** C10.  For an empty batch [model_call_wrapper] returns the empty list at
    once, whatever the model name (a known one, an unknown one, [None]), the
    url, the generation config and the parallelism flag: the world, and so
    the log of network calls, is left as it was. *)
Theorem model_call_wrapper_empty_batch :
  forall (model_name model_url : arg) (generation_config : list (string * pyval))
         (parallel_model_calls : bool) (w : world),
    model_call_wrapper model_name model_url (ABatch []) generation_config
      parallel_model_calls w = (Ok (PList []), w).
Proof. intros. apply model_call_wrapper_nil. Qed.

(** C2.  For a non-empty batch and a model name that is not a key of
    [GPT_COSTS], has neither [gemini] nor [gemma] in its lower-cased form and
    is not in [CLAUDE_MODELS], [model_call_wrapper] returns [None] without
    raising: no adapter runs and the world (the log of network calls
    included) is left as it was. *)
Theorem model_call_wrapper_unknown_model :
  forall (name : string) (model_url : arg) (batch : list prompt)
         (generation_config : list (string * pyval)) (parallel_model_calls : bool)
         (w : world),
    batch <> [] ->
    dict_has name GPT_COSTS = false ->
    contains "gemini" (lower name) = false ->
    contains "gemma" (lower name) = false ->
    in_claude_models name = false ->
    model_call_wrapper (AStr name) model_url (ABatch batch) generation_config
      parallel_model_calls w = (Ok PNone, w).
Proof.
  intros name url batch cfg par w Hne Hcost Hgemini Hgemma Hclaude.
  unfold model_call_wrapper, retry, model_call_wrapper_once.
  destruct batch as [|p batch]; [congruence|].
  simpl arg_truthy. simpl negb. cbv iota.
  rewrite Hcost, Hgemini, Hgemma, Hclaude. reflexivity.
Qed.

(** ** cached_generate without a cache *)

Lemma reasoning_rewrite_outcome batch w :
  fst (reasoning_rewrite batch w) = Ok tt \/ fst (reasoning_rewrite batch w) = Raise KeyError.
Proof.
  unfold reasoning_rewrite. revert w.
  assert (Hturn : forall l w, fst (system_to_user l w) = Ok tt
                              \/ fst (system_to_user l w) = Raise KeyError).
  { intros l w. unfold system_to_user, getitem, bind, read_turn.
    destruct (dict_get "role" (deref (w_heap w) l)) as [r|]; simpl; [|now right].
    destruct (String.eqb r "system"); now left. }
  assert (Hprompt : forall p w, fst (for_each system_to_user p w) = Ok tt
                                \/ fst (for_each system_to_user p w) = Raise KeyError).
  { induction p as [|l p IH]; intros w; simpl; [now left|].
    unfold bind. destruct (Hturn l w) as [H|H];
      destruct (system_to_user l w) as [[[]|e] w1]; simpl in H; try discriminate.
    - apply IH.
    - right. simpl. congruence. }
  induction batch as [|p batch IH]; intros w; simpl; [now left|].
  unfold bind. destruct (Hprompt p w) as [H|H];
    destruct (for_each system_to_user p w) as [[[]|e] w1]; simpl in H; try discriminate.
  - apply IH.
  - right. simpl. congruence.
Qed.

(** C1 (the code departs from it).  Without a cache [cached_generate] calls
    [model_call_wrapper(batch_prompts, model_name, model_url, ...)]: the batch
    is bound to [model_name], the model name to [model_url] and the url to
    [batch_messages].  For a non-empty url every attempt raises [TypeError]
    at [model_name in GPT_COSTS] (a list is not hashable), so the call ends in
    an exception and no prompt of the batch is ever sent to a service. *)
Theorem cached_generate_no_cache_never_dispatches :
  forall (batch_prompts : list prompt) (model_name : string) (model_url : arg)
         (cache_file : string) (generation_config : list (string * pyval))
         (parallel_model_calls : bool) (w : world),
    arg_truthy model_url = true ->
    exists e w',
      cached_generate batch_prompts model_name model_url CacheNone cache_file
        generation_config parallel_model_calls w = (Raise e, w')
      /\ (e = RetryError TypeError \/ e = KeyError)
      /\ network_calls (w_log w') = network_calls (w_log w).
Proof.
  intros batch name url file cfg par w Hurl.
  assert (Hcall : forall cfg' w1,
             model_call_wrapper (ABatch batch) (AStr name) url cfg' par w1
             = (Raise (RetryError TypeError), after_sleeps (wait_fixed 20) 1 9 w1)).
  { intros cfg' w1. unfold model_call_wrapper, retry, model_call_wrapper_once.
    rewrite Hurl. simpl negb. cbv iota. apply retry_from_raise. }
  unfold cached_generate, generate_with.
  destruct (startswith "o1" name).
  - pose proof (reasoning_rewrite_outcome batch w) as Hout.
    pose proof (heap_only_log (reasoning_rewrite batch) w
                  (heap_only_reasoning_rewrite batch)) as Hlog.
    unfold bind at 1. unfold bind at 1.
    destruct (reasoning_rewrite batch w) as [[[]|e] w1]; simpl in Hout, Hlog.
    + unfold ret at 1. unfold bind. rewrite Hcall.
      eexists _, _. split; [reflexivity|]. split; [now left|].
      rewrite after_sleeps_network. now rewrite Hlog.
    + destruct Hout as [Hout|Hout]; [discriminate|]. injection Hout as ->.
      eexists _, _. split; [reflexivity|]. split; [now right|]. now rewrite Hlog.
  - unfold bind at 1. unfold ret at 1. unfold bind. rewrite Hcall.
    eexists _, _. split; [reflexivity|]. split; [now left|].
    apply after_sleeps_network.
Qed.

(** ** What a computation can emit *)

Lemma emits_only_heap_only {A : Type} P (m : M A) : heap_only m -> emits_only P m.
Proof. intros H w. exists []. split; [|reflexivity]. now rewrite (heap_only_log m w H). Qed.

Lemma emits_only_reads_only {A : Type} P (m : M A) : reads_only m -> emits_only P m.
Proof. intros H. now apply emits_only_heap_only, reads_only_heap_only. Qed.

Lemma emits_only_ret {A : Type} P (a : A) : emits_only P (ret a).
Proof. apply emits_only_reads_only, reads_only_ret. Qed.

Lemma emits_only_raise {A : Type} P e : emits_only P (@raise A e).
Proof. apply emits_only_reads_only, reads_only_raise. Qed.

Lemma emits_only_bind {A B : Type} P (m : M A) (k : A -> M B) :
  emits_only P m -> (forall a, emits_only P (k a)) -> emits_only P (bind m k).
Proof.
  intros Hm Hk w. unfold bind. destruct (Hm w) as (evs & Hlog & Hall).
  destruct (m w) as [[a|e] w1]; simpl in *.
  - destruct (Hk a w1) as (evs' & Hlog' & Hall'). exists (evs' ++ evs).
    rewrite Hlog', Hlog, app_assoc. split; [reflexivity|].
    rewrite forallb_app. now rewrite Hall, Hall'.
  - now exists evs.
Qed.

Lemma emits_only_emit P ev : P ev = true -> emits_only P (emit ev).
Proof. intros H w. exists [ev]. simpl. now rewrite H. Qed.


Lemma emits_only_retry_from {A : Type} P wait (f : M A) :
  (forall k, P (EvSleep wait k) = true) -> emits_only P f ->
  forall n k, emits_only P (retry_from wait k n f).
Proof.
  intros Hwait Hf. induction n as [|n IH]; intros k w; simpl.
  - destruct (Hf w) as (evs & Hlog & Hall).
    destruct (f w) as [[a|e] w1]; simpl in *; now exists evs.
  - destruct (Hf w) as (evs & Hlog & Hall).
    destruct (f w) as [[a|e] w1]; simpl in *; [now exists evs|].
    destruct (IH (S k) (log (EvSleep wait k) w1)) as (evs' & Hlog' & Hall').
    exists (evs' ++ EvSleep wait k :: evs). rewrite Hlog'. simpl. rewrite Hlog.
    rewrite <- app_assoc. split; [reflexivity|].
    rewrite forallb_app. simpl. now rewrite Hall', Hwait, Hall.
Qed.

Lemma emits_only_requests_post P url hd data :
  P (EvPost url hd data) = true -> emits_only P (requests_post url hd data).
Proof.
  intros H w. exists [EvPost url hd data]. unfold requests_post.
  destruct (http (w_log w) url hd data); simpl; now rewrite H.
Qed.

Lemma emits_only_send_message P url history message :
  P (EvChat url history message) = true -> emits_only P (send_message url history message).
Proof.
  intros H w. exists [EvChat url history message]. unfold send_message.
  destruct (chat (w_log w) url history message); simpl; now rewrite H.
Qed.


Lemma emits_only_request_once hd field url data :
  emits_only inner_event (request_once hd field url data).
Proof.
  apply emits_only_bind; [now apply emits_only_requests_post|].
  intros [response|].
  - destruct (py_contains field response) as [[|]|e].
    + apply emits_only_ret.
    + apply emits_only_bind; [now apply emits_only_emit | intros; apply emits_only_raise].
    + apply emits_only_bind; [now apply emits_only_emit | intros; apply emits_only_raise].
  - apply emits_only_bind; [now apply emits_only_emit | intros; apply emits_only_raise].
Qed.

Lemma heap_only_new_turn t : heap_only (new_turn t).
Proof. intros [h c f lg]. reflexivity. Qed.

Lemma heap_only_gemma_merge_step st message : heap_only (gemma_merge_step st message).
Proof.
  destruct st as [processed last_role]. unfold gemma_merge_step.
  apply heap_only_bind; [apply reads_only_heap_only, reads_only_getitem|]. intros role.
  apply heap_only_bind.
  - destruct (String.eqb role "system"); [|apply heap_only_ret].
    apply heap_only_bind; [apply reads_only_heap_only, reads_only_getitem|]. intros c.
    apply heap_only_bind; [apply heap_only_new_turn | intros; apply heap_only_ret].
  - intros [m cur].
    destruct (match last_role with Some r => String.eqb cur r | None => false end);
      [|apply heap_only_ret].
    destruct (last processed); [|apply heap_only_raise].
    apply heap_only_bind; [apply reads_only_heap_only, reads_only_getitem|]. intros old.
    apply heap_only_bind; [apply reads_only_heap_only, reads_only_getitem|]. intros more.
    apply heap_only_bind; [apply heap_only_setitem | intros; apply heap_only_ret].
Qed.

Lemma heap_only_gemma_merge messages : forall st, heap_only (gemma_merge st messages).
Proof.
  induction messages as [|m ms IH]; intros st; simpl.
  - apply heap_only_ret.
  - apply heap_only_bind; [apply heap_only_gemma_merge_step | intros; apply IH].
Qed.

Lemma heap_only_gemma_alternate_step i final message :
  heap_only (gemma_alternate_step i final message).
Proof.
  unfold gemma_alternate_step.
  apply heap_only_bind; [apply reads_only_heap_only, reads_only_getitem|]. intros role.
  apply heap_only_bind.
  - destruct ((i =? 0)%nat && negb (String.eqb role "user")); [|apply heap_only_ret].
    apply heap_only_bind; [apply heap_only_new_turn | intros; apply heap_only_ret].
  - intros final1. apply heap_only_bind; [|intros; apply heap_only_ret].
    destruct (0 <? i)%nat; [|apply heap_only_ret].
    destruct (last final1); [|apply heap_only_raise].
    apply heap_only_bind; [apply reads_only_heap_only, reads_only_getitem|]. intros r.
    destruct (String.eqb role r); [|apply heap_only_ret].
    destruct (String.eqb role "user");
      (apply heap_only_bind; [apply heap_only_new_turn | intros; apply heap_only_ret]).
Qed.

Lemma heap_only_gemma_alternate processed :
  forall i final, heap_only (gemma_alternate i final processed).
Proof.
  induction processed as [|m ms IH]; intros i final; simpl.
  - apply heap_only_ret.
  - apply heap_only_bind; [apply heap_only_gemma_alternate_step | intros; apply IH].
Qed.

Lemma heap_only_process_gemma_messages messages :
  heap_only (process_gemma_messages messages).
Proof.
  apply heap_only_bind; [apply heap_only_gemma_merge|].
  intros processed. apply heap_only_gemma_alternate.
Qed.

Lemma heap_only_for_turns body m :
  (forall l, heap_only (body l)) -> heap_only (for_turns body m).
Proof.
  intros H. destruct m as [[|c s]|p]; simpl.
  - apply heap_only_ret.
  - apply heap_only_raise.
  - now apply heap_only_for_each.
Qed.

Lemma reads_only_messages_value m : reads_only (messages_value m).
Proof. destruct m; [apply reads_only_ret | apply reads_only_snapshot_now]. Qed.

Lemma emits_only_openai_response name url cfg m :
  emits_only inner_event (openai_response name url cfg m).
Proof.
  apply emits_only_bind; [apply emits_only_reads_only, reads_only_messages_value|].
  intros v. apply emits_only_retry_from; [reflexivity | apply emits_only_request_once].
Qed.

Lemma emits_only_claude_response name url cfg m :
  emits_only inner_event (claude_response name url cfg m).
Proof.
  apply emits_only_bind.
  { apply emits_only_heap_only, heap_only_for_turns, heap_only_system_to_user. }
  intros _. apply emits_only_bind; [apply emits_only_reads_only, reads_only_messages_value|].
  intros v. apply emits_only_retry_from; [reflexivity | apply emits_only_request_once].
Qed.

Lemma heap_only_delitem k l : heap_only (delitem k l).
Proof.
  apply heap_only_bind; [apply reads_only_heap_only, reads_only_read_turn|]. intros t.
  destruct (dict_has k t); [apply heap_only_write_turn | apply heap_only_raise].
Qed.

Lemma heap_only_gemini_turn l : heap_only (gemini_turn l).
Proof.
  apply heap_only_bind; [apply heap_only_system_to_user|]. intros _.
  apply heap_only_bind; [apply reads_only_heap_only, reads_only_read_turn|]. intros t.
  destruct (dict_get "content" t); [|apply heap_only_ret].
  apply heap_only_bind; [apply heap_only_setitem | intros; apply heap_only_delitem].
Qed.

Lemma emits_only_gemini_response url m : emits_only inner_event (gemini_response url m).
Proof.
  apply emits_only_bind.
  { apply emits_only_heap_only, heap_only_for_turns, heap_only_gemini_turn. }
  intros _. destruct m as [s|p]; [apply emits_only_raise|].
  destruct (last p); [|apply emits_only_raise].
  apply emits_only_bind; [apply emits_only_reads_only, reads_only_snapshot_now|]. intros h.
  apply emits_only_bind; [apply emits_only_reads_only, reads_only_read_turn|]. intros t.
  now apply emits_only_send_message.
Qed.

Lemma emits_only_gemma_response name url m :
  emits_only inner_event (gemma_response name url m).
Proof.
  apply emits_only_bind.
  { destruct m as [[|c s]|p].
    - apply emits_only_ret.
    - apply emits_only_raise.
    - apply emits_only_bind.
      + apply emits_only_heap_only, heap_only_process_gemma_messages.
      + intros fm. apply emits_only_reads_only, reads_only_snapshot_now. }
  intros fm. apply emits_only_bind; [now apply emits_only_requests_post|].
  intros body.
  match goal with |- emits_only _ (match ?r with _ => _ end) => destruct r end.
  - apply emits_only_ret.
  - apply emits_only_bind; [now apply emits_only_emit | intros; apply emits_only_raise].
Qed.

Lemma emits_only_run_sequential P get_response items :
  (forall m, emits_only P (get_response m)) ->
  emits_only P (run_sequential get_response items).
Proof.
  intros H. induction items as [|m items IH]; simpl.
  - apply emits_only_ret.
  - apply emits_only_bind; [apply H|]. intros r.
    apply emits_only_bind; [apply IH | intros; apply emits_only_ret].
Qed.

Lemma run_workers_emits P get_response items :
  (forall m, emits_only P (get_response m)) ->
  forall w, exists evs,
    w_log (snd (run_workers get_response items w)) = evs ++ w_log w
    /\ forallb P evs = true.
Proof.
  intros H. induction items as [|m items IH]; intros w; simpl.
  - now exists [].
  - destruct (H m w) as (evs & Hlog & Hall).
    destruct (get_response m w) as [r w1]. simpl in *.
    destruct (IH w1) as (evs' & Hlog' & Hall').
    destruct (run_workers get_response items w1) as [rs w2]. simpl in *.
    exists (evs' ++ evs). rewrite Hlog', Hlog, app_assoc. split; [reflexivity|].
    rewrite forallb_app. now rewrite Hall, Hall'.
Qed.

Lemma emits_only_get_batch_responses par batch get_response :
  (forall m, emits_only inner_event (get_response m)) ->
  emits_only inner_event (get_batch_responses par batch get_response).
Proof.
  intros H. unfold get_batch_responses.
  destruct (negb par || (length (arg_items batch) <=? 1)%nat).
  - now apply emits_only_run_sequential.
  - apply emits_only_bind; [now apply emits_only_emit|]. intros _ w.
    destruct (run_workers_emits inner_event get_response (arg_items batch) H w)
      as (evs & Hlog & Hall).
    destruct (run_workers get_response (arg_items batch) w) as [rs w']. now exists evs.
Qed.

Lemma emits_only_model_call_wrapper_once name url batch cfg par :
  emits_only inner_event (model_call_wrapper_once name url batch cfg par).
Proof.
  unfold model_call_wrapper_once.
  destruct (negb (arg_truthy batch)); [apply emits_only_ret|].
  destruct name as [|name|b]; [apply emits_only_raise | | apply emits_only_raise].
  destruct (dict_has name GPT_COSTS).
  { apply emits_only_bind; [|intros; apply emits_only_ret].
    apply emits_only_get_batch_responses, emits_only_openai_response. }
  destruct (contains "gemini" (lower name)).
  { apply emits_only_bind; [|intros; apply emits_only_ret].
    apply emits_only_get_batch_responses, emits_only_gemini_response. }
  destruct (contains "gemma" (lower name)).
  { apply emits_only_bind; [|intros; apply emits_only_ret].
    apply emits_only_get_batch_responses, emits_only_gemma_response. }
  destruct (in_claude_models name).
  { apply emits_only_bind; [|intros; apply emits_only_ret].
    apply emits_only_get_batch_responses, emits_only_claude_response. }
  apply emits_only_ret.
Qed.

(** ** The retry bounds *)

Lemma request_once_fails hd field url data w :
  always_fails field ->
  exists e w',
    request_once hd field url data w = (Raise e, w')
    /\ posts (w_log w') = EvPost url hd data :: posts (w_log w)
    /\ sleeps (w_log w') = sleeps (w_log w).
Proof.
  intros Hfail. specialize (Hfail (w_log w) url hd data).
  unfold request_once, bind, requests_post.
  destruct (http (w_log w) url hd data) as [|[v|]]; simpl in *.
  - eexists _, _. split; [reflexivity|]. now split.
  - destruct (py_contains field v) as [[|]|e]; [discriminate| |];
      (eexists _, _; split; [reflexivity|]; now split).
  - eexists _, _. split; [reflexivity|]. now split.
Qed.

Lemma repeat_snoc_app {A : Type} (x : A) n l : repeat x n ++ x :: l = repeat x (S n) ++ l.
Proof. induction n as [|n IH]; simpl; [reflexivity|]. now rewrite IH. Qed.

Lemma request_retry_exhausted hd field url data wait :
  always_fails field ->
  forall n k w, exists e w9 w',
    retry_from wait k n (request_once hd field url data) w = (Raise (RetryError e), w')
    /\ request_once hd field url data w9 = (Raise e, w')
    /\ posts (w_log w9) = repeat (EvPost url hd data) n ++ posts (w_log w)
    /\ posts (w_log w') = repeat (EvPost url hd data) (S n) ++ posts (w_log w)
    /\ sleeps (w_log w') = List.rev (map (EvSleep wait) (seq k n)) ++ sleeps (w_log w).
Proof.
  intros Hfail. induction n as [|n IH]; intros k w.
  - destruct (request_once_fails hd field url data w Hfail) as (e & w' & Hrun & Hposts & Hsl).
    exists e, w, w'. simpl. rewrite Hrun. repeat split; assumption.
  - destruct (request_once_fails hd field url data w Hfail) as (e1 & w1 & Hrun & Hposts & Hsl).
    destruct (IH (S k) (log (EvSleep wait k) w1)) as (e & w9 & w' & Hr & Hlast & Hp9 & Hp & Hs).
    exists e, w9, w'. simpl retry_from. rewrite Hrun. split; [exact Hr|].
    split; [exact Hlast|]. simpl in Hp9, Hp, Hs. rewrite Hposts in Hp9, Hp. rewrite Hsl in Hs.
    split; [|split].
    + rewrite Hp9. apply repeat_snoc_app.
    + rewrite Hp. apply (repeat_snoc_app _ (S n)).
    + rewrite Hs. simpl. now rewrite <- app_assoc.
Qed.

Lemma fixed_waits_inner evs l :
  forallb inner_event evs = true -> fixed_waits (evs ++ l) = fixed_waits l.
Proof.
  unfold fixed_waits. induction evs as [|e evs IH]; simpl; [reflexivity|].
  intros H. apply andb_prop in H as [He Hevs]. unfold inner_event in He.
  destruct (is_fixed_wait e); [discriminate|]. now apply IH.
Qed.

Lemma retry_from_fixed_waits {A : Type} (f : M A) s :
  emits_only inner_event f ->
  forall n k w, exists j,
    j <= n
    /\ fixed_waits (w_log (snd (retry_from (wait_fixed s) k n f w)))
       = List.rev (map (EvSleep (wait_fixed s)) (seq k j)) ++ fixed_waits (w_log w)
    /\ (forall e, fst (retry_from (wait_fixed s) k n f w) = Raise e ->
                  j = n /\ exists e0, e = RetryError e0).
Proof.
  intros Hf. induction n as [|n IH]; intros k w; simpl.
  - exists 0. destruct (Hf w) as (evs & Hlog & Hall).
    destruct (f w) as [[a|e] w1]; simpl in *; rewrite Hlog, fixed_waits_inner by assumption.
    + split; [lia|]. split; [reflexivity | discriminate].
    + split; [lia|]. split; [reflexivity|].
      intros e' He'. injection He' as <-. eauto.
  - destruct (Hf w) as (evs & Hlog & Hall).
    destruct (f w) as [[a|e] w1]; simpl in *.
    + exists 0. rewrite Hlog, fixed_waits_inner by assumption.
      split; [lia|]. split; [reflexivity | discriminate].
    + destruct (IH (S k) (log (EvSleep (wait_fixed s) k) w1)) as (j & Hj & Hw & Hraise).
      exists (S j). split; [lia|]. split.
      * rewrite Hw. simpl. rewrite Hlog, fixed_waits_inner by assumption.
        now rewrite <- app_assoc.
      * intros e' He'. destruct (Hraise e' He') as [-> Hex]. now split.
Qed.

(** C7.  When the HTTP call under it always fails, [openai_request] posts
    exactly ten times and then raises [RetryError] carrying the failure of the
    tenth attempt ([w9] is the world the tenth attempt starts from, nine posts
    in); so does [claude_request].  Around them, [model_call_wrapper] sleeps
    [j <= 9] times between its attempts, each time as [wait_fixed(20)] says,
    so it is attempted at most ten times; when it raises, all ten attempts were
    made and the exception is a [RetryError]. *)
Theorem retry_bounds :
  (always_fails "choices" ->
   forall url data w, exists e w9 w',
     openai_request url data w = (Raise (RetryError e), w')
     /\ request_once OPENAI_HEADER "choices" url data w9 = (Raise e, w')
     /\ posts (w_log w9) = repeat (EvPost url OPENAI_HEADER data) 9 ++ posts (w_log w)
     /\ posts (w_log w') = repeat (EvPost url OPENAI_HEADER data) 10 ++ posts (w_log w)
     /\ sleeps (w_log w')
        = List.rev (map (EvSleep (wait_random_exponential 1 60)) (seq 1 9))
          ++ sleeps (w_log w))
  /\ (always_fails "content" ->
      forall url data w, exists e w9 w',
        claude_request url data w = (Raise (RetryError e), w')
        /\ request_once ANTHROPIC_HEADER "content" url data w9 = (Raise e, w')
        /\ posts (w_log w9) = repeat (EvPost url ANTHROPIC_HEADER data) 9 ++ posts (w_log w)
        /\ posts (w_log w') = repeat (EvPost url ANTHROPIC_HEADER data) 10 ++ posts (w_log w)
        /\ sleeps (w_log w')
           = List.rev (map (EvSleep (wait_random_exponential 1 60)) (seq 1 9))
             ++ sleeps (w_log w))
  /\ (forall name url batch cfg par w, exists j,
        j <= 9
        /\ fixed_waits (w_log (snd (model_call_wrapper name url batch cfg par w)))
           = List.rev (map (EvSleep (wait_fixed 20)) (seq 1 j)) ++ fixed_waits (w_log w)
        /\ (forall e, fst (model_call_wrapper name url batch cfg par w) = Raise e ->
                      j = 9 /\ exists e0, e = RetryError e0)).
Proof.
  split; [|split].
  - intros Hfail url data w.
    apply (request_retry_exhausted OPENAI_HEADER "choices" url data _ Hfail 9 1 w).
  - intros Hfail url data w.
    apply (request_retry_exhausted ANTHROPIC_HEADER "content" url data _ Hfail 9 1 w).
  - intros name url batch cfg par w. unfold model_call_wrapper, retry.
    apply retry_from_fixed_waits, emits_only_model_call_wrapper_once.
Qed.

(** ** The reasoning-model step *)

Lemma set_heap_same w : set_heap (w_heap w) w = w.
Proof. now destruct w. Qed.

Lemma dict_get_set_eq {V : Type} k (v : V) d : dict_get k (dict_set k v d) = Some v.
Proof.
  induction d as [|[k' v'] d IH]; simpl.
  - now rewrite String.eqb_refl.
  - destruct (String.eqb k k') eqn:Hk; simpl; rewrite Hk; [reflexivity | exact IH].
Qed.

Lemma dict_get_set_ne {V : Type} k k0 (v : V) d :
  k0 <> k -> dict_get k0 (dict_set k v d) = dict_get k0 d.
Proof.
  intros Hne. induction d as [|[k' v'] d IH]; simpl.
  - destruct (String.eqb k0 k) eqn:H0; [apply String.eqb_eq in H0; congruence | reflexivity].
  - destruct (String.eqb k k') eqn:Hk; simpl.
    + apply String.eqb_eq in Hk. subst k'.
      destruct (String.eqb k0 k) eqn:H0; [apply String.eqb_eq in H0; congruence | reflexivity].
    + destruct (String.eqb k0 k'); [reflexivity | exact IH].
Qed.

Lemma rewrite_turn_idem t : rewrite_turn (rewrite_turn t) = rewrite_turn t.
Proof.
  assert (Hunfold : forall t', rewrite_turn t'
            = match dict_get "role" t' with
              | Some r => if String.eqb r "system" then dict_set "role" "user" t' else t'
              | None => t'
              end) by reflexivity.
  rewrite (Hunfold t). destruct (dict_get "role" t) as [r|] eqn:Hr.
  - destruct (String.eqb r "system") eqn:Hs.
    + rewrite Hunfold, dict_get_set_eq. reflexivity.
    + now rewrite Hunfold, Hr, Hs.
  - now rewrite Hunfold, Hr.
Qed.

Lemma rewrite_turn_has_role t : dict_has "role" (rewrite_turn t) = dict_has "role" t.
Proof.
  unfold rewrite_turn, dict_has. destruct (dict_get "role" t) as [r|] eqn:Hr.
  - destruct (String.eqb r "system"); [now rewrite dict_get_set_eq | now rewrite Hr].
  - now rewrite Hr.
Qed.

(** A rewritten turn never has the role [system]; its other keys are as
    they were. *)
Lemma rewrite_turn_role t :
  dict_get "role" (rewrite_turn t)
  = match dict_get "role" t with
    | Some r => Some (if String.eqb r "system" then "user" else r)
    | None => None
    end.
Proof.
  unfold rewrite_turn. destruct (dict_get "role" t) as [r|] eqn:Hr; [|exact Hr].
  destruct (String.eqb r "system"); [apply dict_get_set_eq | exact Hr].
Qed.

Lemma rewrite_turn_other t k : k <> "role" -> dict_get k (rewrite_turn t) = dict_get k t.
Proof.
  intros Hk. unfold rewrite_turn. destruct (dict_get "role" t) as [r|]; [|reflexivity].
  destruct (String.eqb r "system"); [now apply dict_get_set_ne | reflexivity].
Qed.

Lemma deref_has_role h l : dict_has "role" (deref h l) = true -> h !! l = Some (deref h l).
Proof. unfold deref. destruct (h !! l); [reflexivity | discriminate]. Qed.

Lemma system_to_user_spec l w :
  dict_has "role" (deref (w_heap w) l) = true ->
  system_to_user l w
  = (Ok tt, set_heap (<[l := rewrite_turn (deref (w_heap w) l)]> (w_heap w)) w).
Proof.
  intros Hrole. pose proof (deref_has_role _ _ Hrole) as Hl.
  unfold system_to_user, getitem, setitem, bind, read_turn, write_turn, rewrite_turn.
  unfold dict_has in Hrole.
  destruct (dict_get "role" (deref (w_heap w) l)) as [r|]; [|discriminate]. simpl.
  destruct (String.eqb r "system"); simpl; [reflexivity|].
  unfold ret. now rewrite list_insert_id, set_heap_same.
Qed.

Lemma deref_rewrite_locs ls h l :
  deref (rewrite_locs ls h) l
  = if existsb (Nat.eqb l) ls then rewrite_turn (deref h l) else deref h l.
Proof.
  unfold deref, rewrite_locs. rewrite list_lookup_imap.
  destruct (h !! l) as [t|]; simpl; [reflexivity|].
  now destruct (existsb (Nat.eqb l) ls).
Qed.

Lemma rewrite_locs_step l ls h :
  rewrite_locs ls (<[l := rewrite_turn (deref h l)]> h) = rewrite_locs (l :: ls) h.
Proof.
  apply list_eq. intros i. unfold rewrite_locs. rewrite !list_lookup_imap. simpl.
  destruct (Nat.eq_dec i l) as [->|Hne].
  - rewrite Nat.eqb_refl. simpl. unfold deref.
    destruct (h !! l) as [t|] eqn:Hl.
    + rewrite list_lookup_insert_eq by (now apply lookup_lt_Some in Hl). simpl.
      destruct (existsb (Nat.eqb l) ls); [now rewrite rewrite_turn_idem | reflexivity].
    + rewrite list_insert_ge by (now apply lookup_ge_None in Hl). now rewrite Hl.
  - rewrite list_lookup_insert_ne by congruence.
    apply Nat.eqb_neq in Hne. now rewrite Hne.
Qed.

Lemma rewrite_locs_nil h : rewrite_locs [] h = h.
Proof.
  apply list_eq. intros i. unfold rewrite_locs. rewrite list_lookup_imap.
  now destruct (h !! i).
Qed.

Lemma for_each_system_to_user ls :
  forall w,
    (forall l, In l ls -> dict_has "role" (deref (w_heap w) l) = true) ->
    for_each system_to_user ls w = (Ok tt, set_heap (rewrite_locs ls (w_heap w)) w).
Proof.
  induction ls as [|l ls IH]; intros w Hroles; simpl.
  - unfold ret. now rewrite rewrite_locs_nil, set_heap_same.
  - unfold bind. rewrite system_to_user_spec by (apply Hroles; now left).
    rewrite IH.
    + simpl. rewrite rewrite_locs_step. now destruct w.
    + intros l' Hl'. simpl.
      assert (Hd : deref (<[l := rewrite_turn (deref (w_heap w) l)]> (w_heap w)) l'
                   = if Nat.eqb l' l then rewrite_turn (deref (w_heap w) l')
                     else deref (w_heap w) l').
      { pose proof (rewrite_locs_step l [] (w_heap w)) as Hs.
        rewrite rewrite_locs_nil in Hs. rewrite Hs, deref_rewrite_locs. simpl.
        now rewrite orb_false_r. }
      rewrite Hd. destruct (Nat.eqb l' l); [rewrite rewrite_turn_has_role|];
        apply Hroles; now right.
Qed.

Lemma for_each_concat {A : Type} (f : A -> M unit) (ls : list (list A)) w :
  for_each (for_each f) ls w = for_each f (concat ls) w.
Proof.
  revert w. induction ls as [|l ls IH]; intros w; simpl; [reflexivity|].
  revert w. induction l as [|x l IHl]; intros w.
  - simpl. unfold bind, ret. apply IH.
  - cbn [for_each concat app]. unfold bind.
    destruct (f x w) as [[[]|e] w1]; [|reflexivity].
    specialize (IHl w1). cbn [for_each concat] in IHl. unfold bind in IHl. exact IHl.
Qed.

Lemma roles_present_concat batch h :
  roles_present batch h ->
  forall l, In l (concat batch) -> dict_has "role" (deref h l) = true.
Proof.
  intros H l Hl. apply in_concat in Hl as (p & Hp & Hlp). exact (H p l Hp Hlp).
Qed.

Lemma reasoning_rewrite_spec batch w :
  roles_present batch (w_heap w) ->
  reasoning_rewrite batch w = (Ok tt, set_heap (rewritten batch (w_heap w)) w).
Proof.
  intros H. unfold reasoning_rewrite, rewritten. rewrite for_each_concat.
  apply for_each_system_to_user, roles_present_concat, H.
Qed.

Lemma rewrite_locs_idem ls h : rewrite_locs ls (rewrite_locs ls h) = rewrite_locs ls h.
Proof.
  apply list_eq. intros i. unfold rewrite_locs. rewrite !list_lookup_imap.
  destruct (h !! i) as [t|]; simpl; [|reflexivity].
  destruct (existsb (Nat.eqb i) ls); [now rewrite rewrite_turn_idem | reflexivity].
Qed.

Lemma roles_present_rewritten batch h :
  roles_present batch h -> roles_present batch (rewritten batch h).
Proof.
  intros H p l Hp Hl. unfold rewritten. rewrite deref_rewrite_locs.
  destruct (existsb (Nat.eqb l) (concat batch)); [rewrite rewrite_turn_has_role|];
    exact (H p l Hp Hl).
Qed.

Lemma existsb_eqb_In l ls : existsb (Nat.eqb l) ls = true <-> In l ls.
Proof.
  rewrite existsb_exists. split.
  - intros (x & Hx & Heq). apply Nat.eqb_eq in Heq. now subst.
  - intros H. exists l. split; [exact H | apply Nat.eqb_refl].
Qed.

(** C9.  For a model name that starts with [o1] and prompts whose turns all
    have a role, the first step of [cached_generate] updates the caller's
    turns in place: after it ([w1]) every turn of every prompt of the batch
    that had the role [system] has the role [user], with its other keys as
    they were, and the turns outside the batch are untouched.  The rest of
    the call, and with it every dispatch, then runs from [w1] with the empty
    generation config, whatever config was passed. *)
Theorem reasoning_model_rewrites_in_place :
  forall (batch_prompts : list prompt) (model_name : string) (model_url : arg)
         (cache : cache_arg) (cache_file : string)
         (generation_config : list (string * pyval)) (parallel_model_calls : bool)
         (w : world),
    startswith "o1" model_name = true ->
    roles_present batch_prompts (w_heap w) ->
    let w1 := set_heap (rewritten batch_prompts (w_heap w)) w in
    reasoning_rewrite batch_prompts w = (Ok tt, w1)
    /\ (forall p l, In p batch_prompts -> In l p ->
          dict_get "role" (deref (w_heap w1) l)
          = match dict_get "role" (deref (w_heap w) l) with
            | Some r => Some (if String.eqb r "system" then "user" else r)
            | None => None
            end
          /\ forall k, k <> "role" ->
               dict_get k (deref (w_heap w1) l) = dict_get k (deref (w_heap w) l))
    /\ (forall l, (forall p, In p batch_prompts -> ~ In l p) ->
          deref (w_heap w1) l = deref (w_heap w) l)
    /\ cached_generate batch_prompts model_name model_url cache cache_file
         generation_config parallel_model_calls w
       = generate_with batch_prompts model_name model_url cache cache_file []
           parallel_model_calls w1.
Proof.
  intros batch name url cache file cfg par w Ho1 Hroles w1.
  split; [now apply reasoning_rewrite_spec|]. split; [|split].
  - intros p l Hp Hl. subst w1. simpl. unfold rewritten. rewrite deref_rewrite_locs.
    assert (Hin : existsb (Nat.eqb l) (concat batch) = true).
    { apply existsb_eqb_In, in_concat. eauto. }
    rewrite Hin. split; [apply rewrite_turn_role|]. intros k Hk.
    now apply rewrite_turn_other.
  - intros l Hout. subst w1. simpl. unfold rewritten. rewrite deref_rewrite_locs.
    destruct (existsb (Nat.eqb l) (concat batch)) eqn:Hin; [|reflexivity].
    apply existsb_eqb_In, in_concat in Hin as (p & Hp & Hl). now destruct (Hout p Hp).
  - unfold cached_generate. rewrite Ho1. unfold bind at 1. unfold bind at 1.
    rewrite reasoning_rewrite_spec by assumption. reflexivity.
Qed.

(** ** The cache: misses and dispatch *)

Lemma is_cache_miss_spec model p w :
  (dict_has model GPT_COSTS = true ->
   forall v, w_cache w !! key_of (w_heap w) p = Some v -> is_object v = true) ->
  is_cache_miss model p w = (Ok (miss model w p), w).
Proof.
  intros Hobj. unfold is_cache_miss, miss, prompt_key, bind, snapshot_now, cache_get, ret.
  simpl. fold (key_of (w_heap w) p).
  destruct (w_cache w !! key_of (w_heap w) p) as [v|] eqn:Hv; [|reflexivity].
  destruct (dict_has model GPT_COSTS) eqn:Hcost; [|reflexivity].
  specialize (Hobj eq_refl v eq_refl). destruct v; try discriminate. reflexivity.
Qed.

Lemma cache_misses_spec model batch w :
  (dict_has model GPT_COSTS = true -> cached_objects batch w) ->
  cache_misses model batch w = (Ok (List.filter (miss model w) batch), w).
Proof.
  induction batch as [|p batch IH]; intros Hobj; simpl; [reflexivity|].
  unfold bind. rewrite is_cache_miss_spec.
  - rewrite IH.
    + unfold ret. now destruct (miss model w p).
    + intros Hc q v Hq. apply (Hobj Hc q v). now right.
  - intros Hc v. apply (Hobj Hc p v). now left.
Qed.



(** *** A service that answers: one post for each prompt sent *)


Lemma retry_first_attempt {A : Type} wait k n (f : M A) w a w1 :
  f w = (Ok a, w1) -> retry_from wait k n f w = (Ok a, w1).
Proof. intros H. destruct n; simpl; now rewrite H. Qed.










(** *** What runs after the dispatch emits nothing *)


Lemma reads_only_cache_get k : reads_only (cache_get k).
Proof. now intros w. Qed.

Lemma reads_only_cache_getitem k : reads_only (cache_getitem k).
Proof.
  apply reads_only_bind; [apply reads_only_cache_get|].
  intros [v|]; [apply reads_only_ret | apply reads_only_raise].
Qed.

Lemma reads_only_extract_text model k : reads_only (extract_text model k).
Proof.
  apply reads_only_bind; [apply reads_only_cache_getitem|]. intros entry.
  destruct (dict_has model GPT_COSTS); [apply reads_only_lift|].
  destruct (in_claude_models model); [apply reads_only_lift | apply reads_only_ret].
Qed.

Lemma reads_only_add_costs k prices : forall cost, reads_only (add_costs k prices cost).
Proof.
  induction prices as [|[t price] prices IH]; intros cost; simpl.
  - apply reads_only_ret.
  - apply reads_only_bind; [apply reads_only_cache_getitem|]. intros entry.
    apply reads_only_bind; [apply reads_only_lift|]. intros n.
    apply reads_only_bind; [apply reads_only_lift|]. intros x. apply IH.
Qed.

Lemma reads_only_collect_outputs model batch :
  forall acc cost, reads_only (collect_outputs model batch acc cost).
Proof.
  induction batch as [|p batch IH]; intros acc cost; cbn [collect_outputs].
  - apply reads_only_ret.
  - apply reads_only_bind; [apply reads_only_prompt_key|]. intros k.
    apply reads_only_bind; [apply reads_only_extract_text|]. intros text.
    apply reads_only_bind; [|intros; apply IH].
    destruct (dict_get model GPT_COSTS); [apply reads_only_add_costs | apply reads_only_ret].
Qed.


Lemma store_only_reads_only {A : Type} (m : M A) : reads_only m -> store_only m.
Proof. intros H w. now rewrite (H w). Qed.

Lemma store_only_bind {A B : Type} (m : M A) (k : A -> M B) :
  store_only m -> (forall a, store_only (k a)) -> store_only (bind m k).
Proof.
  intros Hm Hk w. unfold bind. destruct (Hm w) as [Hh Hl].
  destruct (m w) as [[a|e] w1]; simpl in *; [|now split].
  destruct (Hk a w1) as [Hh' Hl']. split; congruence.
Qed.

Lemma store_only_for_each {A : Type} (f : A -> M unit) l :
  (forall x, store_only (f x)) -> store_only (for_each f l).
Proof.
  intros Hf. induction l as [|x l IH]; simpl.
  - apply store_only_reads_only, reads_only_ret.
  - apply store_only_bind; [apply Hf | intros _; exact IH].
Qed.

Lemma store_only_persist_response file pair : store_only (persist_response file pair).
Proof.
  apply store_only_bind; [apply store_only_reads_only, reads_only_prompt_key|]. intros k.
  apply store_only_bind; [now intros w|]. intros _.
  apply store_only_bind; [apply store_only_reads_only, reads_only_cache_getitem|].
  intros v. now intros w.
Qed.


Lemma store_only_after_dispatch batch new_batch model file responses :
  store_only (after_dispatch batch new_batch model file responses).
Proof.
  apply store_only_bind; [apply store_only_reads_only, reads_only_lift|]. intros rs.
  apply store_only_bind; [apply store_only_for_each, store_only_persist_response|].
  intros _. apply store_only_bind; [apply store_only_reads_only, reads_only_lift|].
  intros n. destruct (n =? length new_batch)%nat.
  - apply store_only_bind;
      [apply store_only_reads_only, reads_only_collect_outputs|].
    intros out. apply store_only_reads_only, reads_only_ret.
  - apply store_only_reads_only, reads_only_raise.
Qed.

Lemma generate_with_cached batch model url file cfg par w :
  generate_with batch model url CacheDict file cfg par w
  = (new_batch <- cache_misses model batch ;;
     responses <- model_call_wrapper (AStr model) url (ABatch new_batch) cfg par ;;
     after_dispatch batch new_batch model file responses)%py w.
Proof. reflexivity. Qed.


Lemma cached_generate_prepared batch model url cache file cfg par w :
  (startswith "o1" model = true -> roles_present batch (w_heap w)) ->
  cached_generate batch model url cache file cfg par w
  = generate_with batch model url cache file (effective_config model cfg) par
      (prepared model batch w).
Proof.
  intros Hroles. unfold cached_generate, effective_config, prepared.
  destruct (startswith "o1" model).
  - unfold bind at 1. unfold bind at 1.
    now rewrite reasoning_rewrite_spec by (now apply Hroles).
  - reflexivity.
Qed.



(** ** A warm cache *)

Lemma prepared_frame model batch w :
  w_log (prepared model batch w) = w_log w
  /\ w_cache (prepared model batch w) = w_cache w
  /\ w_files (prepared model batch w) = w_files w.
Proof. unfold prepared. now destruct (startswith "o1" model). Qed.

Lemma prepared_idem model batch w :
  prepared model batch (prepared model batch w) = prepared model batch w.
Proof.
  unfold prepared. destruct (startswith "o1" model); [|reflexivity].
  unfold rewritten. simpl. rewrite rewrite_locs_idem. now destruct w.
Qed.

Lemma roles_present_prepared model batch w :
  roles_present batch (w_heap w) -> roles_present batch (w_heap (prepared model batch w)).
Proof.
  intros H. unfold prepared. destruct (startswith "o1" model); [|exact H].
  now apply roles_present_rewritten.
Qed.

Lemma hit_is_object model w p v :
  dict_has model GPT_COSTS = true ->
  miss model w p = false ->
  w_cache w !! key_of (w_heap w) p = Some v ->
  is_object v = true.
Proof.
  intros Hc Hmiss Hv. unfold miss in Hmiss. rewrite Hv, Hc in Hmiss.
  now destruct v.
Qed.

Lemma filter_all_false {A : Type} (f : A -> bool) l :
  (forall x, In x l -> f x = false) -> List.filter f l = [].
Proof.
  induction l as [|x l IH]; intros H; simpl; [reflexivity|].
  rewrite (H x) by now left. apply IH. intros y Hy. apply H. now right.
Qed.

(** With every prompt a hit nothing is dispatched, stored or written: the
    call is the second pass over the cache. *)
Lemma generate_with_warm batch model url file cfg par w :
  (forall p, In p batch -> miss model w p = false) ->
  generate_with batch model url CacheDict file cfg par w
  = (match fst (collect_outputs model batch [] 0%float w) with
     | Ok out => Ok (Texts (fst out) (snd out))
     | Raise e => Raise e
     end, w).
Proof.
  intros Hwarm. unfold generate_with. unfold bind at 1.
  rewrite cache_misses_spec.
  - rewrite (filter_all_false _ _ Hwarm). unfold bind at 1.
    rewrite model_call_wrapper_nil.
    unfold after_dispatch, bind, lift, ret. simpl.
    rewrite (reads_only_eq _ w (reads_only_collect_outputs model batch [] 0%float)).
    simpl. now destruct (fst (collect_outputs model batch [] 0%float w)).
  - intros Hc p v Hp. apply (hit_is_object model w p v Hc). now apply Hwarm.
Qed.

(** C4.  With a cache that holds a complete entry for every prompt of the
    batch (no prompt is a miss), [cached_generate] ends in the world [w1] it
    prepared, where the log, the cache and the files are those it started
    from: no network call, no cache update, no write.  Called again from [w1]
    with the same batch and model it gives the same outcome (the same texts
    and the same cost) and leaves [w1] as it is. *)
Theorem warm_cache_idempotent :
  forall (batch_prompts : list prompt) (model_name : string) (model_url : arg)
         (cache_file : string) (generation_config : list (string * pyval))
         (parallel_model_calls : bool) (w : world),
    (startswith "o1" model_name = true -> roles_present batch_prompts (w_heap w)) ->
    (forall p, In p batch_prompts ->
       miss model_name (prepared model_name batch_prompts w) p = false) ->
    let w1 := prepared model_name batch_prompts w in
    exists outcome,
      cached_generate batch_prompts model_name model_url CacheDict cache_file
        generation_config parallel_model_calls w = (outcome, w1)
      /\ cached_generate batch_prompts model_name model_url CacheDict cache_file
           generation_config parallel_model_calls w1 = (outcome, w1)
      /\ w_log w1 = w_log w
      /\ w_cache w1 = w_cache w
      /\ w_files w1 = w_files w.
Proof.
  intros batch model url file cfg par w Hroles Hwarm w1.
  eexists. split; [|split; [|apply prepared_frame]].
  - rewrite cached_generate_prepared by assumption. fold w1.
    now rewrite generate_with_warm.
  - rewrite cached_generate_prepared.
    + subst w1. rewrite prepared_idem. now rewrite generate_with_warm.
    + intros Ho1. apply roles_present_prepared. now apply Hroles.
Qed.

(** ** The cost *)

Lemma bind_inv_Ok {A B : Type} (m : M A) (k : A -> M B) w b w' :
  bind m k w = (Ok b, w') -> exists a w1, m w = (Ok a, w1) /\ k a w1 = (Ok b, w').
Proof.
  unfold bind. destruct (m w) as [[a|e] w1]; [|discriminate]. intros H. now exists a, w1.
Qed.

Lemma py_mul_float_Ok n price x :
  py_mul_float n price = Ok x ->
  exists f, usage_float n = Some f /\ x = PrimFloat.mul f price.
Proof.
  destruct n; simpl; try discriminate.
  - intros [= <-]. eauto.
  - destruct (float_of_int z); [|discriminate]. intros [= <-]. eauto.
  - intros [= <-]. eauto.
Qed.

Lemma cache_getitem_Ok k w v w' :
  cache_getitem k w = (Ok v, w') -> w' = w /\ w_cache w !! k = Some v.
Proof.
  unfold cache_getitem, bind, cache_get, ret, raise.
  destruct (w_cache w !! k); [|discriminate]. intros [= <- <-]. now split.
Qed.

Lemma lift_Ok {A : Type} (r : pyres A) w a w' : lift r w = (Ok a, w') -> r = Ok a /\ w' = w.
Proof. unfold lift. intros [= -> <-]. now split. Qed.

Lemma add_costs_terms k prices :
  forall cost w cost' w',
    add_costs k prices cost w = (Ok cost', w') ->
    forall v, w_cache w !! k = Some v ->
    exists ts, entry_terms prices v = Some ts /\ cost' = fold_left PrimFloat.add ts cost.
Proof.
  induction prices as [|[t price] prices IH]; intros cost w cost' w' Hrun v Hv.
  - injection Hrun as <- <-. now exists [].
  - cbn [add_costs] in Hrun.
    apply bind_inv_Ok in Hrun as (entry & w1 & Hentry & Hrun).
    apply cache_getitem_Ok in Hentry as [-> Hentry].
    assert (entry = v) as -> by congruence.
    apply bind_inv_Ok in Hrun as (n & w2 & Hn & Hrun). apply lift_Ok in Hn as [Hn ->].
    apply bind_inv_Ok in Hrun as (x & w3 & Hx & Hrun). apply lift_Ok in Hx as [Hx ->].
    apply py_mul_float_Ok in Hx as (f & Hf & ->).
    destruct (IH _ _ _ _ Hrun v Hv) as (ts & Hts & ->).
    exists (PrimFloat.mul f price :: ts). cbn [entry_terms]. now rewrite Hn, Hf, Hts.
Qed.

Lemma extract_text_Ok model k w text w' :
  extract_text model k w = (Ok text, w') -> exists v, w_cache w !! k = Some v.
Proof.
  unfold extract_text. intros H. apply bind_inv_Ok in H as (entry & w1 & Hentry & _).
  apply cache_getitem_Ok in Hentry as [_ Hentry]. eauto.
Qed.


Lemma collect_outputs_cost model prices batch :
  dict_get model GPT_COSTS = Some prices ->
  forall acc cost w out w',
    collect_outputs model batch acc cost w = (Ok out, w') ->
    exists termss,
      batch_terms prices w batch termss
      /\ snd out = fold_left PrimFloat.add (concat termss) cost.
Proof.
  intros Hprices. induction batch as [|p batch IH]; intros acc cost w out w' Hrun.
  - injection Hrun as <- <-. exists []. split; [constructor | reflexivity].
  - cbn [collect_outputs] in Hrun. rewrite Hprices in Hrun.
    apply bind_inv_Ok in Hrun as (k & w1 & Hk & Hrun).
    pose proof (reads_only_prompt_key p w) as Hw1. rewrite Hk in Hw1. simpl in Hw1. subst w1.
    assert (k = key_of (w_heap w) p) as -> by (now injection Hk as <-).
    apply bind_inv_Ok in Hrun as (text & w2 & Htext & Hrun).
    pose proof (reads_only_extract_text model (key_of (w_heap w) p) w) as Hw2.
    rewrite Htext in Hw2. simpl in Hw2. subst w2.
    apply extract_text_Ok in Htext as (v & Hv).
    apply bind_inv_Ok in Hrun as (cost1 & w3 & Hcost & Hrun).
    pose proof (reads_only_add_costs (key_of (w_heap w) p) prices cost w) as Hw3.
    rewrite Hcost in Hw3. simpl in Hw3. subst w3.
    destruct (add_costs_terms _ _ _ _ _ _ Hcost v Hv) as (ts & Hts & ->).
    destruct (IH _ _ _ _ _ Hrun) as (termss & Hall & Hsum).
    exists (ts :: termss). split.
    + constructor; [now exists v | exact Hall].
    + rewrite Hsum. simpl. now rewrite fold_left_app.
Qed.

Lemma collect_outputs_free model batch :
  dict_get model GPT_COSTS = None ->
  forall acc cost w out w',
    collect_outputs model batch acc cost w = (Ok out, w') -> snd out = cost.
Proof.
  intros Hnone. induction batch as [|p batch IH]; intros acc cost w out w' Hrun.
  - now injection Hrun as <- <-.
  - cbn [collect_outputs] in Hrun. rewrite Hnone in Hrun.
    apply bind_inv_Ok in Hrun as (k & w1 & _ & Hrun).
    apply bind_inv_Ok in Hrun as (text & w2 & _ & Hrun).
    apply bind_inv_Ok in Hrun as (cost1 & w3 & Hcost & Hrun).
    injection Hcost as <- <-. exact (IH _ _ _ _ _ Hrun).
Qed.

(** A call that returns texts and a cost ends with the second pass, run in
    the world the call leaves. *)
Lemma cached_generate_second_pass batch model url file cfg par w texts cost w' :
  cached_generate batch model url CacheDict file cfg par w = (Ok (Texts texts cost), w') ->
  collect_outputs model batch [] 0%float w' = (Ok (texts, cost), w').
Proof.
  unfold cached_generate. intros H.
  apply bind_inv_Ok in H as (cfg' & w1 & _ & H). unfold generate_with in H.
  apply bind_inv_Ok in H as (new_batch & w2 & _ & H).
  apply bind_inv_Ok in H as (responses & w3 & _ & H). unfold after_dispatch in H.
  apply bind_inv_Ok in H as (rs & w4 & _ & H).
  apply bind_inv_Ok in H as ([] & w5 & _ & H).
  apply bind_inv_Ok in H as (n & w6 & Hn & H). apply lift_Ok in Hn as [_ ->].
  destruct (n =? length new_batch)%nat; [|discriminate].
  apply bind_inv_Ok in H as ([texts' cost'] & w7 & Hout & H).
  injection H as <- <- <-.
  pose proof (reads_only_collect_outputs model batch [] 0%float w5) as Hw.
  rewrite Hout in Hw. simpl in Hw. now subst w7.
Qed.

Lemma cost_table_prices model pp pc :
  dict_get model GPT_COSTS = Some [("prompt_tokens", pp); ("completion_tokens", pc)] ->
  (pp = PrimFloat.div 5 1000000 /\ pc = PrimFloat.div 15 1000000)
  \/ (pp = PrimFloat.div 15 1000000 /\ pc = PrimFloat.div 60 1000000).
Proof.
  unfold GPT_COSTS. cbn [dict_get].
  destruct (String.eqb model "gpt-4o"); [intros [= <- <-]; now left|].
  destruct (String.eqb model "o1-preview"); [intros [= <- <-]; now right|].
  destruct (String.eqb model "o1"); [intros [= <- <-]; now right | discriminate].
Qed.

(** C8.  When [cached_generate] returns texts and a cost for a cost-tracked
    model, the cost is the sum, accumulated from [0.0] in the order of the
    batch and of the price table, of [usage[token_type] * price[token_type]]
    over every prompt of the batch and every token type of the table, the
    usage being that of the prompt's entry in the cache the call leaves.  For
    a single prompt with 100 prompt tokens and 50 completion tokens it is
    [100 * price_prompt + 50 * price_completion] in double arithmetic.  For a
    model without a price table it is [0.0]. *)
Theorem cost_is_usage_times_price :
  forall (batch_prompts : list prompt) (model_name : string) (model_url : arg)
         (cache_file : string) (generation_config : list (string * pyval))
         (parallel_model_calls : bool) (w : world)
         (texts : list pyval) (cost : float) (w' : world),
    cached_generate batch_prompts model_name model_url CacheDict cache_file
      generation_config parallel_model_calls w = (Ok (Texts texts cost), w') ->
    (forall prices, dict_get model_name GPT_COSTS = Some prices ->
       exists termss,
         batch_terms prices w' batch_prompts termss
         /\ cost = float_sum (concat termss))
    /\ (forall p v usage price_prompt price_completion,
          batch_prompts = [p] ->
          dict_get model_name GPT_COSTS
          = Some [("prompt_tokens", price_prompt); ("completion_tokens", price_completion)] ->
          w_cache w' !! key_of (w_heap w') p = Some v ->
          py_getitem v "usage" = Ok usage ->
          py_getitem usage "prompt_tokens" = Ok (PInt 100) ->
          py_getitem usage "completion_tokens" = Ok (PInt 50) ->
          cost = PrimFloat.add (PrimFloat.mul 100 price_prompt)
                               (PrimFloat.mul 50 price_completion))
    /\ (dict_get model_name GPT_COSTS = None -> cost = 0%float).
Proof.
  intros batch model url file cfg par w texts cost w' Hrun.
  apply cached_generate_second_pass in Hrun.
  assert (Hsum : forall prices, dict_get model GPT_COSTS = Some prices ->
            exists termss, batch_terms prices w' batch termss
                           /\ cost = float_sum (concat termss)).
  { intros prices Hprices.
    destruct (collect_outputs_cost model prices batch Hprices _ _ _ _ _ Hrun)
      as (termss & Hall & Hcost).
    now exists termss. }
  split; [exact Hsum|]. split.
  - intros p v usage pp pc -> Hprices Hv Husage Hpt Hct.
    destruct (Hsum _ Hprices) as (termss & Hall & ->).
    inversion Hall as [|p' ts batch' termss' (v' & Hv' & Hts) Hrest]; subst.
    inversion Hrest; subst.
    assert (v' = v) as -> by congruence.
    cbn [entry_terms] in Hts. rewrite Husage in Hts. cbn [bind_res] in Hts.
    rewrite Hpt, Hct in Hts.
    assert (H100 : usage_float (PInt 100) = Some 100%float) by (vm_compute; reflexivity).
    assert (H50 : usage_float (PInt 50) = Some 50%float) by (vm_compute; reflexivity).
    rewrite H100, H50 in Hts. injection Hts as <-.
    unfold float_sum. cbn [concat app fold_left].
    destruct (cost_table_prices model pp pc Hprices) as [[-> ->]|[-> ->]];
      vm_compute; reflexivity.
  - intros Hnone. exact (collect_outputs_free model batch Hnone _ _ _ _ _ Hrun).
Qed.

(** ** The cache file *)

Lemma append_cons c (a b : string) : String c a +:+ b = String c (a +:+ b).
Proof. reflexivity. Qed.


Lemma append_assoc (a b c : string) : (a +:+ b) +:+ c = a +:+ (b +:+ c).
Proof.
  induction a as [|x a IH]; [reflexivity|]. rewrite !append_cons. now f_equal.
Qed.

Lemma split_lines_line l :
  no_line_break l = true ->
  forall cur rest,
    split_lines cur (l +:+ newline +:+ rest) = (cur +:+ l +:+ newline) :: split_lines "" rest.
Proof.
  unfold no_line_break. induction l as [|c l IH]; intros Hl cur rest.
  - reflexivity.
  - simpl in Hl. apply andb_prop in Hl as [Hc Hl].
    apply negb_true_iff, orb_false_elim in Hc as [Hlf Hcr].
    rewrite append_cons. cbn [split_lines]. rewrite Hlf, Hcr.
    rewrite (IH Hl). now rewrite append_assoc.
Qed.

Lemma file_lines_concat ls :
  Forall (fun l => no_line_break l = true) ls ->
  file_lines (concat_lines ls) = map (fun l => l +:+ newline) ls.
Proof.
  unfold file_lines. induction 1 as [|l ls Hl Hls IH]; [reflexivity|].
  cbn [concat_lines fold_right map]. rewrite split_lines_line by assumption.
  f_equal. exact IH.
Qed.

Lemma concat_lines_app a b : concat_lines (a ++ b) = concat_lines a +:+ concat_lines b.
Proof.
  induction a as [|l a IH]; [reflexivity|].
  cbn [concat_lines fold_right app]. fold (concat_lines (a ++ b)). fold (concat_lines a).
  now rewrite IH, !append_assoc.
Qed.

Lemma load_lines_app ls1 ls2 m :
  load_lines m (ls1 ++ ls2) = bind_res (load_lines m ls1) (fun m' => load_lines m' ls2).
Proof.
  revert m. induction ls1 as [|l ls1 IH]; intros m; simpl; [reflexivity|].
  destruct (load_line m l) as [m'|e]; simpl; [apply IH | reflexivity].
Qed.

Lemma load_line_record key completion m :
  record_readable key completion ->
  load_line m (record_text key completion +:+ newline) = Ok (<[key := completion]> m).
Proof.
  intros [_ Hloads]. unfold load_line. rewrite Hloads. reflexivity.
Qed.

Lemma load_cache_file_text file w :
  load_cache_file file w = (load_lines ∅ (file_lines (file_text (w_files w) file)), w).
Proof.
  unfold load_cache_file, file_text. now destruct (w_files w !! file).
Qed.

Lemma persist_response_run file pair w :
  persist_response file pair w
  = (Ok tt,
     World (w_heap w)
       (<[key_of (w_heap w) (fst pair) := snd pair]> (w_cache w))
       (<[file := file_text (w_files w) file
                  +:+ (record_text (key_of (w_heap w) (fst pair)) (snd pair) +:+ newline)]>
          (w_files w))
       (w_log w)).
Proof.
  unfold persist_response, cache_getitem, prompt_key.
  unfold bind, snapshot_now, ret, cache_set, cache_get, append_file, set_cache, set_files.
  simpl. fold (key_of (w_heap w) (fst pair)). rewrite lookup_insert_eq. reflexivity.
Qed.

Lemma persist_responses_run file pairs :
  forall w,
    exists fs,
      for_each (persist_response file) pairs w
      = (Ok tt, World (w_heap w) (replay (w_heap w) pairs (w_cache w)) fs (w_log w))
      /\ file_text fs file
         = file_text (w_files w) file
           +:+ concat_lines (map (fun pair => record_text (key_of (w_heap w) (fst pair))
                                                (snd pair)) pairs).
Proof.
  induction pairs as [|pair pairs IH]; intros w.
  - exists (w_files w). split; [now destruct w|]. cbn [map concat_lines fold_right].
    induction (file_text (w_files w) file) as [|c s IHs]; [reflexivity|].
    rewrite append_cons. now f_equal.
  - cbn [for_each]. unfold bind. rewrite persist_response_run.
    destruct (IH (World (w_heap w)
                    (<[key_of (w_heap w) (fst pair) := snd pair]> (w_cache w))
                    (<[file := file_text (w_files w) file
                               +:+ (record_text (key_of (w_heap w) (fst pair)) (snd pair)
                                    +:+ newline)]> (w_files w))
                    (w_log w))) as (fs & Hrun & Htext).
    exists fs. split; [exact Hrun|]. rewrite Htext. cbn [w_files w_heap].
    unfold file_text at 1. rewrite lookup_insert_eq. cbn [default from_option id].
    cbn [map concat_lines fold_right].
    now rewrite !append_assoc.
Qed.

Lemma load_record_lines h pairs :
  (forall pair, In pair pairs -> record_readable (key_of h (fst pair)) (snd pair)) ->
  forall m,
    load_lines m (map (fun l => l +:+ newline)
                    (map (fun pair => record_text (key_of h (fst pair)) (snd pair)) pairs))
    = Ok (replay h pairs m).
Proof.
  induction pairs as [|pair pairs IH]; intros Hok m; [reflexivity|].
  cbn [map load_lines]. rewrite load_line_record by (apply Hok; now left).
  cbn [bind_res]. apply IH. intros q Hq. apply Hok. now right.
Qed.

Lemma replay_last_wins h front p v back m :
  (forall q, In q back -> key_of h (fst q) <> key_of h p) ->
  replay h (front ++ (p, v) :: back) m !! key_of h p = Some v.
Proof.
  intros Hback. unfold replay. rewrite fold_left_app. cbn [fold_left fst snd].
  generalize (fold_left (fun m pair => <[key_of h (fst pair) := snd pair]> m) front m).
  intros m0.
  assert (Hgen : forall m1 : gmap string pyval, m1 !! key_of h p = Some v ->
            fold_left (fun m pair => <[key_of h (fst pair) := snd pair]> m) back m1
            !! key_of h p = Some v).
  { induction back as [|q back IH]; intros m1 Hm1; [exact Hm1|].
    cbn [fold_left]. apply IH.
    - intros q' Hq'. apply Hback. now right.
    - rewrite lookup_insert_ne; [exact Hm1|]. apply Hback. now left. }
  apply Hgen. apply lookup_insert_eq.
Qed.

Lemma after_dispatch_world batch new_batch model file rs w w1 :
  for_each (persist_response file) (combine new_batch rs) w = (Ok tt, w1) ->
  snd (after_dispatch batch new_batch model file (PList rs) w) = w1.
Proof.
  intros Hpersist. unfold after_dispatch.
  unfold bind at 1. unfold lift at 1. cbn [py_iter].
  unfold bind at 1. rewrite Hpersist.
  unfold bind at 1. unfold lift at 1. cbn [py_len].
  destruct (length rs =? length new_batch)%nat; [|reflexivity].
  unfold bind, ret.
  rewrite (reads_only_eq _ w1 (reads_only_collect_outputs model batch [] 0%float)).
  now destruct (fst (collect_outputs model batch [] 0%float w1)).
Qed.

(** C5.  Let the cache file be absent or hold lines written earlier
    ([lines0], which load as [m0]) when the dispatcher has returned the
    responses [rs] for the misses, and let [json.dumps] write each new record
    on one line that [json.loads] reads back ([record_readable]).  In the
    world [w'] that the rest of [cached_generate] leaves (it stores each pair
    of prompt and response and appends its record), [load_cache_file] returns
    [m0] updated with each serialized prompt mapped to its response, the
    entries the in-memory cache received; for a key written more than once the
    last record wins.  A file that does not exist loads as the empty mapping,
    and a line that [json.loads] rejects makes the load raise the decode
    error. *)
Theorem cache_file_round_trip :
  forall (batch_prompts new_batch_prompts : list prompt) (model_name cache_file : string)
         (rs : list pyval) (w : world) (lines0 : list string) (m0 : gmap string pyval),
    let pairs := combine new_batch_prompts rs in
    file_text (w_files w) cache_file = concat_lines lines0 ->
    Forall (fun l => no_line_break l = true) lines0 ->
    load_lines ∅ (map (fun l => l +:+ newline) lines0) = Ok m0 ->
    (forall pair, In pair pairs ->
       record_readable (key_of (w_heap w) (fst pair)) (snd pair)) ->
    let w' := snd (after_dispatch batch_prompts new_batch_prompts model_name cache_file
                     (PList rs) w) in
    for_each (persist_response cache_file) pairs w = (Ok tt, w')
    /\ load_cache_file cache_file w' = (Ok (replay (w_heap w) pairs m0), w')
    /\ w_cache w' = replay (w_heap w) pairs (w_cache w)
    /\ (forall front p v back,
          pairs = front ++ (p, v) :: back ->
          (forall q, In q back -> key_of (w_heap w) (fst q) <> key_of (w_heap w) p) ->
          replay (w_heap w) pairs m0 !! key_of (w_heap w) p = Some v)
    /\ (forall w0, w_files w0 !! cache_file = None ->
          load_cache_file cache_file w0 = (Ok ∅, w0))
    /\ (forall w0 content before bad after m,
          w_files w0 !! cache_file = Some content ->
          file_lines content = before ++ bad :: after ->
          load_lines ∅ before = Ok m ->
          json_loads bad = None ->
          load_cache_file cache_file w0 = (Raise JSONDecodeError, w0)).
Proof.
  intros batch new_batch model file rs w lines0 m0 pairs Htext Hlines Hload Hok w'.
  destruct (persist_responses_run file pairs w) as (fs & Hrun & Hfs).
  assert (Hw' : w' = World (w_heap w) (replay (w_heap w) pairs (w_cache w)) fs (w_log w))
    by (subst w'; now apply after_dispatch_world).
  rewrite Hw'. split; [exact Hrun|]. split; [|split; [reflexivity|split; [|split]]].
  - rewrite load_cache_file_text. cbn [w_files]. rewrite Hfs, Htext.
    rewrite <- concat_lines_app, file_lines_concat.
    + rewrite map_app, load_lines_app, Hload. cbn [bind_res].
      now rewrite load_record_lines.
    + apply Forall_app. split; [exact Hlines|].
      apply List.Forall_forall. intros l Hl. apply in_map_iff in Hl as (pair & <- & Hpair).
      exact (proj1 (Hok pair Hpair)).
  - intros front p v back Hpairs Hback. rewrite Hpairs. now apply replay_last_wins.
  - intros w0 Hnone. unfold load_cache_file. now rewrite Hnone.
  - intros w0 content before bad after m Hsome Hsplit Hbefore Hbad.
    unfold load_cache_file. rewrite Hsome, Hsplit, load_lines_app, Hbefore.
    cbn [bind_res load_lines]. unfold load_line. now rewrite Hbad.
Qed.

(** ** The Gemma preprocessing *)

(** *** The specification alternates *)

Lemma merge_from_head r c ts : exists c' rest, merge_from r c ts = (r, c') :: rest.
Proof.
  revert r c. induction ts as [|[r' c'] ts IH]; intros r c; cbn [merge_from].
  - eauto.
  - destruct (String.eqb r' r); [apply IH | eauto].
Qed.

Lemma merge_from_alternating r c ts : alternating (map fst (merge_from r c ts)).
Proof.
  revert r c. induction ts as [|[r' c'] ts IH]; intros r c; cbn [merge_from].
  - exact I.
  - destruct (String.eqb r' r) eqn:Hr; [apply IH|].
    destruct (merge_from_head r' c' ts) as (c'' & rest & Heq).
    specialize (IH r' c'). rewrite Heq in *. cbn [map fst alternating] in *.
    split; [|exact IH]. apply String.eqb_neq in Hr. congruence.
Qed.

Lemma merge_from_roles (P : string -> Prop) r c ts :
  P r -> Forall (fun t => P (fst t)) ts ->
  Forall P (map fst (merge_from r c ts)).
Proof.
  revert r c. induction ts as [|[r' c'] ts IH]; intros r c Hr Hts; cbn [merge_from].
  - repeat constructor. exact Hr.
  - inversion Hts as [|? ? Hr' Hts']; subst. cbn [fst] in Hr'.
    destruct (String.eqb r' r); [now apply IH|].
    cbn [map fst]. constructor; [exact Hr | now apply IH].
Qed.

Lemma norm_turn_role t : chat_role (fst t) -> turn_role (fst (norm_turn t)).
Proof.
  destruct t as [r c]. cbn [fst norm_turn]. intros [-> | [-> | ->]]; cbn; [now left | now left | now right].
Qed.

Lemma merge_turns_roles ts :
  Forall (fun t => chat_role (fst t)) ts ->
  Forall turn_role (map fst (merge_turns (map norm_turn ts))).
Proof.
  intros Hts. destruct ts as [|t ts]; [constructor|].
  inversion Hts as [|? ? Ht Hts']; subst.
  cbn [map merge_turns]. destruct (norm_turn t) as [r c] eqn:Hn.
  apply merge_from_roles.
  - pose proof (norm_turn_role t Ht) as H. now rewrite Hn in H.
  - apply Forall_map. eapply Forall_impl; [exact Hts'|]. intros t'. apply norm_turn_role.
Qed.

Lemma merge_turns_alternating ts : alternating (map fst (merge_turns ts)).
Proof. destruct ts as [|[r c] ts]; [exact I | apply merge_from_alternating]. Qed.

(** What [gemma_spec] guarantees of the roles of its result. *)
Lemma gemma_spec_properties ts :
  Forall (fun t => chat_role (fst t)) ts ->
  (ts <> [] -> exists c rest, gemma_spec ts = ("user", c) :: rest)
  /\ alternating (map fst (gemma_spec ts))
  /\ Forall turn_role (map fst (gemma_spec ts)).
Proof.
  intros Hts. unfold gemma_spec.
  pose proof (merge_turns_roles ts Hts) as Hroles.
  pose proof (merge_turns_alternating (map norm_turn ts)) as Halt.
  assert (Hne : ts <> [] -> merge_turns (map norm_turn ts) <> []).
  { destruct ts as [|t ts]; [congruence|]. intros _. cbn [map merge_turns].
    destruct (norm_turn t) as [r c].
    destruct (merge_from_head r c (map norm_turn ts)) as (c' & rest & ->). discriminate. }
  destruct (merge_turns (map norm_turn ts)) as [|[r c] rest].
  - split; [intros H; now destruct (Hne H)|]. split; [exact I | constructor].
  - cbn [with_leading_user]. destruct (String.eqb r "user") eqn:Hr.
    + apply String.eqb_eq in Hr. subst r. split; [eauto|]. split; assumption.
    + split; [eauto|]. split.
      * cbn [map fst alternating]. split; [|exact Halt].
        apply String.eqb_neq in Hr. congruence.
      * cbn [map fst]. constructor; [now left | exact Hroles].
Qed.

(** *** Reads and writes of the heap *)

Lemma deref_app_old (h : list (list (string * string))) t l :
  l < length h -> deref (h ++ [t]) l = deref h l.
Proof. intros Hl. unfold deref. now rewrite lookup_app_l. Qed.

Lemma deref_app_new (h : list (list (string * string))) t : deref (h ++ [t]) (length h) = t.
Proof. unfold deref. now rewrite list_lookup_middle. Qed.

Lemma deref_insert_eq (h : list (list (string * string))) l t :
  l < length h -> deref (<[l := t]> h) l = t.
Proof. intros Hl. unfold deref. now rewrite list_lookup_insert_eq. Qed.

Lemma deref_insert_ne (h : list (list (string * string))) l l' t :
  l <> l' -> deref (<[l := t]> h) l' = deref h l'.
Proof. intros Hl. unfold deref. now rewrite list_lookup_insert_ne. Qed.

Lemma getitem_Some k l w v :
  dict_get k (deref (w_heap w) l) = Some v -> getitem k l w = (Ok v, w).
Proof. intros H. unfold getitem, bind, read_turn. now rewrite H. Qed.

Lemma setitem_run k v l w :
  setitem k v l w
  = (Ok tt, set_heap (<[l := dict_set k v (deref (w_heap w) l)]> (w_heap w)) w).
Proof. reflexivity. Qed.

Lemma view_app_old (h : list (list (string * string))) t l :
  l < length h -> view (h ++ [t]) l = view h l.
Proof. intros Hl. unfold view. now rewrite deref_app_old. Qed.

Lemma view_insert_ne (h : list (list (string * string))) l l' t :
  l <> l' -> view (<[l := t]> h) l' = view h l'.
Proof. intros Hl. unfold view. now rewrite deref_insert_ne. Qed.




Lemma turn_at_view h l t : turn_at h l t -> view h l = t.
Proof. intros [Hr Hc]. unfold view. rewrite Hr, Hc. now destruct t. Qed.

Lemma turn_at_app_old (h : list (list (string * string))) x l t :
  l < length h -> turn_at h l t -> turn_at (h ++ [x]) l t.
Proof. intros Hl H. unfold turn_at. now rewrite deref_app_old. Qed.

Lemma turn_at_insert_ne (h : list (list (string * string))) l l' x t :
  l <> l' -> turn_at h l' t -> turn_at (<[l := x]> h) l' t.
Proof. intros Hl H. unfold turn_at. now rewrite deref_insert_ne. Qed.

Lemma turn_at_set_content (h : list (list (string * string))) l r c c' :
  l < length h -> turn_at h l (r, c) ->
  turn_at (<[l := dict_set "content" c' (deref h l)]> h) l (r, c').
Proof.
  intros Hl [Hr _]. unfold turn_at. rewrite deref_insert_eq by assumption.
  rewrite dict_get_set_eq, dict_get_set_ne by discriminate. now split.
Qed.

Lemma turns_at_app_old (h : list (list (string * string))) x ls ts :
  Forall (fun l => l < length h) ls ->
  Forall2 (turn_at h) ls ts -> Forall2 (turn_at (h ++ [x])) ls ts.
Proof.
  intros Hlt H. induction H as [|l t ls ts Ht Hrest IH]; [constructor|].
  inversion Hlt; subst. constructor; [now apply turn_at_app_old | now apply IH].
Qed.

Lemma turns_at_insert_ne (h : list (list (string * string))) l x ls ts :
  ~ In l ls -> Forall2 (turn_at h) ls ts -> Forall2 (turn_at (<[l := x]> h)) ls ts.
Proof.
  intros Hnot H. induction H as [|l' t ls ts Ht Hrest IH]; [constructor|].
  constructor.
  - apply turn_at_insert_ne; [|exact Ht]. intros ->. apply Hnot. now left.
  - apply IH. intros Hin. apply Hnot. now right.
Qed.

(** *** One round of the first loop *)

Lemma merge_step_append processed last_role m w r :
  dict_get "role" (deref (w_heap w) m) = Some r ->
  String.eqb r "system" = false ->
  match last_role with Some r' => String.eqb r r' | None => false end = false ->
  gemma_merge_step (processed, last_role) m w = (Ok (processed ++ [m], Some r), w).
Proof.
  intros Hr Hsys Hlast. unfold gemma_merge_step.
  unfold bind at 1. rewrite (getitem_Some _ _ _ _ Hr). rewrite Hsys.
  unfold bind at 1. unfold ret at 1. cbv beta iota. now rewrite Hlast.
Qed.

Lemma merge_step_join processed prev m w r old more :
  dict_get "role" (deref (w_heap w) m) = Some r ->
  String.eqb r "system" = false ->
  last processed = Some prev ->
  dict_get "content" (deref (w_heap w) prev) = Some old ->
  dict_get "content" (deref (w_heap w) m) = Some more ->
  gemma_merge_step (processed, Some r) m w
  = (Ok (processed, Some r),
     set_heap (<[prev := dict_set "content" (old +:+ (blank_line +:+ more))
                           (deref (w_heap w) prev)]> (w_heap w)) w).
Proof.
  intros Hr Hsys Hprev Hold Hmore. unfold gemma_merge_step.
  unfold bind at 1. rewrite (getitem_Some _ _ _ _ Hr). rewrite Hsys.
  unfold bind at 1. unfold ret at 1. cbv beta iota. rewrite String.eqb_refl, Hprev.
  unfold bind at 1. rewrite (getitem_Some _ _ _ _ Hold).
  unfold bind at 1. rewrite (getitem_Some _ _ _ _ Hmore).
  unfold bind. rewrite setitem_run. reflexivity.
Qed.

Lemma merge_step_system_append processed last_role m w content :
  dict_get "role" (deref (w_heap w) m) = Some "system" ->
  dict_get "content" (deref (w_heap w) m) = Some content ->
  match last_role with Some r' => String.eqb "user" r' | None => false end = false ->
  gemma_merge_step (processed, last_role) m w
  = (Ok (processed ++ [length (w_heap w)], Some "user"),
     set_heap (w_heap w ++ [system_as_user content]) w).
Proof.
  intros Hr Hc Hlast. unfold gemma_merge_step.
  unfold bind at 1. rewrite (getitem_Some _ _ _ _ Hr). cbn [String.eqb Ascii.eqb Bool.eqb].
  unfold bind at 1. unfold bind at 1. rewrite (getitem_Some _ _ _ _ Hc).
  unfold bind at 1. unfold new_turn at 1. unfold ret at 1. cbv beta iota.
  now rewrite Hlast.
Qed.

Lemma merge_step_system_join processed prev m w content old :
  dict_get "role" (deref (w_heap w) m) = Some "system" ->
  dict_get "content" (deref (w_heap w) m) = Some content ->
  last processed = Some prev ->
  prev < length (w_heap w) ->
  dict_get "content" (deref (w_heap w) prev) = Some old ->
  gemma_merge_step (processed, Some "user") m w
  = (Ok (processed, Some "user"),
     set_heap (<[prev := dict_set "content" (old +:+ (blank_line +:+ content))
                           (deref (w_heap w) prev)]>
                 (w_heap w ++ [system_as_user content])) w).
Proof.
  intros Hr Hc Hprev Hlt Hold. unfold gemma_merge_step.
  unfold bind at 1. rewrite (getitem_Some _ _ _ _ Hr). cbn [String.eqb Ascii.eqb Bool.eqb].
  unfold bind at 1. unfold bind at 1. rewrite (getitem_Some _ _ _ _ Hc).
  unfold bind at 1. unfold new_turn at 1. unfold ret at 1. cbv beta iota.
  cbn [String.eqb Ascii.eqb Bool.eqb]. rewrite Hprev.
  unfold bind at 1. rewrite (getitem_Some "content" prev _ old)
    by (cbn [w_heap set_heap]; now rewrite deref_app_old).
  unfold bind at 1. rewrite (getitem_Some "content" (length (w_heap w)) _ content)
    by (cbn [w_heap set_heap]; now rewrite deref_app_new).
  unfold bind. rewrite setitem_run. cbn [w_heap set_heap].
  rewrite deref_app_old by assumption. now destruct w.
Qed.

(** *** The state between two rounds *)

Lemma merge_state_tail h0 m suf h done prev :
  merge_state h0 (m :: suf) h done prev -> merge_state h0 suf h done prev.
Proof.
  intros [Hg Hs Hp Hps Hd Hds Hpd]. constructor; try assumption.
  - intros l Hl. apply Hs. now right.
  - intros Hin. apply Hps. now right.
  - intros l Hl Hin. apply (Hds l Hl). now right.
Qed.

Lemma merge_state_alloc h0 suf (h : list (list (string * string))) done prev x :
  merge_state h0 suf h done prev -> merge_state h0 suf (h ++ [x]) done prev.
Proof.
  intros [Hg Hs Hp Hps Hd Hds Hpd]. constructor; try assumption.
  - rewrite length_app. simpl. lia.
  - intros l Hl. destruct (Hs l Hl) as [Hlt Heq]. split; [exact Hlt|].
    rewrite deref_app_old by lia. exact Heq.
  - rewrite length_app. simpl. lia.
  - eapply Forall_impl; [exact Hd|]. intros l Hl. rewrite length_app. simpl in *. lia.
Qed.

Lemma merge_state_join h0 suf (h : list (list (string * string))) done prev x :
  merge_state h0 suf h done prev -> merge_state h0 suf (<[prev := x]> h) done prev.
Proof.
  intros [Hg Hs Hp Hps Hd Hds Hpd]. constructor; try assumption.
  - now rewrite length_insert.
  - intros l Hl. destruct (Hs l Hl) as [Hlt Heq]. split; [exact Hlt|].
    rewrite deref_insert_ne; [exact Heq|]. intros ->. now apply Hps.
  - now rewrite length_insert.
  - eapply Forall_impl; [exact Hd|]. intros l Hl. now rewrite length_insert.
Qed.

Lemma merge_state_next h0 m suf h done prev :
  merge_state h0 (m :: suf) h done prev -> ~ In m suf ->
  merge_state h0 suf h (done ++ [prev]) m.
Proof.
  intros [Hg Hs Hp Hps Hd Hds Hpd] Hm. constructor; try assumption.
  - intros l Hl. apply Hs. now right.
  - destruct (Hs m) as [Hlt _]; [now left | lia].
  - apply Forall_app. split; [exact Hd | now repeat constructor].
  - intros l Hl Hin. apply in_app_iff in Hl as [Hl|[<-|[]]].
    + apply (Hds l Hl). now right.
    + apply Hps. now right.
  - intros Hin. apply in_app_iff in Hin as [Hin|[<-|[]]].
    + apply (Hds m Hin). now left.
    + apply Hps. now left.
Qed.

Lemma merge_state_next_fresh h0 suf (h : list (list (string * string))) done prev x :
  merge_state h0 suf h done prev ->
  merge_state h0 suf (h ++ [x]) (done ++ [prev]) (length h).
Proof.
  intros [Hg Hs Hp Hps Hd Hds Hpd]. constructor.
  - rewrite length_app. simpl. lia.
  - intros l Hl. destruct (Hs l Hl) as [Hlt Heq]. split; [exact Hlt|].
    rewrite deref_app_old by lia. exact Heq.
  - rewrite length_app. simpl. lia.
  - intros Hin. destruct (Hs _ Hin) as [Hlt _]. lia.
  - apply Forall_app. split.
    + eapply Forall_impl; [exact Hd|]. intros l Hl. rewrite length_app. simpl in *. lia.
    + repeat constructor. rewrite length_app. simpl. lia.
  - intros l Hl Hin. apply in_app_iff in Hl as [Hl|[<-|[]]].
    + exact (Hds l Hl Hin).
    + exact (Hps Hin).
  - intros Hin. apply in_app_iff in Hin as [Hin|[Heq|[]]].
    + rewrite List.Forall_forall in Hd. specialize (Hd _ Hin). lia.
    + lia.
Qed.

(** *** The first loop *)

Lemma gemma_merge_open h0 suf :
  NoDup suf ->
  (forall l, In l suf -> well_formed_turn h0 l) ->
  forall w done prev r c D,
    merge_state h0 suf (w_heap w) done prev ->
    Forall2 (turn_at (w_heap w)) done D ->
    turn_at (w_heap w) prev (r, c) ->
    exists out w',
      gemma_merge (done ++ [prev], Some r) suf w = (Ok out, w')
      /\ Forall2 (turn_at (w_heap w')) out
           (D ++ merge_from r c (map (fun l => norm_turn (view h0 l)) suf))
      /\ Forall (fun l => l < length (w_heap w')) out
      /\ length (w_heap w) <= length (w_heap w').
Proof.
  induction suf as [|m suf IH]; intros Hnd Hwf w done prev r c D Hst Hdone Hprev.
  - exists (done ++ [prev]), w. split; [reflexivity|]. split; [|split; [|lia]].
    + apply Forall2_app; [exact Hdone|]. cbn [merge_from map].
      constructor; [exact Hprev | constructor].
    + apply Forall_app. split; [apply (ms_done_lt _ _ _ _ _ Hst)|].
      constructor; [apply (ms_prev_lt _ _ _ _ _ Hst) | constructor].
  - apply NoDup_cons in Hnd as [Hm Hnd].
    assert (Hm' : ~ In m suf) by (now rewrite <- list_elem_of_In).
    assert (Hwf' : forall l, In l suf -> well_formed_turn h0 l)
      by (intros l Hl; apply Hwf; now right).
    destruct (Hwf m) as (rm & cm & Hrm & Hcm & Hrole); [now left|].
    destruct (ms_suf_old _ _ _ _ _ Hst m) as [Hlt Hsame]; [now left|].
    pose proof (ms_prev_lt _ _ _ _ _ Hst) as Hplt.
    pose proof (ms_grow _ _ _ _ _ Hst) as Hgrow.
    assert (Hview : view h0 m = (rm, cm)) by (unfold view; now rewrite Hrm, Hcm).
    rewrite <- Hsame in Hrm, Hcm.
    destruct Hprev as [Hpr Hpc]. cbn [fst snd] in Hpr, Hpc.
    assert (Hlast : last (done ++ [prev]) = Some prev) by apply last_snoc.
    cbn [gemma_merge map]. rewrite Hview. unfold norm_turn. cbn [fst snd merge_from].
    destruct (String.eqb rm "system") eqn:Hsys.
    + apply String.eqb_eq in Hsys. subst rm.
      destruct (String.eqb "user" r) eqn:Hur.
      * apply String.eqb_eq in Hur. subst r.
        rewrite (bind_Ok _ _ _ _ _
                   (merge_step_system_join _ prev m w cm c Hrm Hcm Hlast Hplt Hpc)).
        set (h1 := w_heap w ++ [system_as_user cm]).
        set (x := dict_set "content" (c +:+ (blank_line +:+ cm)) (deref (w_heap w) prev)).
        destruct (IH Hnd Hwf' (set_heap (<[prev := x]> h1) w) done prev "user"
                    (c +:+ (blank_line +:+ cm)) D) as (out & w' & Hrun & Hout & Hlt' & Hlen).
        { cbn [w_heap set_heap]. apply merge_state_join, merge_state_alloc.
          now apply merge_state_tail in Hst. }
        { cbn [w_heap set_heap]. apply turns_at_insert_ne; [apply (ms_prev_done _ _ _ _ _ Hst)|].
          apply turns_at_app_old; [apply (ms_done_lt _ _ _ _ _ Hst) | exact Hdone]. }
        { cbn [w_heap set_heap]. subst x h1.
          rewrite <- (deref_app_old (w_heap w) (system_as_user cm) prev) by assumption.
          apply (turn_at_set_content _ prev "user" c).
          - rewrite length_app. simpl. lia.
          - apply turn_at_app_old; [assumption | now split]. }
        exists out, w'. split; [exact Hrun|]. split; [exact Hout|]. split; [exact Hlt'|].
        cbn [w_heap set_heap] in Hlen. subst h1.
        rewrite length_insert, length_app in Hlen. simpl in Hlen. lia.
      * rewrite (bind_Ok _ _ _ _ _
                   (merge_step_system_append _ (Some r) m w cm Hrm Hcm Hur)).
        destruct (IH Hnd Hwf' (set_heap (w_heap w ++ [system_as_user cm]) w)
                    (done ++ [prev]) (length (w_heap w)) "user" cm (D ++ [(r, c)]))
          as (out & w' & Hrun & Hout & Hlt' & Hlen).
        { cbn [w_heap set_heap]. apply merge_state_next_fresh.
          now apply merge_state_tail in Hst. }
        { cbn [w_heap set_heap]. apply turns_at_app_old.
          - apply Forall_app. split; [apply (ms_done_lt _ _ _ _ _ Hst)|].
            constructor; [exact Hplt | constructor].
          - apply Forall2_app; [exact Hdone|].
            constructor; [now split | constructor]. }
        { cbn [w_heap set_heap]. unfold turn_at. now rewrite deref_app_new. }
        exists out, w'. split; [exact Hrun|]. rewrite <- app_assoc in Hout.
        split; [exact Hout|]. split; [exact Hlt'|].
        cbn [w_heap set_heap] in Hlen. rewrite length_app in Hlen. simpl in Hlen. lia.
    + destruct (String.eqb rm r) eqn:Hrr.
      * apply String.eqb_eq in Hrr. subst rm.
        rewrite (bind_Ok _ _ _ _ _
                   (merge_step_join _ prev m w r c cm Hrm Hsys Hlast Hpc Hcm)).
        set (x := dict_set "content" (c +:+ (blank_line +:+ cm)) (deref (w_heap w) prev)).
        destruct (IH Hnd Hwf' (set_heap (<[prev := x]> (w_heap w)) w) done prev r
                    (c +:+ (blank_line +:+ cm)) D) as (out & w' & Hrun & Hout & Hlt' & Hlen).
        { cbn [w_heap set_heap]. apply merge_state_join.
          now apply merge_state_tail in Hst. }
        { cbn [w_heap set_heap]. apply turns_at_insert_ne;
            [apply (ms_prev_done _ _ _ _ _ Hst) | exact Hdone]. }
        { cbn [w_heap set_heap]. subst x.
          apply (turn_at_set_content _ prev r c); [assumption | now split]. }
        exists out, w'. split; [exact Hrun|]. split; [exact Hout|]. split; [exact Hlt'|].
        cbn [w_heap set_heap] in Hlen. now rewrite length_insert in Hlen.
      * rewrite (bind_Ok _ _ _ _ _
                   (merge_step_append _ (Some r) m w rm Hrm Hsys Hrr)).
        destruct (IH Hnd Hwf' w (done ++ [prev]) m rm cm (D ++ [(r, c)]))
          as (out & w' & Hrun & Hout & Hlt' & Hlen).
        { now apply merge_state_next. }
        { apply Forall2_app; [exact Hdone|].
          constructor; [now split | constructor]. }
        { now split. }
        exists out, w'. split; [exact Hrun|]. rewrite <- app_assoc in Hout.
        now split.
Qed.

Lemma well_formed_turn_lt (h : list (list (string * string))) l :
  well_formed_turn h l -> l < length h.
Proof.
  intros (r & c & Hr & _ & _). unfold deref in Hr.
  destruct (h !! l) eqn:Hl; [now apply lookup_lt_Some in Hl | discriminate].
Qed.

Lemma gemma_merge_spec ms w :
  NoDup ms ->
  (forall l, In l ms -> well_formed_turn (w_heap w) l) ->
  exists out w',
    gemma_merge ([], None) ms w = (Ok out, w')
    /\ Forall2 (turn_at (w_heap w')) out
         (merge_turns (map (fun l => norm_turn (view (w_heap w) l)) ms))
    /\ Forall (fun l => l < length (w_heap w')) out.
Proof.
  intros Hnd Hwf. destruct ms as [|m suf].
  - exists [], w. split; [reflexivity|]. split; constructor.
  - apply NoDup_cons in Hnd as [Hm Hnd].
    assert (Hm' : ~ In m suf) by (now rewrite <- list_elem_of_In).
    assert (Hwf' : forall l, In l suf -> well_formed_turn (w_heap w) l)
      by (intros l Hl; apply Hwf; now right).
    destruct (Hwf m) as (rm & cm & Hrm & Hcm & Hrole); [now left|].
    assert (Hlt : m < length (w_heap w)) by (apply well_formed_turn_lt, Hwf; now left).
    assert (Hview : view (w_heap w) m = (rm, cm)) by (unfold view; now rewrite Hrm, Hcm).
    cbn [gemma_merge map merge_turns]. rewrite Hview. unfold norm_turn. cbn [fst snd].
    destruct (String.eqb rm "system") eqn:Hsys.
    + apply String.eqb_eq in Hsys. subst rm.
      rewrite (bind_Ok _ _ _ _ _ (merge_step_system_append [] None m w cm Hrm Hcm eq_refl)).
      destruct (gemma_merge_open (w_heap w) suf Hnd Hwf'
                  (set_heap (w_heap w ++ [system_as_user cm]) w) [] (length (w_heap w))
                  "user" cm []) as (out & w' & Hrun & Hout & Hlt' & _).
      * cbn [w_heap set_heap]. constructor.
        -- rewrite length_app. simpl. lia.
        -- intros l Hl. split; [apply well_formed_turn_lt; now apply Hwf'|].
           apply deref_app_old, well_formed_turn_lt. now apply Hwf'.
        -- rewrite length_app. simpl. lia.
        -- intros Hin. apply Hwf', well_formed_turn_lt in Hin. lia.
        -- constructor.
        -- intros l [].
        -- intros [].
      * constructor.
      * cbn [w_heap set_heap]. unfold turn_at. now rewrite deref_app_new.
      * exists out, w'. now split.
    + rewrite (bind_Ok _ _ _ _ _ (merge_step_append [] None m w rm Hrm Hsys eq_refl)).
      destruct (gemma_merge_open (w_heap w) suf Hnd Hwf' w [] m rm cm [])
        as (out & w' & Hrun & Hout & Hlt' & _).
      * constructor; try assumption; try lia.
        -- intros l Hl. split; [apply well_formed_turn_lt; now apply Hwf' | reflexivity].
        -- constructor.
        -- intros l [].
        -- intros [].
      * constructor.
      * now split.
      * exists out, w'. now split.
Qed.

(** *** The second loop *)

Lemma alternate_step_keep i final prev m w r r' :
  0 < i ->
  dict_get "role" (deref (w_heap w) m) = Some r ->
  last final = Some prev ->
  dict_get "role" (deref (w_heap w) prev) = Some r' ->
  r <> r' ->
  gemma_alternate_step i final m w = (Ok (final ++ [m]), w).
Proof.
  intros Hi Hr Hlast Hr' Hne. unfold gemma_alternate_step.
  unfold bind at 1. rewrite (getitem_Some _ _ _ _ Hr).
  destruct i as [|i]; [lia|]. cbn [Nat.eqb andb Nat.ltb Nat.leb].
  unfold bind at 1. unfold ret at 1. cbv beta iota. rewrite Hlast.
  unfold bind at 1. unfold bind at 1. rewrite (getitem_Some _ _ _ _ Hr').
  apply String.eqb_neq in Hne. rewrite Hne. reflexivity.
Qed.

Lemma gemma_alternate_rest rest :
  forall i final prev r' w rs,
    0 < i ->
    last final = Some prev ->
    role_at (w_heap w) prev r' ->
    Forall2 (role_at (w_heap w)) rest rs ->
    alternating (r' :: rs) ->
    gemma_alternate i final rest w = (Ok (final ++ rest), w).
Proof.
  induction rest as [|m rest IH]; intros i final prev r' w rs Hi Hlast Hr' Hrs Halt.
  - cbn [gemma_alternate]. now rewrite app_nil_r.
  - inversion Hrs as [|? r ? rs' Hmr Hrest]; subst.
    cbn [alternating] in Halt. destruct Halt as [Hne Halt].
    cbn [gemma_alternate].
    rewrite (bind_Ok _ _ _ _ _
               (alternate_step_keep i final prev m w r r' Hi Hmr Hlast Hr'
                  (not_eq_sym Hne))).
    rewrite (IH (S i) (final ++ [m]) m r w rs'); try assumption; try lia.
    + now rewrite <- app_assoc.
    + apply last_snoc.
Qed.

Lemma alternate_step_first_user m w :
  dict_get "role" (deref (w_heap w) m) = Some "user" ->
  gemma_alternate_step 0 [] m w = (Ok [m], w).
Proof.
  intros Hr. unfold gemma_alternate_step.
  unfold bind at 1. rewrite (getitem_Some _ _ _ _ Hr). reflexivity.
Qed.

Lemma alternate_step_first_other m w r :
  dict_get "role" (deref (w_heap w) m) = Some r ->
  String.eqb r "user" = false ->
  gemma_alternate_step 0 [] m w
  = (Ok [length (w_heap w); m], set_heap (w_heap w ++ [hello_turn]) w).
Proof.
  intros Hr Hru. unfold gemma_alternate_step.
  unfold bind at 1. rewrite (getitem_Some _ _ _ _ Hr).
  cbn [Nat.eqb andb Nat.ltb Nat.leb]. rewrite Hru. reflexivity.
Qed.

Lemma role_at_app_old (h : list (list (string * string))) x l r :
  l < length h -> role_at h l r -> role_at (h ++ [x]) l r.
Proof. intros Hl H. unfold role_at. now rewrite deref_app_old. Qed.

Lemma roles_at_app_old (h : list (list (string * string))) x ls rs :
  Forall (fun l => l < length h) ls ->
  Forall2 (role_at h) ls rs -> Forall2 (role_at (h ++ [x])) ls rs.
Proof.
  intros Hlt H. induction H as [|l r ls rs Hr Hrest IH]; [constructor|].
  inversion Hlt; subst. constructor; [now apply role_at_app_old | now apply IH].
Qed.

(** The second loop adds nothing between turns that alternate: it returns
    them as they are when the first is a [user] turn, and behind a new
    [user] turn otherwise. *)
Lemma gemma_alternate_lead processed w rs :
  Forall2 (role_at (w_heap w)) processed rs ->
  Forall (fun l => l < length (w_heap w)) processed ->
  alternating rs ->
  (gemma_alternate 0 [] processed w = (Ok processed, w)
   /\ (rs = [] \/ exists rest, rs = "user" :: rest))
  \/ (gemma_alternate 0 [] processed w
      = (Ok (length (w_heap w) :: processed), set_heap (w_heap w ++ [hello_turn]) w)
      /\ exists r rest, rs = r :: rest /\ String.eqb r "user" = false).
Proof.
  intros Hrs Hlt Halt. destruct Hrs as [|m r processed rs Hr Hrest].
  - left. split; [reflexivity | now left].
  - inversion Hlt as [|? ? Hm Hlt']; subst. cbn [gemma_alternate].
    destruct (String.eqb r "user") eqn:Hru.
    + apply String.eqb_eq in Hru. subst r. left.
      rewrite (bind_Ok _ _ _ _ _ (alternate_step_first_user m w Hr)).
      rewrite (gemma_alternate_rest processed 1 [m] m "user" w rs); try assumption; try lia;
        try reflexivity.
      split; [reflexivity | right; eauto].
    + right.
      rewrite (bind_Ok _ _ _ _ _ (alternate_step_first_other m w r Hr Hru)).
      set (w1 := set_heap (w_heap w ++ [hello_turn]) w).
      rewrite (gemma_alternate_rest processed 1 [length (w_heap w); m] m r w1 rs);
        try assumption; try lia; try reflexivity.
      * split; [reflexivity | eauto].
      * subst w1. cbn [w_heap set_heap]. now apply role_at_app_old.
      * subst w1. cbn [w_heap set_heap]. now apply roles_at_app_old.
Qed.

Lemma turns_at_roles h ls ts :
  Forall2 (turn_at h) ls ts -> Forall2 (role_at h) ls (map fst ts).
Proof.
  induction 1 as [|l t ls ts [Hr _] Hrest IH]; [constructor|].
  cbn [map]. constructor; [exact Hr | exact IH].
Qed.

Lemma gemma_alternate_spec processed w ts :
  Forall2 (turn_at (w_heap w)) processed ts ->
  Forall (fun l => l < length (w_heap w)) processed ->
  alternating (map fst ts) ->
  exists out w',
    gemma_alternate 0 [] processed w = (Ok out, w')
    /\ Forall2 (turn_at (w_heap w')) out (with_leading_user ts).
Proof.
  intros Hts Hlt Halt.
  destruct (gemma_alternate_lead processed w (map fst ts) (turns_at_roles _ _ _ Hts) Hlt Halt)
    as [[Hrun Hhead]|[Hrun (r & rest & Hhead & Hru)]].
  - exists processed, w. split; [exact Hrun|].
    destruct ts as [|[r c] ts]; [exact Hts|]. cbn [with_leading_user].
    destruct Hhead as [Hnil|(rest & Hhead)]; [discriminate|].
    cbn [map fst] in Hhead. injection Hhead as -> _. exact Hts.
  - eexists _, _. split; [exact Hrun|].
    destruct ts as [|[r0 c] ts]; [discriminate|]. cbn [map fst] in Hhead.
    injection Hhead as -> _. cbn [with_leading_user]. rewrite Hru.
    cbn [w_heap set_heap]. constructor.
    + unfold turn_at. now rewrite deref_app_new.
    + now apply turns_at_app_old.
Qed.

Lemma gemma_alternate_roles processed w rs :
  Forall2 (role_at (w_heap w)) processed rs ->
  Forall (fun l => l < length (w_heap w)) processed ->
  alternating rs ->
  exists out w',
    gemma_alternate 0 [] processed w = (Ok out, w')
    /\ Forall2 (role_at (w_heap w')) out (with_leading_user_role rs).
Proof.
  intros Hrs Hlt Halt.
  destruct (gemma_alternate_lead processed w rs Hrs Hlt Halt)
    as [[Hrun Hhead]|[Hrun (r & rest & Hhead & Hru)]].
  - exists processed, w. split; [exact Hrun|].
    destruct Hhead as [->|(rest & ->)]; [exact Hrs | exact Hrs].
  - eexists _, _. split; [exact Hrun|]. subst rs.
    cbn [with_leading_user_role]. rewrite Hru. cbn [w_heap set_heap]. constructor.
    + unfold role_at. now rewrite deref_app_new.
    + now apply roles_at_app_old.
Qed.

Lemma Forall2_turn_at_views h ls ts : Forall2 (turn_at h) ls ts -> map (view h) ls = ts.
Proof.
  induction 1 as [|l t ls ts Ht Hrest IH]; [reflexivity|].
  cbn [map]. now rewrite (turn_at_view _ _ _ Ht), IH.
Qed.

(** For distinct turns the contents follow the specification too. *)
Lemma process_gemma_messages_views ms w :
  NoDup ms ->
  (forall l, In l ms -> well_formed_turn (w_heap w) l) ->
  exists out w',
    process_gemma_messages ms w = (Ok out, w')
    /\ map (view (w_heap w')) out = gemma_spec (map (view (w_heap w)) ms).
Proof.
  intros Hnd Hwf.
  destruct (gemma_merge_spec ms w Hnd Hwf) as (processed & w1 & Hmerge & Hproc & Hlt).
  destruct (gemma_alternate_spec processed w1 _ Hproc Hlt (merge_turns_alternating _))
    as (out & w' & Halt & Hout).
  exists out, w'. split.
  - unfold process_gemma_messages. now rewrite (bind_Ok _ _ _ _ _ Hmerge).
  - rewrite (Forall2_turn_at_views _ _ _ Hout). unfold gemma_spec. now rewrite map_map.
Qed.

(** *** Roles, whatever turns are shared *)

Lemma merge_from_fst r c ts : map fst (merge_from r c ts) = squeeze_from r (map fst ts).
Proof.
  revert r c. induction ts as [|[r' c'] ts IH]; intros r c; cbn [merge_from map fst squeeze_from].
  - reflexivity.
  - destruct (String.eqb r' r); [apply IH|]. cbn [map fst]. now rewrite IH.
Qed.

Lemma gemma_spec_fst ts :
  map fst (gemma_spec ts) = with_leading_user_role (squeeze (map norm_role (map fst ts))).
Proof.
  unfold gemma_spec. destruct ts as [|[r c] ts]; [reflexivity|].
  cbn [map merge_turns norm_turn fst snd squeeze]. fold (norm_role r).
  assert (Hmap : map fst (map norm_turn ts) = map norm_role (map fst ts)).
  { rewrite !map_map. apply map_ext. intros [r' c']. reflexivity. }
  rewrite <- Hmap, <- (merge_from_fst (norm_role r) c).
  destruct (merge_from_head (norm_role r) c (map norm_turn ts)) as (c' & rest & ->).
  cbn [with_leading_user map fst with_leading_user_role].
  now destruct (String.eqb (norm_role r) "user").
Qed.

Lemma roles_kept_refl h : roles_kept h h.
Proof. split; [lia|]. intros l _. now split. Qed.

Lemma roles_kept_trans h1 h2 h3 : roles_kept h1 h2 -> roles_kept h2 h3 -> roles_kept h1 h3.
Proof.
  intros [Hl12 H12] [Hl23 H23]. split; [lia|]. intros l Hl.
  destruct (H12 l Hl) as [Hr12 Hc12]. destruct (H23 l) as [Hr23 Hc23]; [lia|].
  split; [congruence | auto].
Qed.

Lemma roles_kept_alloc (h : list (list (string * string))) x : roles_kept h (h ++ [x]).
Proof.
  split; [rewrite length_app; simpl; lia|]. intros l Hl.
  rewrite deref_app_old by assumption. now split.
Qed.

Lemma roles_kept_set_content (h : list (list (string * string))) l c :
  roles_kept h (<[l := dict_set "content" c (deref h l)]> h).
Proof.
  split; [now rewrite length_insert|]. intros l' Hl'.
  destruct (Nat.eq_dec l l') as [<-|Hne].
  - rewrite deref_insert_eq by assumption.
    rewrite dict_get_set_ne by discriminate. split; [reflexivity|].
    intros _. unfold dict_has. now rewrite dict_get_set_eq.
  - rewrite deref_insert_ne by assumption. now split.
Qed.

Lemma role_at_kept h h' l r : roles_kept h h' -> l < length h -> role_at h l r -> role_at h' l r.
Proof. intros [_ H] Hl Hr. unfold role_at in *. destruct (H l Hl) as [-> _]. exact Hr. Qed.

Lemma live_kept h h' l : roles_kept h h' -> live h l -> live h' l.
Proof.
  intros [Hlen H] [Hl Hc]. split; [lia|]. destruct (H l Hl) as [_ Hc']. auto.
Qed.

Lemma roles_at_kept h h' ls rs :
  roles_kept h h' -> Forall (live h) ls ->
  Forall2 (role_at h) ls rs -> Forall2 (role_at h') ls rs.
Proof.
  intros Hk Hlive H. induction H as [|l r ls rs Hr Hrest IH]; [constructor|].
  inversion Hlive as [|? ? [Hl _] Hlive']; subst.
  constructor; [now apply (role_at_kept h) | now apply IH].
Qed.

Lemma live_content h l : live h l -> exists c, dict_get "content" (deref h l) = Some c.
Proof.
  intros [_ Hc]. unfold dict_has in Hc.
  destruct (dict_get "content" (deref h l)) as [c|]; [eauto | discriminate].
Qed.

Lemma gemma_merge_roles h0 suf :
  (forall l, In l suf -> well_formed_turn h0 l) ->
  forall w done prev r R,
    roles_kept h0 (w_heap w) ->
    Forall (live (w_heap w)) (done ++ [prev]) ->
    Forall2 (role_at (w_heap w)) done R ->
    role_at (w_heap w) prev r ->
    exists out w',
      gemma_merge (done ++ [prev], Some r) suf w = (Ok out, w')
      /\ roles_kept (w_heap w) (w_heap w')
      /\ Forall (live (w_heap w')) out
      /\ Forall2 (role_at (w_heap w')) out
           (R ++ squeeze_from r (map (fun l => norm_role (fst (view h0 l))) suf)).
Proof.
  induction suf as [|m suf IH]; intros Hwf w done prev r R Hkept Hlive Hdone Hprev.
  - exists (done ++ [prev]), w. split; [reflexivity|]. split; [apply roles_kept_refl|].
    split; [exact Hlive|]. apply Forall2_app; [exact Hdone|].
    constructor; [exact Hprev | constructor].
  - assert (Hwf' : forall l, In l suf -> well_formed_turn h0 l)
      by (intros l Hl; apply Hwf; now right).
    destruct (Hwf m) as (rm & cm0 & Hrm0 & Hcm0 & Hrole); [now left|].
    assert (Hm0 : m < length h0) by (apply well_formed_turn_lt, Hwf; now left).
    assert (Hview : fst (view h0 m) = rm) by (unfold view; now rewrite Hrm0).
    assert (Hmlive : live (w_heap w) m).
    { apply (live_kept h0); [exact Hkept|]. split; [exact Hm0|].
      unfold dict_has. now rewrite Hcm0. }
    assert (Hrm : dict_get "role" (deref (w_heap w) m) = Some rm).
    { apply (role_at_kept h0); assumption. }
    destruct (live_content _ _ Hmlive) as (cm & Hcm).
    apply Forall_app in Hlive as [Hdlive Hplive].
    assert (Hpl : live (w_heap w) prev) by (now inversion Hplive).
    destruct (live_content _ _ Hpl) as (c & Hpc). destruct Hpl as [Hplt Hpcontent].
    assert (Hlast : last (done ++ [prev]) = Some prev) by apply last_snoc.
    cbn [gemma_merge map squeeze_from]. rewrite Hview. clear Hview. unfold norm_role.
    destruct (String.eqb rm "system") eqn:Hsys.
    + apply String.eqb_eq in Hsys. subst rm.
      destruct (String.eqb "user" r) eqn:Hur.
      * apply String.eqb_eq in Hur. subst r.
        rewrite (bind_Ok _ _ _ _ _
                   (merge_step_system_join _ prev m w cm c Hrm Hcm Hlast Hplt Hpc)).
        set (h1 := w_heap w ++ [system_as_user cm]).
        set (x := dict_set "content" (c +:+ (blank_line +:+ cm)) (deref (w_heap w) prev)).
        assert (Hstep : roles_kept (w_heap w) (<[prev := x]> h1)).
        { apply (roles_kept_trans _ h1); [apply roles_kept_alloc|]. subst x h1.
          rewrite <- (deref_app_old (w_heap w) (system_as_user cm) prev) by assumption.
          apply roles_kept_set_content. }
        destruct (IH Hwf' (set_heap (<[prev := x]> h1) w) done prev "user" R)
          as (out & w' & Hrun & Hk' & Hlive' & Hout).
        { exact (roles_kept_trans _ _ _ Hkept Hstep). }
        { cbn [w_heap set_heap]. eapply Forall_impl; [|intros l; apply (live_kept _ _ l Hstep)].
          apply Forall_app. split; [exact Hdlive | exact Hplive]. }
        { cbn [w_heap set_heap]. now apply (roles_at_kept (w_heap w)). }
        { cbn [w_heap set_heap]. now apply (role_at_kept (w_heap w)). }
        exists out, w'. split; [exact Hrun|]. split; [|now split].
        exact (roles_kept_trans _ _ _ Hstep Hk').
      * rewrite (bind_Ok _ _ _ _ _
                   (merge_step_system_append _ (Some r) m w cm Hrm Hcm Hur)).
        pose proof (roles_kept_alloc (w_heap w) (system_as_user cm)) as Hstep.
        destruct (IH Hwf' (set_heap (w_heap w ++ [system_as_user cm]) w)
                    (done ++ [prev]) (length (w_heap w)) "user" (R ++ [r]))
          as (out & w' & Hrun & Hk' & Hlive' & Hout).
        { exact (roles_kept_trans _ _ _ Hkept Hstep). }
        { cbn [w_heap set_heap]. apply Forall_app. split.
          - eapply Forall_impl; [|intros l; apply (live_kept _ _ l Hstep)].
            apply Forall_app. split; [exact Hdlive | exact Hplive].
          - constructor; [|constructor]. split; [rewrite length_app; simpl; lia|].
            now rewrite deref_app_new. }
        { cbn [w_heap set_heap]. apply Forall2_app.
          - now apply (roles_at_kept (w_heap w)).
          - constructor; [|constructor]. now apply (role_at_kept (w_heap w)). }
        { cbn [w_heap set_heap]. unfold role_at. now rewrite deref_app_new. }
        exists out, w'. split; [exact Hrun|]. rewrite <- app_assoc in Hout.
        split; [|now split]. exact (roles_kept_trans _ _ _ Hstep Hk').
    + destruct (String.eqb rm r) eqn:Hrr.
      * apply String.eqb_eq in Hrr. subst rm.
        rewrite (bind_Ok _ _ _ _ _
                   (merge_step_join _ prev m w r c cm Hrm Hsys Hlast Hpc Hcm)).
        set (x := dict_set "content" (c +:+ (blank_line +:+ cm)) (deref (w_heap w) prev)).
        pose proof (roles_kept_set_content (w_heap w) prev (c +:+ (blank_line +:+ cm)))
          as Hstep. fold x in Hstep.
        destruct (IH Hwf' (set_heap (<[prev := x]> (w_heap w)) w) done prev r R)
          as (out & w' & Hrun & Hk' & Hlive' & Hout).
        { exact (roles_kept_trans _ _ _ Hkept Hstep). }
        { cbn [w_heap set_heap]. eapply Forall_impl; [|intros l; apply (live_kept _ _ l Hstep)].
          apply Forall_app. split; [exact Hdlive | exact Hplive]. }
        { cbn [w_heap set_heap]. now apply (roles_at_kept (w_heap w)). }
        { cbn [w_heap set_heap]. now apply (role_at_kept (w_heap w)). }
        exists out, w'. split; [exact Hrun|]. split; [|now split].
        exact (roles_kept_trans _ _ _ Hstep Hk').
      * rewrite (bind_Ok _ _ _ _ _
                   (merge_step_append _ (Some r) m w rm Hrm Hsys Hrr)).
        destruct (IH Hwf' w (done ++ [prev]) m rm (R ++ [r]))
          as (out & w' & Hrun & Hk' & Hlive' & Hout).
        { exact Hkept. }
        { apply Forall_app. split; [|constructor; [exact Hmlive | constructor]].
          apply Forall_app. split; [exact Hdlive | exact Hplive]. }
        { apply Forall2_app; [exact Hdone|]. constructor; [exact Hprev | constructor]. }
        { exact Hrm. }
        exists out, w'. split; [exact Hrun|]. rewrite <- app_assoc in Hout. now split.
Qed.

Lemma squeeze_from_alternating r rs : alternating (squeeze_from r rs).
Proof.
  pose proof (merge_from_alternating r "" (map (fun r' => (r', "")) rs)) as H.
  rewrite merge_from_fst, map_map in H. cbn [fst] in H. now rewrite map_id in H.
Qed.

Lemma squeeze_alternating rs : alternating (squeeze rs).
Proof. destruct rs as [|r rs]; [exact I | apply squeeze_from_alternating]. Qed.

Lemma gemma_merge_roles_spec ms w :
  (forall l, In l ms -> well_formed_turn (w_heap w) l) ->
  exists out w',
    gemma_merge ([], None) ms w = (Ok out, w')
    /\ Forall (live (w_heap w')) out
    /\ Forall2 (role_at (w_heap w')) out
         (squeeze (map (fun l => norm_role (fst (view (w_heap w) l))) ms)).
Proof.
  intros Hwf. destruct ms as [|m suf].
  - exists [], w. split; [reflexivity|]. split; constructor.
  - assert (Hwf' : forall l, In l suf -> well_formed_turn (w_heap w) l)
      by (intros l Hl; apply Hwf; now right).
    destruct (Hwf m) as (rm & cm & Hrm & Hcm & Hrole); [now left|].
    assert (Hlt : m < length (w_heap w)) by (apply well_formed_turn_lt, Hwf; now left).
    assert (Hview : fst (view (w_heap w) m) = rm) by (unfold view; now rewrite Hrm).
    cbn [gemma_merge map squeeze]. rewrite Hview. clear Hview. unfold norm_role.
    destruct (String.eqb rm "system") eqn:Hsys.
    + apply String.eqb_eq in Hsys. subst rm.
      rewrite (bind_Ok _ _ _ _ _ (merge_step_system_append [] None m w cm Hrm Hcm eq_refl)).
      destruct (gemma_merge_roles (w_heap w) suf Hwf'
                  (set_heap (w_heap w ++ [system_as_user cm]) w) [] (length (w_heap w))
                  "user" []) as (out & w' & Hrun & _ & Hlive & Hout).
      * apply roles_kept_alloc.
      * cbn [w_heap set_heap app]. constructor; [|constructor].
        split; [rewrite length_app; simpl; lia | now rewrite deref_app_new].
      * constructor.
      * cbn [w_heap set_heap]. unfold role_at. now rewrite deref_app_new.
      * exists out, w'. now split.
    + rewrite (bind_Ok _ _ _ _ _ (merge_step_append [] None m w rm Hrm Hsys eq_refl)).
      destruct (gemma_merge_roles (w_heap w) suf Hwf' w [] m rm [])
        as (out & w' & Hrun & _ & Hlive & Hout).
      * apply roles_kept_refl.
      * cbn [app]. constructor; [|constructor]. split; [exact Hlt|].
        unfold dict_has. now rewrite Hcm.
      * constructor.
      * exact Hrm.
      * exists out, w'. now split.
Qed.

Lemma roles_at_views h ls rs :
  Forall2 (role_at h) ls rs -> map (fun l => fst (view h l)) ls = rs.
Proof.
  induction 1 as [|l r ls rs Hr Hrest IH]; [reflexivity|].
  cbn [map]. unfold view at 1. cbn [fst]. unfold role_at in Hr. now rewrite Hr, IH.
Qed.

(** C6.  For a list of turns whose roles are among [system], [user],
    [assistant] and which have a content, [process_gemma_messages] returns a
    list of turns whose roles are those of [gemma_spec]: every [system] turn
    taken as a [user] turn, consecutive turns of one role merged into one,
    and a [user] turn put first when the first role is not [user].  So a
    non-empty result starts with a [user] turn, no two consecutive turns have
    the same role, and no turn is a [system] turn.  When no turn object occurs
    twice in the list the contents are those of [gemma_spec] as well: the
    content of a merged turn is the contents of its turns joined by the
    two-line-feed separator, and the input [system, system, assistant, user]
    gives [user, assistant, user] with the two system contents joined in the
    first turn.  Nothing but turns is touched. *)
Theorem process_gemma_messages_alternates :
  forall (messages : list loc) (w : world),
    (forall l, In l messages -> well_formed_turn (w_heap w) l) ->
    exists out w',
      process_gemma_messages messages w = (Ok out, w')
      /\ w' = set_heap (w_heap w') w
      /\ map (fun l => fst (view (w_heap w') l)) out
         = map fst (gemma_spec (map (view (w_heap w)) messages))
      /\ (messages <> [] ->
          exists rest, map (fun l => fst (view (w_heap w') l)) out = "user" :: rest)
      /\ alternating (map (fun l => fst (view (w_heap w') l)) out)
      /\ Forall turn_role (map (fun l => fst (view (w_heap w') l)) out)
      /\ (NoDup messages ->
          map (view (w_heap w')) out = gemma_spec (map (view (w_heap w)) messages)
          /\ forall s1 s2 a u,
               map (view (w_heap w)) messages
               = [("system", s1); ("system", s2); ("assistant", a); ("user", u)] ->
               map (view (w_heap w')) out
               = [("user", s1 +:+ blank_line +:+ s2); ("assistant", a); ("user", u)]).
Proof.
  intros ms w Hwf.
  destruct (gemma_merge_roles_spec ms w Hwf) as (processed & w1 & Hmerge & Hlive & Hproc).
  assert (Hlt : Forall (fun l => l < length (w_heap w1)) processed).
  { eapply Forall_impl; [exact Hlive|]. now intros l [Hl _]. }
  destruct (gemma_alternate_roles processed w1 _ Hproc Hlt (squeeze_alternating _))
    as (out & w' & Halt & Hout).
  exists out, w'.
  assert (Hrun : process_gemma_messages ms w = (Ok out, w')).
  { unfold process_gemma_messages. now rewrite (bind_Ok _ _ _ _ _ Hmerge). }
  assert (Hroles : map (fun l => fst (view (w_heap w') l)) out
                   = map fst (gemma_spec (map (view (w_heap w)) ms))).
  { rewrite (roles_at_views _ _ _ Hout), gemma_spec_fst. now rewrite !map_map. }
  assert (Hchat : Forall (fun t => chat_role (fst t)) (map (view (w_heap w)) ms)).
  { apply Forall_map. apply List.Forall_forall. intros l Hl.
    destruct (Hwf l Hl) as (r & c & Hr & Hc & Hrole). unfold view. now rewrite Hr. }
  destruct (gemma_spec_properties _ Hchat) as (Hfirst & Halternating & Hturn).
  split; [exact Hrun|]. split.
  { pose proof (heap_only_process_gemma_messages ms w) as Hheap.
    rewrite Hrun in Hheap. exact Hheap. }
  split; [exact Hroles|]. rewrite Hroles.
  split; [|split; [exact Halternating | split; [exact Hturn|]]].
  - intros Hne. destruct Hfirst as (c & rest & ->); [now destruct ms|].
    now exists (map fst rest).
  - intros Hnd.
    destruct (process_gemma_messages_views ms w Hnd Hwf) as (out2 & w2 & Hrun2 & Hviews).
    rewrite Hrun in Hrun2. injection Hrun2 as <- <-.
    split; [exact Hviews|]. rewrite Hviews. intros s1 s2 a u ->. reflexivity.
Qed.

(** * Further properties of the module *)

(** ** Frames: what a computation leaves alone *)

Lemma preserves_ret {A : Type} R (a : A) : frame R -> preserves R (ret a).
Proof. intros F w. apply (frame_refl R F). Qed.

Lemma preserves_raise {A : Type} R e : frame R -> preserves R (@raise A e).
Proof. intros F w. apply (frame_refl R F). Qed.

Lemma preserves_lift {A : Type} R (r : pyres A) : frame R -> preserves R (lift r).
Proof. intros F w. apply (frame_refl R F). Qed.

Lemma preserves_bind {A B : Type} R (m : M A) (k : A -> M B) :
  frame R -> preserves R m -> (forall a, preserves R (k a)) -> preserves R (bind m k).
Proof.
  intros F Hm Hk w. unfold bind. specialize (Hm w).
  destruct (m w) as [[a|e] w1]; simpl in *; [|exact Hm].
  eapply (frame_trans R F); [exact Hm | apply Hk].
Qed.

Lemma preserves_for_each {A : Type} R (f : A -> M unit) l :
  frame R -> (forall x, preserves R (f x)) -> preserves R (for_each f l).
Proof.
  intros F Hf. induction l as [|x l IH]; simpl.
  - now apply preserves_ret.
  - apply preserves_bind; [exact F | apply Hf | intros _; exact IH].
Qed.

Lemma preserves_reads_only {A : Type} R (m : M A) :
  frame R -> reads_only m -> preserves R m.
Proof. intros F H w. rewrite (H w). apply (frame_refl R F). Qed.

Lemma preserves_heap_only {A : Type} R (m : M A) :
  frame_heap R -> heap_only m -> preserves R m.
Proof. intros Hh H w. rewrite (H w). apply Hh. Qed.

Lemma preserves_emit R ev : frame R -> preserves R (emit ev).
Proof. intros F w. apply (frame_log R F). Qed.

Lemma preserves_requests_post R url hd data :
  frame R -> preserves R (requests_post url hd data).
Proof.
  intros F w. unfold requests_post.
  destruct (http (w_log w) url hd data); apply (frame_log R F).
Qed.

Lemma preserves_send_message R url history message :
  frame R -> preserves R (send_message url history message).
Proof.
  intros F w. unfold send_message.
  destruct (chat (w_log w) url history message); apply (frame_log R F).
Qed.

Lemma preserves_print_raise {A : Type} R e :
  frame R -> preserves R (py_print ;; @raise A e).
Proof.
  intros F. apply preserves_bind; [exact F | now apply preserves_emit |].
  intros _. now apply preserves_raise.
Qed.

Lemma preserves_request_once R hd field url data :
  frame R -> preserves R (request_once hd field url data).
Proof.
  intros F. apply preserves_bind; [exact F | now apply preserves_requests_post |].
  intros [response|]; [|now apply preserves_print_raise].
  destruct (py_contains field response) as [[|]|e];
    [now apply preserves_ret | now apply preserves_print_raise
     | now apply preserves_print_raise].
Qed.

Lemma preserves_retry_from {A : Type} R wait (f : M A) :
  frame R -> preserves R f -> forall n k, preserves R (retry_from wait k n f).
Proof.
  intros F Hf. induction n as [|n IH]; intros k w; simpl.
  - specialize (Hf w). destruct (f w) as [[a|e] w1]; exact Hf.
  - specialize (Hf w). destruct (f w) as [[a|e] w1]; simpl in *; [exact Hf|].
    eapply (frame_trans R F); [exact Hf|].
    eapply (frame_trans R F); [apply (frame_log R F) | apply IH].
Qed.

Lemma preserves_openai_response R name url cfg m :
  frame R -> preserves R (openai_response name url cfg m).
Proof.
  intros F. apply preserves_bind; [exact F | |].
  - apply preserves_reads_only; [exact F | apply reads_only_messages_value].
  - intros v. apply preserves_retry_from; [exact F | now apply preserves_request_once].
Qed.

Lemma preserves_claude_response R name url cfg m :
  frame R -> frame_heap R -> preserves R (claude_response name url cfg m).
Proof.
  intros F Hh. apply preserves_bind; [exact F | |].
  { apply preserves_heap_only; [exact Hh|].
    apply heap_only_for_turns, heap_only_system_to_user. }
  intros _. apply preserves_bind; [exact F | |].
  - apply preserves_reads_only; [exact F | apply reads_only_messages_value].
  - intros v. apply preserves_retry_from; [exact F | now apply preserves_request_once].
Qed.

Lemma preserves_gemini_response R url m :
  frame R -> frame_heap R -> preserves R (gemini_response url m).
Proof.
  intros F Hh. apply preserves_bind; [exact F | |].
  { apply preserves_heap_only; [exact Hh|].
    apply heap_only_for_turns, heap_only_gemini_turn. }
  intros _. destruct m as [s|p]; [now apply preserves_raise|].
  destruct (last p); [|now apply preserves_raise].
  apply preserves_bind; [exact F | |].
  { apply preserves_reads_only; [exact F | apply reads_only_snapshot_now]. }
  intros history. apply preserves_bind; [exact F | |].
  { apply preserves_reads_only; [exact F | apply reads_only_read_turn]. }
  intros t. now apply preserves_send_message.
Qed.

Lemma preserves_gemma_response R name url m :
  frame R -> frame_heap R -> preserves R (gemma_response name url m).
Proof.
  intros F Hh. apply preserves_bind; [exact F | |].
  { destruct m as [[|c s]|p].
    - now apply preserves_ret.
    - now apply preserves_raise.
    - apply preserves_bind; [exact F | |].
      + apply preserves_heap_only; [exact Hh | apply heap_only_process_gemma_messages].
      + intros fm. apply preserves_reads_only; [exact F | apply reads_only_snapshot_now]. }
  intros fm. apply preserves_bind; [exact F | now apply preserves_requests_post |].
  intros body.
  match goal with |- preserves _ (match ?r with _ => _ end) => destruct r end.
  - now apply preserves_ret.
  - now apply preserves_print_raise.
Qed.

Lemma preserves_run_sequential R get_response items :
  frame R -> (forall m, preserves R (get_response m)) ->
  preserves R (run_sequential get_response items).
Proof.
  intros F H. induction items as [|m items IH]; simpl.
  - now apply preserves_ret.
  - apply preserves_bind; [exact F | apply H |]. intros r.
    apply preserves_bind; [exact F | exact IH |]. intros rs. now apply preserves_ret.
Qed.

Lemma run_workers_preserves R get_response items :
  frame R -> (forall m, preserves R (get_response m)) ->
  forall w, R w (snd (run_workers get_response items w)).
Proof.
  intros F H. induction items as [|m items IH]; intros w; simpl.
  - apply (frame_refl R F).
  - specialize (H m w). destruct (get_response m w) as [r w1]. simpl in H.
    specialize (IH w1). destruct (run_workers get_response items w1) as [rs w2].
    simpl in *. eapply (frame_trans R F); eassumption.
Qed.

Lemma preserves_get_batch_responses R par batch get_response :
  frame R -> (forall m, preserves R (get_response m)) ->
  preserves R (get_batch_responses par batch get_response).
Proof.
  intros F H. unfold get_batch_responses.
  destruct (negb par || (length (arg_items batch) <=? 1)%nat).
  - now apply preserves_run_sequential.
  - apply preserves_bind; [exact F | now apply preserves_emit |]. intros _ w.
    pose proof (run_workers_preserves R get_response (arg_items batch) F H w) as Hw.
    destruct (run_workers get_response (arg_items batch) w) as [rs w']. exact Hw.
Qed.

Lemma preserves_batch_list R par batch get_response :
  frame R -> (forall m, preserves R (get_response m)) ->
  preserves R (rs <- get_batch_responses par batch get_response ;; ret (PList rs)).
Proof.
  intros F H. apply preserves_bind; [exact F | |].
  - now apply preserves_get_batch_responses.
  - intros rs. now apply preserves_ret.
Qed.

(** Every provider branch, every outcome. *)
Lemma preserves_model_call_wrapper R name url batch cfg par :
  frame R -> frame_heap R -> preserves R (model_call_wrapper name url batch cfg par).
Proof.
  intros F Hh. unfold model_call_wrapper, retry.
  apply preserves_retry_from; [exact F|]. unfold model_call_wrapper_once.
  destruct (negb (arg_truthy batch)); [now apply preserves_ret|].
  destruct name as [|name|b]; [now apply preserves_raise | | now apply preserves_raise].
  destruct (dict_has name GPT_COSTS).
  { apply preserves_batch_list; [exact F|]. intros m. now apply preserves_openai_response. }
  destruct (contains "gemini" (lower name)).
  { apply preserves_batch_list; [exact F|]. intros m. now apply preserves_gemini_response. }
  destruct (contains "gemma" (lower name)).
  { apply preserves_batch_list; [exact F|]. intros m. now apply preserves_gemma_response. }
  destruct (in_claude_models name).
  { apply preserves_batch_list; [exact F|]. intros m. now apply preserves_claude_response. }
  now apply preserves_ret.
Qed.

(** The branch of the cost-tracked models, which updates no turn. *)
Lemma preserves_openai_dispatch R name url batch cfg par :
  frame R -> dict_has name GPT_COSTS = true ->
  preserves R (model_call_wrapper (AStr name) url batch cfg par).
Proof.
  intros F Hcost. unfold model_call_wrapper, retry.
  apply preserves_retry_from; [exact F|]. unfold model_call_wrapper_once.
  destruct (negb (arg_truthy batch)); [now apply preserves_ret|]. rewrite Hcost.
  apply preserves_batch_list; [exact F|]. intros m. now apply preserves_openai_response.
Qed.

Lemma frame_same_store : frame same_store.
Proof.
  split.
  - now intros w.
  - intros w1 w2 w3 [Hc Hf] [Hc' Hf']. split; congruence.
  - now intros e w.
Qed.

Lemma frame_heap_same_store : frame_heap same_store.
Proof. now intros h w. Qed.

Lemma frame_same_heap : frame same_heap.
Proof.
  split.
  - now intros w.
  - intros w1 w2 w3 H H'. unfold same_heap in *. congruence.
  - now intros e w.
Qed.

Lemma append_nil_r (s : string) : s +:+ "" = s.
Proof. induction s as [|c s IH]; [reflexivity|]. rewrite append_cons. now f_equal. Qed.

Lemma frame_store_grows file : frame (store_grows file).
Proof.
  split.
  - intros w. split; [reflexivity|]. split; [|now intros k].
    exists "". now rewrite append_nil_r.
  - intros w1 w2 w3 (Hf & (s & Hs) & Hc) (Hf' & (s' & Hs') & Hc'). split; [|split].
    + intros path Hp. now rewrite Hf', Hf.
    + exists (s +:+ s'). now rewrite Hs', Hs, append_assoc.
    + intros k Hk. now apply Hc', Hc.
  - intros e w. split; [reflexivity|]. split; [|now intros k].
    exists "". simpl. now rewrite append_nil_r.
Qed.

Lemma frame_heap_store_grows file : frame_heap (store_grows file).
Proof.
  intros h w. split; [reflexivity|]. split; [|now intros k].
  exists "". simpl. now rewrite append_nil_r.
Qed.

(** ** The cache and its file under cached_generate *)

Lemma preserves_persist_response file pair :
  preserves (store_grows file) (persist_response file pair).
Proof.
  intros w. rewrite persist_response_run. unfold store_grows.
  cbn [snd w_files w_cache]. split; [|split].
  - intros path Hp. now rewrite lookup_insert_ne by congruence.
  - eexists. unfold file_text at 1. rewrite lookup_insert_eq. reflexivity.
  - intros k Hk. destruct (decide (key_of (w_heap w) (fst pair) = k)) as [->|Hne].
    + rewrite lookup_insert_eq. eauto.
    + now rewrite lookup_insert_ne.
Qed.

Lemma preserves_after_dispatch R batch new_batch model file responses :
  frame R -> (forall pair, preserves R (persist_response file pair)) ->
  preserves R (after_dispatch batch new_batch model file responses).
Proof.
  intros F Hp. unfold after_dispatch.
  apply preserves_bind; [exact F | now apply preserves_lift |]. intros rs.
  apply preserves_bind; [exact F | now apply preserves_for_each |]. intros _.
  apply preserves_bind; [exact F | now apply preserves_lift |]. intros n.
  destruct (n =? length new_batch)%nat; [|now apply preserves_raise].
  apply preserves_bind; [exact F | |].
  - apply preserves_reads_only; [exact F | apply reads_only_collect_outputs].
  - intros out. now apply preserves_ret.
Qed.

Lemma reads_only_is_cache_miss model p : reads_only (is_cache_miss model p).
Proof.
  apply reads_only_bind; [apply reads_only_prompt_key|]. intros k.
  apply reads_only_bind; [apply reads_only_cache_get|]. intros [v|]; [|apply reads_only_ret].
  destruct (dict_has model GPT_COSTS); [|apply reads_only_ret].
  apply reads_only_bind; [apply reads_only_lift | intros; apply reads_only_ret].
Qed.

Lemma reads_only_cache_misses model batch : reads_only (cache_misses model batch).
Proof.
  induction batch as [|p batch IH]; simpl; [apply reads_only_ret|].
  apply reads_only_bind; [apply reads_only_is_cache_miss|]. intros miss.
  apply reads_only_bind; [exact IH | intros; apply reads_only_ret].
Qed.

Lemma preserves_reasoning_step R model batch cfg :
  frame R -> frame_heap R ->
  preserves R (if startswith "o1" model
               then reasoning_rewrite batch ;; ret ([] : list (string * pyval))
               else ret cfg).
Proof.
  intros F Hh. destruct (startswith "o1" model); [|now apply preserves_ret].
  apply preserves_bind; [exact F | |intros; now apply preserves_ret].
  apply preserves_heap_only; [exact Hh | apply heap_only_reasoning_rewrite].
Qed.

Lemma preserves_cached_generate R batch model url cache file cfg par :
  frame R -> frame_heap R -> (forall pair, preserves R (persist_response file pair)) ->
  preserves R (cached_generate batch model url cache file cfg par).
Proof.
  intros F Hh Hp. unfold cached_generate.
  apply preserves_bind; [exact F | now apply preserves_reasoning_step |]. intros cfg'.
  unfold generate_with. destruct cache.
  - apply preserves_bind; [exact F | now apply preserves_model_call_wrapper |].
    intros r. now apply preserves_ret.
  - apply preserves_bind; [exact F | |].
    { apply preserves_reads_only; [exact F | apply reads_only_cache_misses]. }
    intros new_batch.
    apply preserves_bind; [exact F | now apply preserves_model_call_wrapper |].
    intros responses. now apply preserves_after_dispatch.
Qed.

(** X1.  Whatever its arguments and its outcome, [cached_generate] only
    appends to the cache file, leaves every other file as it was, and removes
    no key from the cache. *)
Theorem cache_file_append_only :
  forall (batch_prompts : list prompt) (model_name : string) (model_url : arg)
         (cache : cache_arg) (cache_file : string)
         (generation_config : list (string * pyval)) (parallel_model_calls : bool)
         (w : world),
    let w' := snd (cached_generate batch_prompts model_name model_url cache cache_file
                     generation_config parallel_model_calls w) in
    (forall path, path <> cache_file -> w_files w' !! path = w_files w !! path)
    /\ (exists suffix,
          file_text (w_files w') cache_file
          = file_text (w_files w) cache_file +:+ suffix)
    /\ (forall k, is_Some (w_cache w !! k) -> is_Some (w_cache w' !! k)).
Proof.
  intros batch model url cache file cfg par w.
  apply (preserves_cached_generate (store_grows file)).
  - apply frame_store_grows.
  - apply frame_heap_store_grows.
  - intros pair. apply preserves_persist_response.
Qed.

(** ** What can be raised *)

Lemma bind_inv_Raise {A B : Type} (m : M A) (k : A -> M B) w e w' :
  bind m k w = (Raise e, w') ->
  m w = (Raise e, w') \/ exists a w1, m w = (Ok a, w1) /\ k a w1 = (Raise e, w').
Proof.
  unfold bind. destruct (m w) as [[a|e0] w1]; intros H.
  - right. eauto.
  - left. now injection H as -> ->.
Qed.

Lemma raises_only_ret {A : Type} P (a : A) : raises_only P (ret a).
Proof. intros w e H. discriminate. Qed.

Lemma raises_only_raise {A : Type} (P : pyexn -> Prop) e : P e -> raises_only P (@raise A e).
Proof. intros He w e' H. injection H as <-. exact He. Qed.

Lemma raises_only_lift {A : Type} (P : pyexn -> Prop) (r : pyres A) :
  (forall e, r = Raise e -> P e) -> raises_only P (lift r).
Proof. intros Hr w e H. apply Hr. exact H. Qed.

Lemma raises_only_bind {A B : Type} P (m : M A) (k : A -> M B) :
  raises_only P m -> (forall a, raises_only P (k a)) -> raises_only P (bind m k).
Proof.
  intros Hm Hk w e. unfold bind. specialize (Hm w).
  destruct (m w) as [[a|e0] w1]; simpl in *; [apply Hk|].
  intros [= <-]. now apply Hm.
Qed.

Lemma raises_only_for_each {A : Type} P (f : A -> M unit) l :
  (forall x, raises_only P (f x)) -> raises_only P (for_each f l).
Proof.
  intros Hf. induction l as [|x l IH]; simpl.
  - apply raises_only_ret.
  - apply raises_only_bind; [apply Hf | intros _; exact IH].
Qed.

Lemma raises_only_weaken {A : Type} (P Q : pyexn -> Prop) (m : M A) :
  (forall e, P e -> Q e) -> raises_only P m -> raises_only Q m.
Proof. intros HPQ H w e He. apply HPQ. exact (H w e He). Qed.

Lemma py_contains_error key v e : py_contains key v = Raise e -> data_error e.
Proof. destruct v; simpl; intros [=]; subst; now left. Qed.

Lemma py_getitem_error v key e : py_getitem v key = Raise e -> data_error e.
Proof.
  destruct v; simpl; try (intros [=]; subst; now left).
  destruct (dict_get key d); intros [=]; subst. right. now left.
Qed.

Lemma py_index_error v i e : py_index v i = Raise e -> data_error e.
Proof.
  destruct v; simpl; try (intros [=]; subst; now left).
  - destruct (list_index _ i); intros [=]; subst. right. right. now left.
  - destruct (list_index l i); intros [=]; subst. right. right. now left.
  - intros [=]; subst. right. now left.
Qed.

Lemma py_mul_float_error v price e : py_mul_float v price = Raise e -> data_error e.
Proof.
  destruct v; simpl; try (intros [=]; subst; now left).
  unfold float_of_int.
  destruct (PrimFloat.is_infinity _); intros [=]; subst. right. right. now right.
Qed.

Lemma bind_res_error {A B : Type} (P : pyexn -> Prop) (r : pyres A) (k : A -> pyres B) e :
  (forall e0, r = Raise e0 -> P e0) -> (forall a e0, k a = Raise e0 -> P e0) ->
  bind_res r k = Raise e -> P e.
Proof. intros Hr Hk. destruct r as [a|e0]; simpl; [apply Hk | intros [= <-]; now apply Hr]. Qed.

Lemma raises_only_getitem k l : raises_only data_error (getitem k l).
Proof.
  apply raises_only_bind; [intros w e; discriminate|]. intros t.
  destruct (dict_get k t); [apply raises_only_ret|].
  apply raises_only_raise. right. now left.
Qed.

Lemma raises_only_setitem P k v l : raises_only P (setitem k v l).
Proof. intros w e. discriminate. Qed.

Lemma raises_only_system_to_user l : raises_only data_error (system_to_user l).
Proof.
  apply raises_only_bind; [apply raises_only_getitem|]. intros role.
  destruct (String.eqb role "system"); [apply raises_only_setitem | apply raises_only_ret].
Qed.

Lemma raises_only_reasoning_rewrite batch : raises_only data_error (reasoning_rewrite batch).
Proof.
  apply raises_only_for_each. intros p. apply raises_only_for_each.
  apply raises_only_system_to_user.
Qed.

Lemma raises_only_prompt_key P p : raises_only P (prompt_key p).
Proof. intros w e. discriminate. Qed.

Lemma raises_only_cache_getitem k : raises_only data_error (cache_getitem k).
Proof.
  apply raises_only_bind; [intros w e; discriminate|]. intros [v|].
  - apply raises_only_ret.
  - apply raises_only_raise. right. now left.
Qed.

Lemma raises_only_is_cache_miss model p : raises_only data_error (is_cache_miss model p).
Proof.
  apply raises_only_bind; [apply raises_only_prompt_key|]. intros k.
  apply raises_only_bind; [intros w e; discriminate|]. intros [v|]; [|apply raises_only_ret].
  destruct (dict_has model GPT_COSTS); [|apply raises_only_ret].
  apply raises_only_bind; [|intros; apply raises_only_ret].
  apply raises_only_lift. apply py_contains_error.
Qed.

Lemma raises_only_cache_misses model batch :
  raises_only data_error (cache_misses model batch).
Proof.
  induction batch as [|p batch IH]; simpl; [apply raises_only_ret|].
  apply raises_only_bind; [apply raises_only_is_cache_miss|]. intros miss.
  apply raises_only_bind; [exact IH | intros; apply raises_only_ret].
Qed.

Lemma raises_only_extract_text model k : raises_only data_error (extract_text model k).
Proof.
  apply raises_only_bind; [apply raises_only_cache_getitem|]. intros entry.
  destruct (dict_has model GPT_COSTS).
  { apply raises_only_lift. intros e.
    apply bind_res_error; [apply py_getitem_error|]. intros a e0.
    apply bind_res_error; [apply py_index_error|]. intros b e1.
    apply bind_res_error; [apply py_getitem_error|]. intros c e2.
    apply py_getitem_error. }
  destruct (in_claude_models model); [|apply raises_only_ret].
  apply raises_only_lift. intros e.
  apply bind_res_error; [apply py_getitem_error|]. intros a e0.
  apply bind_res_error; [apply py_index_error|]. intros b e1.
  apply py_getitem_error.
Qed.

Lemma raises_only_add_costs k prices :
  forall cost, raises_only data_error (add_costs k prices cost).
Proof.
  induction prices as [|[t price] prices IH]; intros cost; simpl.
  - apply raises_only_ret.
  - apply raises_only_bind; [apply raises_only_cache_getitem|]. intros entry.
    apply raises_only_bind.
    { apply raises_only_lift. intros e.
      apply bind_res_error; [apply py_getitem_error|]. intros u e0. apply py_getitem_error. }
    intros n. apply raises_only_bind; [|intros; apply IH].
    apply raises_only_lift. apply py_mul_float_error.
Qed.

Lemma raises_only_collect_outputs model batch :
  forall acc cost, raises_only data_error (collect_outputs model batch acc cost).
Proof.
  induction batch as [|p batch IH]; intros acc cost; cbn [collect_outputs].
  - apply raises_only_ret.
  - apply raises_only_bind; [apply raises_only_prompt_key|]. intros k.
    apply raises_only_bind; [apply raises_only_extract_text|]. intros text.
    apply raises_only_bind; [|intros; apply IH].
    destruct (dict_get model GPT_COSTS); [apply raises_only_add_costs | apply raises_only_ret].
Qed.

Lemma raises_only_persist_response P file pair : raises_only P (persist_response file pair).
Proof. intros w e. rewrite persist_response_run. discriminate. Qed.

Lemma py_iter_error v e : py_iter v = Raise e -> data_error e.
Proof. destruct v; simpl; intros [=]; subst; now left. Qed.

Lemma py_len_error v e : py_len v = Raise e -> data_error e.
Proof. destruct v; simpl; intros [=]; subst; now left. Qed.

Lemma data_error_not_retry e : data_error e -> not_retry_error e.
Proof. intros [-> | [-> | [-> | ->]]]; exact I. Qed.

Lemma data_error_not_assertion e : data_error e -> not_assertion_error e.
Proof. intros [-> | [-> | [-> | ->]]]; discriminate. Qed.

(** What follows the dispatch raises an error of reading a value, or the
    failed assertion. *)
Lemma raises_only_after_dispatch batch new_batch model file responses :
  raises_only (fun e => data_error e \/ e = AssertionError)
    (after_dispatch batch new_batch model file responses).
Proof.
  unfold after_dispatch.
  apply raises_only_bind.
  { apply raises_only_lift. intros e He. left. exact (py_iter_error _ _ He). }
  intros rs. apply raises_only_bind.
  { apply raises_only_for_each. intros pair. apply raises_only_persist_response. }
  intros _. apply raises_only_bind.
  { apply raises_only_lift. intros e He. left. exact (py_len_error _ _ He). }
  intros n. destruct (n =? length new_batch)%nat.
  - apply raises_only_bind; [|intros; apply raises_only_ret].
    eapply raises_only_weaken; [|apply raises_only_collect_outputs]. intros e He. now left.
  - apply raises_only_raise. now right.
Qed.

Lemma retry_from_Raise {A : Type} wait (f : M A) :
  forall n k w e w', retry_from wait k n f w = (Raise e, w') -> exists e0, e = RetryError e0.
Proof.
  induction n as [|n IH]; intros k w e w'; simpl.
  - destruct (f w) as [[a|e0] w1]; intros [=]; subst. eauto.
  - destruct (f w) as [[a|e0] w1]; [discriminate|]. apply IH.
Qed.

Lemma retry_from_Ok {A : Type} wait (f : M A) :
  forall n k w a w', retry_from wait k n f w = (Ok a, w') -> exists w0, f w0 = (Ok a, w').
Proof.
  induction n as [|n IH]; intros k w a w'; simpl.
  - destruct (f w) as [[a0|e0] w1] eqn:Hf; intros [=]; subst. eauto.
  - destruct (f w) as [[a0|e0] w1] eqn:Hf; [intros [=]; subst; eauto | apply IH].
Qed.

(** X2.  When [cached_generate] ends in the [RetryError] of an exhausted
    retry, the dispatcher gave up: the cache and the files are as they were
    before the call, so no response of the batch was kept, not even those of
    the prompts that were answered. *)
Theorem dispatch_failure_stores_nothing :
  forall (batch_prompts : list prompt) (model_name : string) (model_url : arg)
         (cache : cache_arg) (cache_file : string)
         (generation_config : list (string * pyval)) (parallel_model_calls : bool)
         (w : world) (e : pyexn) (w' : world),
    cached_generate batch_prompts model_name model_url cache cache_file
      generation_config parallel_model_calls w = (Raise (RetryError e), w') ->
    w_cache w' = w_cache w /\ w_files w' = w_files w.
Proof.
  intros batch model url cache file cfg par w e w' Hrun.
  unfold cached_generate in Hrun.
  pose proof (preserves_reasoning_step same_store model batch cfg
                frame_same_store frame_heap_same_store w) as Hprep.
  apply bind_inv_Raise in Hrun as [Hrun|(cfg' & w1 & Hstep & Hrun)].
  { exfalso. destruct (startswith "o1" model); [|discriminate].
    apply bind_inv_Raise in Hrun as [Hrun|(a & w1 & _ & Hrun)]; [|discriminate].
    pose proof (raises_only_reasoning_rewrite batch w (RetryError e)) as Hr.
    rewrite Hrun in Hr. exact (data_error_not_retry _ (Hr eq_refl)). }
  rewrite Hstep in Hprep. simpl in Hprep.
  assert (Hgoal : same_store w1 w'); [|destruct Hprep, Hgoal; split; congruence].
  pose proof (preserves_model_call_wrapper same_store) as Hcall.
  unfold generate_with in Hrun. destruct cache.
  - apply bind_inv_Raise in Hrun as [Hrun|(r & w2 & _ & Hrun)]; [|discriminate].
    specialize (Hcall (ABatch batch) (AStr model) url cfg' par
                  frame_same_store frame_heap_same_store w1).
    now rewrite Hrun in Hcall.
  - apply bind_inv_Raise in Hrun as [Hrun|(new_batch & w2 & Hmiss & Hrun)].
    { exfalso. pose proof (raises_only_cache_misses model batch w1 (RetryError e)) as Hr.
      rewrite Hrun in Hr. exact (data_error_not_retry _ (Hr eq_refl)). }
    pose proof (reads_only_cache_misses model batch w1) as Hw2.
    rewrite Hmiss in Hw2. simpl in Hw2. subst w2.
    apply bind_inv_Raise in Hrun as [Hrun|(responses & w3 & _ & Hrun)].
    + specialize (Hcall (AStr model) url (ABatch new_batch) cfg' par
                    frame_same_store frame_heap_same_store w1).
      now rewrite Hrun in Hcall.
    + exfalso.
      pose proof (raises_only_after_dispatch batch new_batch model file responses w3
                    (RetryError e)) as Hr.
      rewrite Hrun in Hr. destruct (Hr eq_refl) as [Hd|Hd]; [|discriminate].
      exact (data_error_not_retry _ Hd).
Qed.

(** ** One response for each prompt sent *)

Lemma run_sequential_length get_response items :
  forall w rs w',
    run_sequential get_response items w = (Ok rs, w') -> length rs = length items.
Proof.
  induction items as [|m items IH]; intros w rs w' H; simpl in H.
  - now injection H as <- <-.
  - apply bind_inv_Ok in H as (r & w1 & _ & H).
    apply bind_inv_Ok in H as (rs' & w2 & Hrest & H). injection H as <- <-.
    simpl. f_equal. exact (IH _ _ _ Hrest).
Qed.

Lemma gather_length rs : forall vs, gather rs = Ok vs -> length vs = length rs.
Proof.
  induction rs as [|[v|e] rs IH]; intros vs H; simpl in H.
  - now injection H as <-.
  - destruct (gather rs) as [vs'|e]; [|discriminate]. injection H as <-.
    simpl. f_equal. now apply IH.
  - discriminate.
Qed.

Lemma run_workers_length get_response items :
  forall w, length (fst (run_workers get_response items w)) = length items.
Proof.
  induction items as [|m items IH]; intros w; simpl; [reflexivity|].
  destruct (get_response m w) as [r w1]. specialize (IH w1).
  destruct (run_workers get_response items w1) as [rs w2]. simpl in *. now f_equal.
Qed.

Lemma get_batch_responses_length par batch get_response w rs w' :
  get_batch_responses par batch get_response w = (Ok rs, w') ->
  length rs = length (arg_items batch).
Proof.
  unfold get_batch_responses.
  destruct (negb par || (length (arg_items batch) <=? 1)%nat).
  - apply run_sequential_length.
  - intros H. apply bind_inv_Ok in H as ([] & w1 & _ & H).
    pose proof (run_workers_length get_response (arg_items batch) w1) as Hlen.
    destruct (run_workers get_response (arg_items batch) w1) as [results w2].
    simpl in Hlen. injection H as H _. apply gather_length in H. congruence.
Qed.

Lemma batch_list_length par b get_response w v w' :
  (rs <- get_batch_responses par (ABatch b) get_response ;; ret (PList rs))%py w
  = (Ok v, w') ->
  exists rs, v = PList rs /\ length rs = length b.
Proof.
  intros H. apply bind_inv_Ok in H as (rs & w1 & Hrs & H). injection H as <- <-.
  exists rs. split; [reflexivity|]. apply get_batch_responses_length in Hrs.
  simpl in Hrs. now rewrite length_map in Hrs.
Qed.

(** What the dispatcher returns for a batch of prompts: [None] (no branch
    for the model name), or a list with one response for each prompt. *)
Lemma model_call_wrapper_returns name url b cfg par w v w' :
  model_call_wrapper (AStr name) url (ABatch b) cfg par w = (Ok v, w') ->
  v = PNone \/ exists rs, v = PList rs /\ length rs = length b.
Proof.
  unfold model_call_wrapper, retry. intros H.
  apply retry_from_Ok in H as (w0 & H). unfold model_call_wrapper_once in H.
  destruct (negb (arg_truthy (ABatch b))) eqn:Hb.
  { injection H as <- <-. right. exists []. split; [reflexivity|]. now destruct b. }
  destruct (dict_has name GPT_COSTS); [right; exact (batch_list_length _ _ _ _ _ _ H)|].
  destruct (contains "gemini" (lower name)); [right; exact (batch_list_length _ _ _ _ _ _ H)|].
  destruct (contains "gemma" (lower name)); [right; exact (batch_list_length _ _ _ _ _ _ H)|].
  destruct (in_claude_models name); [right; exact (batch_list_length _ _ _ _ _ _ H)|].
  injection H as <- <-. now left.
Qed.

Lemma after_dispatch_list_error batch new_batch model file rs :
  length rs = length new_batch ->
  raises_only data_error (after_dispatch batch new_batch model file (PList rs)).
Proof.
  intros Hlen. unfold after_dispatch.
  apply raises_only_bind; [intros w e; discriminate|]. intros rs'.
  apply raises_only_bind.
  { apply raises_only_for_each. intros pair. apply raises_only_persist_response. }
  intros _. unfold lift at 1. cbn [py_len].
  intros w e. unfold bind. rewrite Hlen, Nat.eqb_refl.
  pose proof (raises_only_collect_outputs model batch [] 0%float w e) as Hc.
  destruct (collect_outputs model batch [] 0%float w) as [[out|e0] w1]; simpl in *;
    [discriminate|]. intros [= <-]. now apply Hc.
Qed.

Lemma after_dispatch_none_error batch new_batch model file :
  raises_only data_error (after_dispatch batch new_batch model file PNone).
Proof. intros w e [= <-]. now left. Qed.

(** X3.  [cached_generate] never ends in [AssertionError]: the dispatcher
    returns one response for each prompt it was given, so the length
    assertion that follows the writes to the cache cannot fail; an assertion
    that fails inside a provider call is wrapped by the retry. *)
Theorem length_assertion_never_fails :
  forall (batch_prompts : list prompt) (model_name : string) (model_url : arg)
         (cache : cache_arg) (cache_file : string)
         (generation_config : list (string * pyval)) (parallel_model_calls : bool)
         (w : world),
    fst (cached_generate batch_prompts model_name model_url cache cache_file
           generation_config parallel_model_calls w) <> Raise AssertionError.
Proof.
  intros batch model url cache file cfg par w.
  destruct (cached_generate batch model url cache file cfg par w) as [r w'] eqn:Hrun.
  simpl. intros ->. unfold cached_generate in Hrun.
  apply bind_inv_Raise in Hrun as [Hrun|(cfg' & w1 & _ & Hrun)].
  { destruct (startswith "o1" model); [|discriminate].
    apply bind_inv_Raise in Hrun as [Hrun|(a & w1 & _ & Hrun)]; [|discriminate].
    pose proof (raises_only_reasoning_rewrite batch w AssertionError) as Hr.
    rewrite Hrun in Hr. exact (data_error_not_assertion _ (Hr eq_refl) eq_refl). }
  unfold generate_with in Hrun. destruct cache.
  - apply bind_inv_Raise in Hrun as [Hrun|(r & w2 & _ & Hrun)]; [|discriminate].
    unfold model_call_wrapper, retry in Hrun.
    apply retry_from_Raise in Hrun as (e0 & He0). discriminate.
  - apply bind_inv_Raise in Hrun as [Hrun|(new_batch & w2 & _ & Hrun)].
    { pose proof (raises_only_cache_misses model batch w1 AssertionError) as Hr.
      rewrite Hrun in Hr. exact (data_error_not_assertion _ (Hr eq_refl) eq_refl). }
    apply bind_inv_Raise in Hrun as [Hrun|(responses & w3 & Hcall & Hrun)].
    { unfold model_call_wrapper, retry in Hrun.
      apply retry_from_Raise in Hrun as (e0 & He0). discriminate. }
    assert (Herr : raises_only data_error
                     (after_dispatch batch new_batch model file responses)).
    { destruct (model_call_wrapper_returns _ _ _ _ _ _ _ _ Hcall) as [->|(rs & -> & Hlen)].
      - apply after_dispatch_none_error.
      - now apply after_dispatch_list_error. }
    specialize (Herr w3 AssertionError). rewrite Hrun in Herr.
    exact (data_error_not_assertion _ (Herr eq_refl) eq_refl).
Qed.

(** ** The texts that are returned *)

Lemma prompt_key_run p w : prompt_key p w = (Ok (key_of (w_heap w) p), w).
Proof. reflexivity. Qed.

Lemma extract_text_has_text model p w t w' :
  extract_text model (key_of (w_heap w) p) w = (Ok t, w') -> has_text model w p t.
Proof.
  unfold extract_text. intros H. apply bind_inv_Ok in H as (entry & w1 & Hentry & H).
  apply cache_getitem_Ok in Hentry as [-> Hentry]. exists entry. split; [exact Hentry|].
  unfold response_text. destruct (dict_has model GPT_COSTS).
  { now apply lift_Ok in H as [H _]. }
  destruct (in_claude_models model).
  { now apply lift_Ok in H as [H _]. }
  now injection H as <- _.
Qed.

Lemma collect_outputs_texts model batch :
  forall acc cost w out w',
    collect_outputs model batch acc cost w = (Ok out, w') ->
    exists texts, fst out = acc ++ texts /\ Forall2 (has_text model w) batch texts.
Proof.
  induction batch as [|p batch IH]; intros acc cost w out w' Hrun.
  - injection Hrun as <- <-. exists []. split; [now rewrite app_nil_r | constructor].
  - cbn [collect_outputs] in Hrun.
    apply bind_inv_Ok in Hrun as (k & w1 & Hk & Hrun).
    pose proof (reads_only_prompt_key p w) as Hw1. rewrite Hk in Hw1. simpl in Hw1. subst w1.
    assert (k = key_of (w_heap w) p) as -> by (now injection Hk as <-).
    apply bind_inv_Ok in Hrun as (text & w2 & Htext & Hrun).
    pose proof (reads_only_extract_text model (key_of (w_heap w) p) w) as Hw2.
    rewrite Htext in Hw2. simpl in Hw2. subst w2.
    apply bind_inv_Ok in Hrun as (cost1 & w3 & Hcost & Hrun).
    assert (w3 = w) as ->.
    { destruct (dict_get model GPT_COSTS) as [prices|].
      - pose proof (reads_only_add_costs (key_of (w_heap w) p) prices cost w) as Hw3.
        now rewrite Hcost in Hw3.
      - now injection Hcost as _ <-. }
    destruct (IH _ _ _ _ _ Hrun) as (texts & Hout & Hall).
    exists (text :: texts). split.
    + rewrite Hout. now rewrite <- app_assoc.
    + constructor; [exact (extract_text_has_text _ _ _ _ _ Htext) | exact Hall].
Qed.

(** X4.  When [cached_generate] returns texts and a cost, there is one text
    for each prompt of the batch, in the order of the batch, and each is read
    from the entry that the cache holds for its prompt when the call ends.
    So two prompts of the batch with the same key get the same text, also
    when both were sent and answered differently: the later response is the
    one the cache keeps. *)
Theorem texts_follow_batch :
  forall (batch_prompts : list prompt) (model_name : string) (model_url : arg)
         (cache_file : string) (generation_config : list (string * pyval))
         (parallel_model_calls : bool) (w : world)
         (texts : list pyval) (cost : float) (w' : world),
    cached_generate batch_prompts model_name model_url CacheDict cache_file
      generation_config parallel_model_calls w = (Ok (Texts texts cost), w') ->
    length texts = length batch_prompts
    /\ Forall2 (has_text model_name w') batch_prompts texts
    /\ (forall i j p q ti tj,
          batch_prompts !! i = Some p -> batch_prompts !! j = Some q ->
          key_of (w_heap w') p = key_of (w_heap w') q ->
          texts !! i = Some ti -> texts !! j = Some tj ->
          ti = tj).
Proof.
  intros batch model url file cfg par w texts cost w' Hrun.
  apply cached_generate_second_pass in Hrun.
  destruct (collect_outputs_texts _ _ _ _ _ _ _ Hrun) as (texts' & Hout & Hall).
  simpl in Hout. subst texts'.
  split; [symmetry; exact (Forall2_length _ _ _ Hall)|]. split; [exact Hall|].
  intros i j p q ti tj Hp Hq Hkey Hti Htj.
  destruct (Forall2_lookup_lr _ _ _ _ _ _ Hall Hp Hti) as (v & Hv & Ht).
  destruct (Forall2_lookup_lr _ _ _ _ _ _ Hall Hq Htj) as (v' & Hv' & Ht').
  rewrite Hkey in Hv. congruence.
Qed.

(** ** Calling again *)

Lemma has_text_not_miss model w p t : has_text model w p t -> miss model w p = false.
Proof.
  intros (v & Hv & Ht). unfold miss. rewrite Hv.
  destruct (dict_has model GPT_COSTS) eqn:Hcost; [|reflexivity].
  unfold response_text in Ht. rewrite Hcost in Ht.
  destruct v; try discriminate. simpl in Ht. unfold lacks_choices, dict_has.
  now destruct (dict_get "choices" d).
Qed.

Lemma deref_rewrite_one h l l' :
  deref (<[l := rewrite_turn (deref h l)]> h) l'
  = if Nat.eqb l' l then rewrite_turn (deref h l') else deref h l'.
Proof.
  pose proof (rewrite_locs_step l [] h) as Hs.
  rewrite rewrite_locs_nil in Hs. rewrite Hs, deref_rewrite_locs. simpl.
  now rewrite orb_false_r.
Qed.

Lemma system_to_user_Ok l w w1 :
  system_to_user l w = (Ok tt, w1) -> dict_has "role" (deref (w_heap w) l) = true.
Proof.
  unfold system_to_user, getitem, bind, read_turn, dict_has.
  now destruct (dict_get "role" (deref (w_heap w) l)).
Qed.

Lemma for_each_system_to_user_Ok ls :
  forall w w1,
    for_each system_to_user ls w = (Ok tt, w1) ->
    forall l, In l ls -> dict_has "role" (deref (w_heap w) l) = true.
Proof.
  induction ls as [|l0 ls IH]; intros w w1 Hrun l Hl; [destruct Hl|].
  simpl in Hrun. apply bind_inv_Ok in Hrun as ([] & w0 & Hstep & Hrun).
  pose proof (system_to_user_Ok _ _ _ Hstep) as Hrole.
  destruct Hl as [<-|Hl]; [exact Hrole|].
  rewrite system_to_user_spec in Hstep by exact Hrole. injection Hstep as <-.
  pose proof (IH _ _ Hrun l Hl) as Hl'. simpl in Hl'. rewrite deref_rewrite_one in Hl'.
  destruct (Nat.eqb l l0); [now rewrite rewrite_turn_has_role in Hl' | exact Hl'].
Qed.

(** A reasoning-model step that succeeds found a role in every turn. *)
Lemma reasoning_rewrite_Ok batch w w1 :
  reasoning_rewrite batch w = (Ok tt, w1) -> roles_present batch (w_heap w).
Proof.
  unfold reasoning_rewrite. rewrite for_each_concat. intros Hrun p l Hp Hl.
  apply (for_each_system_to_user_Ok _ _ _ Hrun). apply in_concat. eauto.
Qed.

Lemma preserves_store_only {A : Type} (m : M A) : store_only m -> preserves same_heap m.
Proof. intros H w. exact (proj1 (H w)). Qed.

(** With a cost-tracked model no turn is updated after the reasoning-model
    step. *)
Lemma generate_with_heap batch model url file cfg par w :
  dict_has model GPT_COSTS = true ->
  w_heap (snd (generate_with batch model url CacheDict file cfg par w)) = w_heap w.
Proof.
  intros Hcost. revert w. change (preserves same_heap
    (generate_with batch model url CacheDict file cfg par)).
  unfold generate_with.
  apply preserves_bind; [apply frame_same_heap | |].
  { apply preserves_reads_only; [apply frame_same_heap | apply reads_only_cache_misses]. }
  intros new_batch. apply preserves_bind; [apply frame_same_heap | |].
  { now apply preserves_openai_dispatch; [apply frame_same_heap|]. }
  intros responses. apply preserves_store_only, store_only_after_dispatch.
Qed.

Lemma has_texts_no_miss model w batch texts :
  Forall2 (has_text model w) batch texts ->
  forall p, In p batch -> miss model w p = false.
Proof.
  induction 1 as [|p t batch texts Hp Hrest IH]; intros q Hq; [destruct Hq|].
  destruct Hq as [<-|Hq]; [exact (has_text_not_miss _ _ _ _ Hp) | now apply IH].
Qed.

(** X5.  A call of [cached_generate] that returned texts and a cost can be
    repeated for nothing: called again with the same arguments in the world
    it left, it returns the same texts and the same cost and leaves the world
    as it is (no network call, no cache update, no write).  Stated for the
    model names that start with [o1] only when they are cost-tracked, as
    [o1] and [o1-preview] are. *)
Theorem second_call_is_free :
  forall (batch_prompts : list prompt) (model_name : string) (model_url : arg)
         (cache_file : string) (generation_config : list (string * pyval))
         (parallel_model_calls : bool) (w : world)
         (texts : list pyval) (cost : float) (w1 : world),
    (startswith "o1" model_name = true -> dict_has model_name GPT_COSTS = true) ->
    cached_generate batch_prompts model_name model_url CacheDict cache_file
      generation_config parallel_model_calls w = (Ok (Texts texts cost), w1) ->
    cached_generate batch_prompts model_name model_url CacheDict cache_file
      generation_config parallel_model_calls w1 = (Ok (Texts texts cost), w1).
Proof.
  intros batch model url file cfg par w texts cost w1 Ho1 Hrun.
  pose proof (cached_generate_second_pass _ _ _ _ _ _ _ _ _ _ Hrun) as Hpass.
  destruct (collect_outputs_texts _ _ _ _ _ _ _ Hpass) as (texts' & _ & Hall).
  pose proof (has_texts_no_miss _ _ _ _ Hall) as Hwarm.
  assert (Hprep : prepared model batch w1 = w1
                  /\ (startswith "o1" model = true -> roles_present batch (w_heap w1))).
  { unfold prepared. destruct (startswith "o1" model) eqn:Hname; [|now split].
    unfold cached_generate in Hrun. rewrite Hname in Hrun.
    apply bind_inv_Ok in Hrun as (cfg' & w0 & Hstep & Hrun).
    apply bind_inv_Ok in Hstep as ([] & w0' & Hstep & Hret). injection Hret as <- <-.
    pose proof (reasoning_rewrite_Ok _ _ _ Hstep) as Hroles.
    rewrite reasoning_rewrite_spec in Hstep by exact Hroles. injection Hstep as <-.
    pose proof (generate_with_heap batch model url file [] par
                  (set_heap (rewritten batch (w_heap w)) w) (Ho1 eq_refl)) as Hheap.
    rewrite Hrun in Hheap. simpl in Hheap. split.
    - rewrite Hheap. unfold rewritten in *. rewrite rewrite_locs_idem, <- Hheap.
      apply set_heap_same.
    - intros _. rewrite Hheap. now apply roles_present_rewritten. }
  destruct Hprep as [Hprep Hroles].
  rewrite cached_generate_prepared by exact Hroles. rewrite Hprep.
  rewrite generate_with_warm by exact Hwarm. now rewrite Hpass.
Qed.

(** X21.  For a cost-tracked model whose name does not start with [o1]
    (as [gpt-4o]), [cached_generate] never updates a turn of the caller,
    with or without a cache and whatever the outcome: the prompts, and so
    their cache keys, are after the call what they were before it. *)
Theorem cost_tracked_call_keeps_prompts :
  forall (batch_prompts : list prompt) (model_name : string) (model_url : arg)
         (cache : cache_arg) (cache_file : string)
         (generation_config : list (string * pyval)) (parallel_model_calls : bool)
         (w : world),
    dict_has model_name GPT_COSTS = true ->
    startswith "o1" model_name = false ->
    w_heap (snd (cached_generate batch_prompts model_name model_url cache cache_file
                   generation_config parallel_model_calls w)) = w_heap w
    /\ forall p, In p batch_prompts ->
         key_of (w_heap (snd (cached_generate batch_prompts model_name model_url cache
                                cache_file generation_config parallel_model_calls w))) p
         = key_of (w_heap w) p.
Proof.
  intros batch model url cache file cfg par w Hcost Ho1.
  assert (Hheap : w_heap (snd (cached_generate batch model url cache file cfg par w))
                  = w_heap w).
  { unfold cached_generate. rewrite Ho1. unfold bind at 1. unfold ret at 1.
    destruct cache; [|now apply generate_with_heap].
    unfold generate_with. revert w.
    change (preserves same_heap
              (r <- model_call_wrapper (ABatch batch) (AStr model) url cfg par ;;
               ret (Raw r))).
    apply preserves_bind; [apply frame_same_heap | |].
    - unfold model_call_wrapper, retry.
      apply preserves_retry_from; [apply frame_same_heap|].
      unfold model_call_wrapper_once.
      destruct (negb (arg_truthy url));
        [apply preserves_ret | apply preserves_raise]; apply frame_same_heap.
    - intros r. apply preserves_ret, frame_same_heap. }
  split; [exact Hheap|]. intros p _. now rewrite Hheap.
Qed.

(** ** Models without a branch, and the uncached call with no url *)

(** The cost-tracked names are not names of Gemini or Gemma models. *)
Lemma cost_tracked_name name :
  dict_has name GPT_COSTS = true ->
  contains "gemini" (lower name) = false /\ contains "gemma" (lower name) = false.
Proof.
  unfold dict_has, GPT_COSTS. cbn [dict_get].
  destruct (String.eqb_spec name "gpt-4o") as [->|_]; [intros _; now vm_compute|].
  destruct (String.eqb_spec name "o1-preview") as [->|_]; [intros _; now vm_compute|].
  destruct (String.eqb_spec name "o1") as [->|_]; [intros _; now vm_compute|].
  discriminate.
Qed.

Lemma gemini_name name :
  contains "gemini" (lower name) = true -> dict_has name GPT_COSTS = false.
Proof.
  intros Hgemini. destruct (dict_has name GPT_COSTS) eqn:Hcost; [|reflexivity].
  destruct (cost_tracked_name name Hcost) as [H _]. congruence.
Qed.

Lemma gemma_name name :
  contains "gemma" (lower name) = true -> dict_has name GPT_COSTS = false.
Proof.
  intros Hgemma. destruct (dict_has name GPT_COSTS) eqn:Hcost; [|reflexivity].
  destruct (cost_tracked_name name Hcost) as [_ H]. congruence.
Qed.

Lemma model_call_wrapper_no_branch name url batch cfg par w :
  dict_has name GPT_COSTS = false ->
  contains "gemini" (lower name) = false ->
  contains "gemma" (lower name) = false ->
  in_claude_models name = false ->
  model_call_wrapper (AStr name) url (ABatch batch) cfg par w
  = (Ok (match batch with [] => PList [] | _ => PNone end), w).
Proof.
  intros Hcost Hgemini Hgemma Hclaude.
  unfold model_call_wrapper, retry, model_call_wrapper_once.
  destruct batch as [|p batch]; [reflexivity|].
  cbn [arg_truthy negb]. rewrite Hcost, Hgemini, Hgemma, Hclaude. reflexivity.
Qed.

Lemma filter_In_nonempty {A : Type} (f : A -> bool) l x :
  In x l -> f x = true -> List.filter f l <> [].
Proof.
  intros Hx Hf Hnil. assert (Hin : In x (List.filter f l)) by (apply filter_In; now split).
  rewrite Hnil in Hin. destruct Hin.
Qed.

(** X6.  With a cache and a model name that no branch of the dispatcher
    takes, a batch that has a miss makes [cached_generate] raise [TypeError]
    (the dispatcher returned [None], which [zip] cannot iterate): nothing was
    sent, stored or written, the world is the one the reasoning-model step
    left. *)
Theorem unknown_model_with_miss_raises :
  forall (batch_prompts : list prompt) (model_name : string) (model_url : arg)
         (cache_file : string) (generation_config : list (string * pyval))
         (parallel_model_calls : bool) (w : world) (p : prompt),
    dict_has model_name GPT_COSTS = false ->
    contains "gemini" (lower model_name) = false ->
    contains "gemma" (lower model_name) = false ->
    in_claude_models model_name = false ->
    (startswith "o1" model_name = true -> roles_present batch_prompts (w_heap w)) ->
    let w1 := prepared model_name batch_prompts w in
    In p batch_prompts ->
    w_cache w1 !! key_of (w_heap w1) p = None ->
    cached_generate batch_prompts model_name model_url CacheDict cache_file
      generation_config parallel_model_calls w = (Raise TypeError, w1)
    /\ w_log w1 = w_log w /\ w_cache w1 = w_cache w /\ w_files w1 = w_files w.
Proof.
  intros batch model url file cfg par w p Hcost Hgemini Hgemma Hclaude Hroles w1 Hp Hnone.
  split; [|apply prepared_frame].
  rewrite cached_generate_prepared by exact Hroles. fold w1.
  rewrite generate_with_cached. unfold bind at 1.
  rewrite cache_misses_spec by (rewrite Hcost; discriminate).
  assert (Hne : List.filter (miss model w1) batch <> []).
  { apply (filter_In_nonempty _ _ p Hp). unfold miss. now rewrite Hnone. }
  unfold bind at 1. rewrite model_call_wrapper_no_branch by assumption.
  destruct (List.filter (miss model w1) batch); [congruence | reflexivity].
Qed.

(** X7.  Without a cache and with an empty url (or none), [cached_generate]
    returns the empty list whatever the batch: the url is what the
    dispatcher receives as its batch, and an empty batch is answered at once.
    Nothing is sent. *)
Theorem no_cache_empty_url_returns_nothing :
  forall (batch_prompts : list prompt) (model_name : string) (model_url : arg)
         (cache_file : string) (generation_config : list (string * pyval))
         (parallel_model_calls : bool) (w : world),
    arg_truthy model_url = false ->
    (startswith "o1" model_name = true -> roles_present batch_prompts (w_heap w)) ->
    cached_generate batch_prompts model_name model_url CacheNone cache_file
      generation_config parallel_model_calls w
    = (Ok (Raw (PList [])), prepared model_name batch_prompts w)
    /\ w_log (prepared model_name batch_prompts w) = w_log w.
Proof.
  intros batch model url file cfg par w Hurl Hroles.
  split; [|apply prepared_frame].
  rewrite cached_generate_prepared by exact Hroles.
  unfold generate_with, bind, model_call_wrapper, retry, model_call_wrapper_once.
  rewrite Hurl. reflexivity.
Qed.

(** X17.  For a model name that starts with [o1], a turn without a role
    anywhere in the batch makes [cached_generate] raise [KeyError] in its
    first loop, with or without a cache: nothing is looked up, sent, stored
    or written; only turns can have changed (those rewritten before the
    loop reached the turn). *)
Theorem reasoning_model_missing_role :
  forall (batch_prompts : list prompt) (model_name : string) (model_url : arg)
         (cache : cache_arg) (cache_file : string)
         (generation_config : list (string * pyval)) (parallel_model_calls : bool)
         (w : world) (p : prompt) (l : loc),
    startswith "o1" model_name = true ->
    In p batch_prompts -> In l p ->
    dict_has "role" (deref (w_heap w) l) = false ->
    exists w',
      cached_generate batch_prompts model_name model_url cache cache_file
        generation_config parallel_model_calls w = (Raise KeyError, w')
      /\ w' = set_heap (w_heap w') w.
Proof.
  intros batch model url cache file cfg par w p l Ho1 Hp Hl Hmissing.
  unfold cached_generate. rewrite Ho1.
  pose proof (reasoning_rewrite_outcome batch w) as Hout.
  pose proof (heap_only_reasoning_rewrite batch w) as Hheap.
  destruct (reasoning_rewrite batch w) as [[[]|e] w1] eqn:Hstep; simpl in Hout, Hheap.
  - apply reasoning_rewrite_Ok in Hstep. rewrite (Hstep p l Hp Hl) in Hmissing.
    discriminate.
  - destruct Hout as [Hout|Hout]; [discriminate|]. injection Hout as ->.
    exists w1. split; [|exact Hheap]. unfold bind. now rewrite Hstep.
Qed.

(** ** A cached value that is not a response *)

(** X22.  For a cost-tracked model, a cached value that is not a JSON
    object is never used as a response, but it is not always a miss either.
    [None], a boolean or a number makes the membership test raise; a string
    that contains [choices], or a list that has it as an element, passes the
    test as a hit and then cannot be indexed.  Either way a call for that
    prompt alone raises [TypeError], and nothing is sent, stored or written.
    (Only a string or a list without [choices] is a miss.) *)
Theorem cached_non_object_raises :
  forall (p : prompt) (model_name : string) (model_url : arg) (cache_file : string)
         (generation_config : list (string * pyval)) (parallel_model_calls : bool)
         (w : world) (v : pyval),
    dict_has model_name GPT_COSTS = true ->
    (startswith "o1" model_name = true -> roles_present [p] (w_heap w)) ->
    let w1 := prepared model_name [p] w in
    w_cache w1 !! key_of (w_heap w1) p = Some v ->
    is_object v = false ->
    py_contains "choices" v <> Ok false ->
    cached_generate [p] model_name model_url CacheDict cache_file generation_config
      parallel_model_calls w = (Raise TypeError, w1)
    /\ w_log w1 = w_log w /\ w_cache w1 = w_cache w /\ w_files w1 = w_files w.
Proof.
  intros p model url file cfg par w v Hcost Hroles w1 Hv Hobj Hin.
  split; [|apply prepared_frame].
  rewrite cached_generate_prepared by exact Hroles. fold w1.
  rewrite generate_with_cached. cbn [cache_misses].
  unfold bind at 1. unfold bind at 1. unfold is_cache_miss.
  unfold bind at 1. rewrite prompt_key_run.
  unfold bind at 1. unfold cache_get at 1. rewrite Hv, Hcost.
  destruct (py_contains "choices" v) as [[|]|e] eqn:Hc.
  - unfold bind at 1. unfold lift at 1. unfold ret at 1. cbn [negb].
    unfold bind at 1. unfold ret at 1. unfold ret at 1.
    unfold bind at 1. rewrite model_call_wrapper_nil.
    unfold after_dispatch. unfold bind at 1. unfold lift at 1. cbn [py_iter combine for_each].
    unfold bind at 1. unfold ret at 1.
    unfold bind at 1. unfold lift at 1. cbn [py_len length Nat.eqb].
    cbn [collect_outputs]. unfold bind at 1. unfold bind at 1. rewrite prompt_key_run.
    unfold bind at 1. unfold extract_text. unfold bind at 1.
    unfold cache_getitem, bind, cache_get. rewrite Hv. unfold ret. rewrite Hcost.
    unfold lift. now destruct v.
  - congruence.
  - unfold bind at 1. unfold lift at 1.
    destruct v; simpl in Hc; try discriminate; now injection Hc as <-.
Qed.

(** ** Retries: what is returned, when, and at what price *)

Lemma request_once_accepted hd field url data w :
  reply_fails field (http (w_log w) url hd data) = false ->
  exists r,
    http (w_log w) url hd data = HttpBody (Some r)
    /\ py_contains field r = Ok true
    /\ request_once hd field url data w = (Ok r, log (EvPost url hd data) w).
Proof.
  intros Hreply. unfold request_once, bind, requests_post.
  destruct (http (w_log w) url hd data) as [|[v|]]; simpl in *; try discriminate.
  destruct (py_contains field v) as [[|]|e] eqn:Hfield; try discriminate.
  exists v. rewrite Hfield. now repeat split.
Qed.

Lemma request_once_rejected hd field url data w :
  reply_fails field (http (w_log w) url hd data) = true ->
  exists e w',
    request_once hd field url data w = (Raise e, w')
    /\ posts (w_log w') = EvPost url hd data :: posts (w_log w)
    /\ sleeps (w_log w') = sleeps (w_log w).
Proof.
  intros Hreply. unfold request_once, bind, requests_post.
  destruct (http (w_log w) url hd data) as [|[v|]]; simpl in *.
  - eexists _, _. split; [reflexivity|]. now split.
  - destruct (py_contains field v) as [[|]|e]; [discriminate| |];
      (eexists _, _; split; [reflexivity|]; now split).
  - eexists _, _. split; [reflexivity|]. now split.
Qed.

Lemma request_once_Ok hd field url data w r w' :
  request_once hd field url data w = (Ok r, w') ->
  http (w_log w) url hd data = HttpBody (Some r)
  /\ py_contains field r = Ok true
  /\ w' = log (EvPost url hd data) w.
Proof.
  unfold request_once, bind, requests_post.
  destruct (http (w_log w) url hd data) as [|[v|]]; simpl; try discriminate.
  destruct (py_contains field v) as [[|]|e] eqn:Hfield; simpl; try discriminate.
  intros [= <- <-]. now repeat split.
Qed.

Lemma request_once_log hd field url data w :
  posts (w_log (snd (request_once hd field url data w)))
  = EvPost url hd data :: posts (w_log w)
  /\ sleeps (w_log (snd (request_once hd field url data w))) = sleeps (w_log w).
Proof.
  destruct (reply_fails field (http (w_log w) url hd data)) eqn:Hreply.
  - destruct (request_once_rejected hd field url data w Hreply) as (e & w' & -> & H).
    exact H.
  - destruct (request_once_accepted hd field url data w Hreply) as (r & _ & _ & ->).
    now split.
Qed.

(** A response that comes out of the retried request passed the check of
    the attempt that returned it. *)
Lemma request_retry_Ok hd field url data wait :
  forall n k w r w',
    retry_from wait k n (request_once hd field url data) w = (Ok r, w') ->
    py_contains field r = Ok true
    /\ exists j w0,
         j <= n
         /\ http (w_log w0) url hd data = HttpBody (Some r)
         /\ w' = log (EvPost url hd data) w0
         /\ posts (w_log w') = repeat (EvPost url hd data) (S j) ++ posts (w_log w)
         /\ sleeps (w_log w') = List.rev (map (EvSleep wait) (seq k j)) ++ sleeps (w_log w).
Proof.
  induction n as [|n IH]; intros k w r w' Hrun; simpl in Hrun.
  - destruct (request_once hd field url data w) as [[a|e] w1] eqn:Hstep; [|discriminate].
    injection Hrun as <- <-. apply request_once_Ok in Hstep as (Hreply & Hfield & ->).
    split; [exact Hfield|]. exists 0, w. now repeat split.
  - pose proof (request_once_log hd field url data w) as [Hposts Hsleeps].
    destruct (request_once hd field url data w) as [[a|e] w1] eqn:Hstep.
    + injection Hrun as <- <-. apply request_once_Ok in Hstep as (Hreply & Hfield & ->).
      split; [exact Hfield|]. exists 0, w. split; [lia|]. now repeat split.
    + simpl in Hposts, Hsleeps.
      destruct (IH _ _ _ _ Hrun) as (Hfield & j & w0 & Hj & Hreply & Hw' & Hp & Hs).
      split; [exact Hfield|]. exists (S j), w0. split; [lia|].
      split; [exact Hreply|]. split; [exact Hw'|]. simpl in Hp, Hs. split.
      * rewrite Hp, Hposts. apply (repeat_snoc_app _ (S j)).
      * rewrite Hs, Hsleeps. simpl. now rewrite <- app_assoc.
Qed.

(** X8.  A response that [openai_request] returns holds [choices] (as a key
    of an object, an element of a list or a part of a string), and one that
    [claude_request] returns holds [content]: it is the decoded body of the
    last post, which is attempt [j + 1 <= 10]; the [j] attempts before it
    failed, each followed by one sleep. *)
Theorem returned_response_was_checked :
  (forall url data w r w',
     openai_request url data w = (Ok r, w') ->
     py_contains "choices" r = Ok true
     /\ exists j w0,
          j <= 9
          /\ http (w_log w0) url OPENAI_HEADER data = HttpBody (Some r)
          /\ w' = log (EvPost url OPENAI_HEADER data) w0
          /\ posts (w_log w')
             = repeat (EvPost url OPENAI_HEADER data) (S j) ++ posts (w_log w)
          /\ sleeps (w_log w')
             = List.rev (map (EvSleep (wait_random_exponential 1 60)) (seq 1 j))
               ++ sleeps (w_log w))
  /\ (forall url data w r w',
        claude_request url data w = (Ok r, w') ->
        py_contains "content" r = Ok true
        /\ exists j w0,
             j <= 9
             /\ http (w_log w0) url ANTHROPIC_HEADER data = HttpBody (Some r)
             /\ w' = log (EvPost url ANTHROPIC_HEADER data) w0
             /\ posts (w_log w')
                = repeat (EvPost url ANTHROPIC_HEADER data) (S j) ++ posts (w_log w)
             /\ sleeps (w_log w')
                = List.rev (map (EvSleep (wait_random_exponential 1 60)) (seq 1 j))
                  ++ sleeps (w_log w)).
Proof.
  split; intros url data w r w' Hrun.
  - exact (request_retry_Ok OPENAI_HEADER "choices" url data _ 9 1 w r w' Hrun).
  - exact (request_retry_Ok ANTHROPIC_HEADER "content" url data _ 9 1 w r w' Hrun).
Qed.

Lemma answers_after_next field base k :
  answers_after field base (S k) -> answers_after field (S base) k.
Proof.
  intros H lg url hd data. destruct (H lg url hd data) as [Hfail Hok]. split.
  - intros Hlt. apply Hfail. lia.
  - intros Heq. apply Hok. lia.
Qed.

Lemma request_retry_recovers hd field url data wait :
  forall k n a w,
    k <= n ->
    answers_after field (length (posts (w_log w))) k ->
    exists r w',
      retry_from wait a n (request_once hd field url data) w = (Ok r, w')
      /\ py_contains field r = Ok true
      /\ posts (w_log w') = repeat (EvPost url hd data) (S k) ++ posts (w_log w)
      /\ sleeps (w_log w') = List.rev (map (EvSleep wait) (seq a k)) ++ sleeps (w_log w).
Proof.
  induction k as [|k IH]; intros n a w Hk Hservice.
  - destruct (Hservice (w_log w) url hd data) as [_ Hok].
    destruct (request_once_accepted hd field url data w) as (r & _ & Hfield & Hrun).
    { apply Hok. lia. }
    exists r, (log (EvPost url hd data) w).
    split; [now apply retry_first_attempt|]. now repeat split.
  - destruct n as [|n]; [lia|].
    destruct (Hservice (w_log w) url hd data) as [Hfail _].
    destruct (request_once_rejected hd field url data w) as (e & w1 & Hrun & Hposts & Hsleeps).
    { apply Hfail. lia. }
    destruct (IH n (S a) (log (EvSleep wait a) w1)) as (r & w' & Hretry & Hfield & Hp & Hs).
    { lia. }
    { simpl. rewrite Hposts. simpl. now apply answers_after_next. }
    exists r, w'. simpl retry_from. rewrite Hrun. split; [exact Hretry|].
    split; [exact Hfield|]. simpl in Hp, Hs. split.
    + rewrite Hp, Hposts. apply (repeat_snoc_app _ (S k)).
    + rewrite Hs, Hsleeps. simpl. now rewrite <- app_assoc.
Qed.

(** X9.  When the service rejects the next [k < 10] posts and accepts the
    one after them, [openai_request] returns that response after exactly
    [k + 1] posts and [k] sleeps, numbered from 1: failures that pass are not
    seen by the caller. *)
Theorem transient_failures_are_retried :
  forall (k : nat) (url : arg) (data : pyval) (w : world),
    k < 10 ->
    answers_after "choices" (length (posts (w_log w))) k ->
    exists r w',
      openai_request url data w = (Ok r, w')
      /\ py_contains "choices" r = Ok true
      /\ posts (w_log w') = repeat (EvPost url OPENAI_HEADER data) (S k) ++ posts (w_log w)
      /\ sleeps (w_log w')
         = List.rev (map (EvSleep (wait_random_exponential 1 60)) (seq 1 k))
           ++ sleeps (w_log w).
Proof.
  intros k url data w Hk Hservice. unfold openai_request, retry.
  apply request_retry_recovers; [simpl; lia | exact Hservice].
Qed.

(** *** Both layers exhausted *)

Lemma openai_response_exhausted name url cfg m w :
  always_fails "choices" ->
  exists e w',
    openai_response name url cfg m w = (Raise (RetryError e), w')
    /\ length (posts (w_log w')) = 10 + length (posts (w_log w)).
Proof.
  intros Hfail. unfold openai_response, bind.
  assert (Hvalue : exists v, messages_value m w = (Ok v, w)).
  { destruct m; eexists; reflexivity. }
  destruct Hvalue as (v & ->). unfold openai_request, retry.
  destruct (request_retry_exhausted OPENAI_HEADER "choices" url
              (request_data name v cfg) (wait_random_exponential 1 60) Hfail 9 1 w)
    as (e & w9 & w' & Hrun & _ & _ & Hposts & _).
  exists e, w'. split; [exact Hrun|]. rewrite Hposts, length_app, repeat_length. reflexivity.
Qed.

Lemma run_workers_exhausted name url cfg items :
  always_fails "choices" ->
  forall w, exists rs w',
    run_workers (openai_response name url cfg) items w = (rs, w')
    /\ length (posts (w_log w')) = 10 * length items + length (posts (w_log w))
    /\ (items <> [] -> exists e, gather rs = Raise (RetryError e)).
Proof.
  intros Hfail. induction items as [|m items IH]; intros w.
  - exists [], w. split; [reflexivity|]. split; [reflexivity | congruence].
  - destruct (openai_response_exhausted name url cfg m w Hfail) as (e & w1 & Hrun & Hposts).
    destruct (IH w1) as (rs & w' & Hrest & Hposts' & _).
    exists (Raise (RetryError e) :: rs), w'. simpl. rewrite Hrun, Hrest.
    split; [reflexivity|]. split; [simpl in *; lia | eauto].
Qed.

Lemma posts_pool n w : posts (w_log (log (EvPool n) w)) = posts (w_log w).
Proof. reflexivity. Qed.

Lemma dispatch_round_exhausted name url cfg par batch w :
  always_fails "choices" ->
  dict_has name GPT_COSTS = true ->
  batch <> [] ->
  exists e w',
    model_call_wrapper_once (AStr name) url (ABatch batch) cfg par w
    = (Raise (RetryError e), w')
    /\ length (posts (w_log w')) = 10 * attempted par batch + length (posts (w_log w)).
Proof.
  intros Hfail Hcost Hne. destruct batch as [|p ps]; [congruence|].
  unfold model_call_wrapper_once, attempted. cbn [arg_truthy negb]. rewrite Hcost.
  unfold get_batch_responses. cbn [arg_items]. rewrite length_map.
  destruct (negb par || (length (p :: ps) <=? 1)%nat).
  - destruct (openai_response_exhausted name url cfg (MPrompt p) w Hfail)
      as (e & w' & Hrun & Hposts).
    exists e, w'. split; [|lia]. cbn [map run_sequential]. unfold bind. now rewrite Hrun.
  - destruct (run_workers_exhausted name url cfg (map MPrompt (p :: ps)) Hfail
                (log (EvPool (length (p :: ps))) w)) as (rs & w' & Hrun & Hposts & Hgather).
    destruct Hgather as (e & Hgather); [discriminate|].
    exists e, w'. split.
    + unfold bind, emit. rewrite Hrun, Hgather. reflexivity.
    + rewrite Hposts, length_map, posts_pool. reflexivity.
Qed.

Lemma retry_from_exhausted {A : Type} wait (f : M A) (Q : pyexn -> Prop) c :
  (forall w, exists e w',
     f w = (Raise e, w') /\ Q e
     /\ length (posts (w_log w')) = c + length (posts (w_log w))) ->
  forall n k w, exists e w',
    retry_from wait k n f w = (Raise (RetryError e), w') /\ Q e
    /\ length (posts (w_log w')) = S n * c + length (posts (w_log w)).
Proof.
  intros Hf. induction n as [|n IH]; intros k w.
  - destruct (Hf w) as (e & w' & Hrun & HQ & Hposts).
    exists e, w'. simpl. rewrite Hrun. split; [reflexivity|]. split; [exact HQ | lia].
  - destruct (Hf w) as (e1 & w1 & Hrun & _ & Hposts).
    destruct (IH (S k) (log (EvSleep wait k) w1)) as (e & w' & Hretry & HQ & Hposts').
    exists e, w'. simpl retry_from. rewrite Hrun. split; [exact Hretry|].
    split; [exact HQ|]. simpl in Hposts'. rewrite Hposts', Hposts. simpl. lia.
Qed.

(** X10.  The two retries multiply.  When the service of a cost-tracked
    model always fails, [model_call_wrapper] makes ten rounds, and in each
    round every prompt that is attempted is posted ten times: one hundred
    posts for a batch sent one prompt after the other (only the first is
    attempted), one hundred for each prompt of a batch sent by a pool.  The
    call ends in a [RetryError] that carries the [RetryError] of a provider
    call, after nine sleeps of twenty seconds of its own. *)
Theorem nested_retries_multiply :
  forall (name : string) (url : arg) (batch : list prompt)
         (cfg : list (string * pyval)) (par : bool) (w : world),
    always_fails "choices" ->
    dict_has name GPT_COSTS = true ->
    batch <> [] ->
    exists e w',
      model_call_wrapper (AStr name) url (ABatch batch) cfg par w
      = (Raise (RetryError (RetryError e)), w')
      /\ length (posts (w_log w'))
         = 100 * attempted par batch + length (posts (w_log w))
      /\ fixed_waits (w_log w')
         = List.rev (map (EvSleep (wait_fixed 20)) (seq 1 9)) ++ fixed_waits (w_log w).
Proof.
  intros name url batch cfg par w Hfail Hcost Hne. unfold model_call_wrapper, retry.
  destruct (retry_from_exhausted (wait_fixed 20)
              (model_call_wrapper_once (AStr name) url (ABatch batch) cfg par)
              (fun e => exists e0, e = RetryError e0) (10 * attempted par batch))
    with (n := 9) (k := 1) (w := w) as (e & w' & Hrun & (e0 & ->) & Hposts).
  { intros w0.
    destruct (dispatch_round_exhausted name url cfg par batch w0 Hfail Hcost Hne)
      as (e & w' & Hrun & Hposts).
    exists (RetryError e), w'. split; [exact Hrun|]. split; [eauto | exact Hposts]. }
  exists e0, w'. simpl Nat.sub. split; [exact Hrun|]. split; [lia|].
  destruct (retry_from_fixed_waits
              (model_call_wrapper_once (AStr name) url (ABatch batch) cfg par) 20
              (emits_only_model_call_wrapper_once _ _ _ _ _) 9 1 w) as (j & _ & Hwaits & Hj).
  rewrite Hrun in Hwaits, Hj. simpl in Hwaits, Hj.
  destruct (Hj _ eq_refl) as [-> _]. exact Hwaits.
Qed.

(** ** process_gemma_messages and the caller's messages *)

Lemma content_updates_refl ms h : content_updates ms h h.
Proof. split; [lia|]. now intros l Hl. Qed.

Lemma content_updates_trans ms h1 h2 h3 :
  content_updates ms h1 h2 -> content_updates ms h2 h3 -> content_updates ms h1 h3.
Proof.
  intros [Hlen H12] [Hlen' H23]. split; [lia|]. intros l Hl.
  destruct (H12 l Hl) as [Hk Hsame]. destruct (H23 l ltac:(lia)) as [Hk' Hsame'].
  split.
  - intros k Hne. now rewrite Hk', Hk.
  - intros Hprot. rewrite Hsame', Hsame; [reflexivity | exact Hprot |].
    destruct Hprot as [Hout|Hsys]; [now left | right].
    rewrite Hk by discriminate. exact Hsys.
Qed.

Lemma content_updates_alloc ms (h : list (list (string * string))) more :
  content_updates ms h (h ++ more).
Proof.
  split; [rewrite length_app; lia|]. intros l Hl.
  assert (Hd : deref (h ++ more) l = deref h l).
  { unfold deref. now rewrite lookup_app_l. }
  rewrite Hd. now split.
Qed.

Lemma content_updates_set ms h0 (h : list (list (string * string))) prev c :
  content_updates ms h0 h -> updatable ms h0 prev ->
  content_updates ms h0 (<[prev := dict_set "content" c (deref h prev)]> h).
Proof.
  intros [Hlen H] Hprev. split; [now rewrite length_insert|]. intros l Hl.
  destruct (H l Hl) as [Hk Hsame]. destruct (Nat.eq_dec prev l) as [->|Hne].
  - rewrite deref_insert_eq by lia. split.
    + intros k Hne. rewrite dict_get_set_ne by exact Hne. now apply Hk.
    + intros Hprot. exfalso. destruct Hprev as [Hnew|[Hin Hrole]]; [lia|].
      destruct Hprot as [Hout|Hsys]; [now apply Hout | now apply Hrole].
  - rewrite deref_insert_ne by exact Hne. now split.
Qed.

Lemma updatable_last ms h0 processed prev :
  Forall (updatable ms h0) processed -> last processed = Some prev -> updatable ms h0 prev.
Proof.
  intros Hall Hlast. apply last_Some in Hlast as (front & ->).
  apply Forall_app in Hall as [_ Hall]. now inversion Hall.
Qed.

Lemma ensures_ret {A : Type} (I : world -> Prop) (Q : A -> Prop) (a : A) :
  Q a -> ensures I Q (ret a).
Proof. intros Ha w Hw. split; [exact Hw|]. now intros a' [= <-]. Qed.

Lemma ensures_raise {A : Type} (I : world -> Prop) (Q : A -> Prop) e :
  ensures I Q (@raise A e).
Proof. intros w Hw. split; [exact Hw | discriminate]. Qed.

Lemma ensures_bind {A B : Type} (I : world -> Prop) (P : A -> Prop) (Q : B -> Prop)
  (m : M A) (k : A -> M B) :
  ensures I P m -> (forall a, P a -> ensures I Q (k a)) -> ensures I Q (bind m k).
Proof.
  intros Hm Hk w Hw. unfold bind. destruct (Hm w Hw) as [Hw1 Ha].
  destruct (m w) as [[a|e] w1]; simpl in *; [|split; [exact Hw1 | discriminate]].
  exact (Hk a (Ha a eq_refl) w1 Hw1).
Qed.

Lemma ensures_reads_only {A : Type} (I : world -> Prop) (m : M A) :
  reads_only m -> ensures I (fun _ => True) m.
Proof. intros Hm w Hw. rewrite (Hm w). now split. Qed.

Section GemmaUpdates.
Variable ms : list nat.
Variable h0 : list (list (string * string)).

Local Abbreviation inv := (merge_inv ms h0).

Lemma ensures_role m :
  In m ms ->
  ensures inv (fun role => String.eqb role "system" = false -> updatable ms h0 m)
    (getitem "role" m).
Proof.
  intros Hm w Hw. rewrite (reads_only_getitem "role" m w). split; [exact Hw|].
  intros role Hrole Hsys. unfold getitem, bind, read_turn in Hrole.
  destruct (dict_get "role" (deref (w_heap w) m)) as [r|] eqn:Hr; [|discriminate].
  injection Hrole as ->.
  destruct (Nat.lt_ge_cases m (length h0)) as [Hlt|Hge]; [right | now left].
  split; [exact Hm|]. destruct Hw as [_ Hw]. destruct (Hw m Hlt) as [Hk _].
  rewrite <- (Hk "role") by discriminate. rewrite Hr. intros [= ->]. discriminate.
Qed.

Lemma ensures_new_turn t : ensures inv (updatable ms h0) (new_turn t).
Proof.
  intros w Hw. split.
  - eapply content_updates_trans; [exact Hw | apply content_updates_alloc].
  - intros l [= <-]. left. now destruct Hw.
Qed.

Lemma ensures_set_content c prev :
  updatable ms h0 prev -> ensures inv (fun _ => True) (setitem "content" c prev).
Proof.
  intros Hprev w Hw. rewrite setitem_run. split; [|easy].
  now apply content_updates_set.
Qed.

(** One round of the first loop, whatever its outcome. *)
Lemma ensures_gemma_merge_step st m :
  In m ms ->
  Forall (updatable ms h0) (fst st) ->
  ensures inv (fun st' => Forall (updatable ms h0) (fst st')) (gemma_merge_step st m).
Proof.
  intros Hm Hall. destruct st as [processed last_role]. simpl in Hall.
  unfold gemma_merge_step.
  eapply ensures_bind; [now apply ensures_role|]. intros role Hrole.
  eapply ensures_bind with (P := fun cur => updatable ms h0 (fst cur)).
  { destruct (String.eqb role "system") eqn:Hsys.
    - eapply ensures_bind; [apply ensures_reads_only, reads_only_getitem|]. intros c _.
      eapply ensures_bind; [apply ensures_new_turn|]. intros d Hd. now apply ensures_ret.
    - apply ensures_ret. now apply Hrole. }
  intros [message current] Hmsg. simpl in Hmsg.
  destruct (match last_role with Some r => String.eqb current r | None => false end).
  - destruct (last processed) as [prev|] eqn:Hlast; [|apply ensures_raise].
    eapply ensures_bind; [apply ensures_reads_only, reads_only_getitem|]. intros old _.
    eapply ensures_bind; [apply ensures_reads_only, reads_only_getitem|]. intros more _.
    eapply ensures_bind.
    { apply ensures_set_content. exact (updatable_last _ _ _ _ Hall Hlast). }
    intros _ _. now apply ensures_ret.
  - apply ensures_ret. cbn [fst]. apply Forall_app. split; [exact Hall | now constructor].
Qed.

Lemma gemma_merge_updates suf :
  (forall m, In m suf -> In m ms) ->
  forall st w,
    inv w ->
    Forall (updatable ms h0) (fst st) ->
    inv (snd (gemma_merge st suf w)).
Proof.
  induction suf as [|m suf IH]; intros Hsub st w Hinv Hall; simpl; [exact Hinv|].
  destruct (ensures_gemma_merge_step st m) with (w := w) as [Hinv1 Hall1];
    [apply Hsub; now left | exact Hall | exact Hinv |].
  unfold bind. destruct (gemma_merge_step st m w) as [[st'|e] w1]; [|exact Hinv1].
  apply IH; [intros m' Hm'; apply Hsub; now right | exact Hinv1 | now apply Hall1].
Qed.

End GemmaUpdates.

Lemma frame_heap_extends : frame heap_extends.
Proof.
  split.
  - intros w. exists []. now rewrite app_nil_r.
  - intros w1 w2 w3 (m1 & H1) (m2 & H2). exists (m1 ++ m2). now rewrite H2, H1, app_assoc.
  - intros e w. exists []. simpl. now rewrite app_nil_r.
Qed.

Lemma preserves_new_turn t : preserves heap_extends (new_turn t).
Proof. intros w. now exists [t]. Qed.

Lemma preserves_gemma_alternate processed :
  forall i final, preserves heap_extends (gemma_alternate i final processed).
Proof.
  pose proof frame_heap_extends as F.
  assert (Hget : forall k l, preserves heap_extends (getitem k l)).
  { intros k l. apply preserves_reads_only; [exact F | apply reads_only_getitem]. }
  assert (Hnew : forall t (k : nat -> M (list nat)),
             (forall d, preserves heap_extends (k d)) ->
             preserves heap_extends (d <- new_turn t ;; k d)).
  { intros t k Hk. apply preserves_bind; [exact F | apply preserves_new_turn | exact Hk]. }
  induction processed as [|m ms IH]; intros i final; simpl.
  - now apply preserves_ret.
  - apply preserves_bind; [exact F | | intros; apply IH].
    unfold gemma_alternate_step.
    apply preserves_bind; [exact F | apply Hget |]. intros role.
    apply preserves_bind; [exact F | |].
    { destruct ((i =? 0)%nat && negb (String.eqb role "user")); [|now apply preserves_ret].
      apply Hnew. intros d. now apply preserves_ret. }
    intros final1. apply preserves_bind; [exact F | | intros; now apply preserves_ret].
    destruct (0 <? i)%nat; [|now apply preserves_ret].
    destruct (last final1); [|now apply preserves_raise].
    apply preserves_bind; [exact F | apply Hget |]. intros r.
    destruct (String.eqb role r); [|now apply preserves_ret].
    destruct (String.eqb role "user"); apply Hnew; intros d; now apply preserves_ret.
Qed.

(** X11.  Whatever the messages and whatever the outcome,
    [process_gemma_messages] removes no turn and changes nothing but the
    turns; of a turn that existed it changes at most the content, and only
    when the turn is one of the messages and is not a [system] turn.  So the
    caller's [system] messages and every turn outside the list are exactly as
    they were, while a [user] or [assistant] message of the caller can come
    back with a longer content. *)
Theorem process_gemma_messages_touches_content_only :
  forall (messages : list loc) (w : world),
    let w' := snd (process_gemma_messages messages w) in
    w' = set_heap (w_heap w') w
    /\ length (w_heap w) <= length (w_heap w')
    /\ forall l, l < length (w_heap w) ->
         (forall k, k <> "content" ->
            dict_get k (deref (w_heap w') l) = dict_get k (deref (w_heap w) l))
         /\ (~ In l messages \/ dict_get "role" (deref (w_heap w) l) = Some "system" ->
             deref (w_heap w') l = deref (w_heap w) l).
Proof.
  intros ms w. split; [apply heap_only_process_gemma_messages|].
  change (content_updates ms (w_heap w) (w_heap (snd (process_gemma_messages ms w)))).
  unfold process_gemma_messages, bind.
  pose proof (gemma_merge_updates ms (w_heap w) ms (fun m H => H) ([], None) w
                (content_updates_refl _ _) ltac:(constructor)) as Hmerge.
  destruct (gemma_merge ([], None) ms w) as [[processed|e] w1]; [|exact Hmerge].
  simpl in Hmerge. eapply content_updates_trans; [exact Hmerge|].
  destruct (preserves_gemma_alternate processed 0 [] w1) as (more & ->).
  apply content_updates_alloc.
Qed.

(** *** Merging twice *)

Lemma turn_at_lt (h : list (list (string * string))) l t : turn_at h l t -> l < length h.
Proof.
  intros [Hrole _]. unfold deref in Hrole. destruct (h !! l) eqn:Hl; [|discriminate].
  now apply lookup_lt_Some in Hl.
Qed.

Lemma merge_two_user_turns l1 l2 a b w :
  l1 <> l2 ->
  turn_at (w_heap w) l1 ("user", a) ->
  turn_at (w_heap w) l2 ("user", b) ->
  exists w1,
    process_gemma_messages [l1; l2] w = (Ok [l1], w1)
    /\ turn_at (w_heap w1) l1 ("user", a +:+ blank_line +:+ b)
    /\ turn_at (w_heap w1) l2 ("user", b).
Proof.
  intros Hne H1 H2. pose proof (turn_at_lt _ _ _ H1) as Hlt.
  destruct H1 as [Hr1 Hc1]. destruct H2 as [Hr2 Hc2]. simpl in *.
  set (w1 := set_heap (<[l1 := dict_set "content" (a +:+ (blank_line +:+ b))
                                  (deref (w_heap w) l1)]> (w_heap w)) w).
  assert (T1 : turn_at (w_heap w1) l1 ("user", a +:+ blank_line +:+ b)).
  { apply (turn_at_set_content _ _ "user" a); [exact Hlt | now split]. }
  assert (T2 : turn_at (w_heap w1) l2 ("user", b)).
  { apply turn_at_insert_ne; [exact Hne | now split]. }
  exists w1. split; [|now split].
  unfold process_gemma_messages. cbn [gemma_merge].
  unfold bind at 1. unfold bind at 1.
  rewrite (merge_step_append [] None l1 w "user" Hr1 eq_refl eq_refl).
  cbn [app]. unfold bind at 1.
  rewrite (merge_step_join [l1] l1 l2 w "user" a b Hr2 eq_refl eq_refl Hc1 Hc2).
  fold w1. unfold ret at 1. cbn [fst gemma_alternate]. unfold bind.
  rewrite (alternate_step_first_user l1 w1 (proj1 T1)). reflexivity.
Qed.

(** X12.  The merge writes into the caller's message, so it is not
    repeatable.  For two distinct [user] messages with contents [a] and [b],
    [process_gemma_messages] returns the first message alone, its content now
    [a], a blank line, [b]; called again on the same list (as each new
    attempt of the dispatcher does) it joins [b] once more. *)
Theorem gemma_merge_accumulates :
  forall (l1 l2 : loc) (a b : string) (w : world),
    l1 <> l2 ->
    turn_at (w_heap w) l1 ("user", a) ->
    turn_at (w_heap w) l2 ("user", b) ->
    exists w1 w2,
      process_gemma_messages [l1; l2] w = (Ok [l1], w1)
      /\ view (w_heap w1) l1 = ("user", a +:+ blank_line +:+ b)
      /\ view (w_heap w1) l2 = ("user", b)
      /\ process_gemma_messages [l1; l2] w1 = (Ok [l1], w2)
      /\ view (w_heap w2) l1 = ("user", (a +:+ blank_line +:+ b) +:+ blank_line +:+ b).
Proof.
  intros l1 l2 a b w Hne H1 H2.
  destruct (merge_two_user_turns l1 l2 a b w Hne H1 H2) as (w1 & Hrun1 & T1 & T2).
  destruct (merge_two_user_turns l1 l2 _ b w1 Hne T1 T2) as (w2 & Hrun2 & T1' & _).
  exists w1, w2. split; [exact Hrun1|].
  split; [exact (turn_at_view _ _ _ T1)|]. split; [exact (turn_at_view _ _ _ T2)|].
  split; [exact Hrun2 | exact (turn_at_view _ _ _ T1')].
Qed.

(** *** The second loop *)

(** X23.  The second loop of [process_gemma_messages] never inserts a
    filler turn ([I understand.], [Please continue.]).  For messages with a
    role among the three and a content, the first loop leaves no two
    consecutive turns of one role, so the result is the list [processed] of
    the first loop as it is, or that list behind one new [user] turn
    [Hello]. *)
Theorem gemma_fillers_are_never_inserted :
  forall (messages : list loc) (w : world),
    (forall l, In l messages -> well_formed_turn (w_heap w) l) ->
    exists processed w1,
      gemma_merge ([], None) messages w = (Ok processed, w1)
      /\ (process_gemma_messages messages w = (Ok processed, w1)
          \/ process_gemma_messages messages w
             = (Ok (length (w_heap w1) :: processed),
                set_heap (w_heap w1 ++ [hello_turn]) w1)).
Proof.
  intros ms w Hwf.
  destruct (gemma_merge_roles_spec ms w Hwf) as (processed & w1 & Hmerge & Hlive & Hroles).
  exists processed, w1. split; [exact Hmerge|].
  assert (Hlt : Forall (fun l => l < length (w_heap w1)) processed).
  { eapply Forall_impl; [exact Hlive|]. now intros l [Hl _]. }
  unfold process_gemma_messages. rewrite (bind_Ok _ _ _ _ _ Hmerge).
  destruct (gemma_alternate_lead processed w1 _ Hroles Hlt (squeeze_alternating _))
    as [[Hrun _]|[Hrun _]]; [now left | now right].
Qed.

(** ** The Gemini branch *)

Lemma dict_get_del_ne {V : Type} k k0 (d : list (string * V)) :
  k0 <> k -> dict_get k0 (dict_del k d) = dict_get k0 d.
Proof.
  intros Hne. induction d as [|[k' v'] d IH]; simpl; [reflexivity|].
  destruct (String.eqb k k') eqn:Hk; simpl.
  - apply String.eqb_eq in Hk. subst k'.
    destruct (String.eqb k0 k) eqn:H0; [apply String.eqb_eq in H0; congruence | reflexivity].
  - destruct (String.eqb k0 k'); [reflexivity | exact IH].
Qed.

(** The role of a turn in the Gemini form is never [system]; its [parts]
    are the content it had. *)
Lemma gemini_form_role t :
  dict_get "role" (gemini_form t)
  = match dict_get "role" t with
    | Some r => Some (if String.eqb r "system" then "user" else r)
    | None => None
    end.
Proof.
  unfold gemini_form. destruct (dict_get "content" (rewrite_turn t)).
  - rewrite dict_get_del_ne, dict_get_set_ne by discriminate. apply rewrite_turn_role.
  - apply rewrite_turn_role.
Qed.

Lemma gemini_form_parts t content :
  dict_get "content" t = Some content -> dict_get "parts" (gemini_form t) = Some content.
Proof.
  intros Hc. unfold gemini_form. rewrite rewrite_turn_other by discriminate. rewrite Hc.
  rewrite dict_get_del_ne by discriminate. apply dict_get_set_eq.
Qed.

Lemma gemini_turn_spec l w :
  dict_has "role" (deref (w_heap w) l) = true ->
  gemini_turn l w
  = (Ok tt, set_heap (<[l := gemini_form (deref (w_heap w) l)]> (w_heap w)) w).
Proof.
  intros Hrole. pose proof (deref_has_role _ _ Hrole) as Hl.
  apply lookup_lt_Some in Hl.
  unfold gemini_turn. unfold bind at 1. rewrite system_to_user_spec by exact Hrole.
  unfold bind at 1. unfold read_turn at 1. cbn [w_heap set_heap].
  rewrite deref_insert_eq by exact Hl. unfold gemini_form.
  destruct (dict_get "content" (rewrite_turn (deref (w_heap w) l))) as [content|] eqn:Hc.
  - unfold bind. rewrite setitem_run. cbn [w_heap set_heap].
    rewrite !deref_insert_eq by (rewrite ?length_insert; exact Hl).
    unfold delitem, bind, read_turn, write_turn. cbn [w_heap set_heap].
    rewrite ?deref_insert_eq by (rewrite ?length_insert; exact Hl).
    unfold dict_has. rewrite dict_get_set_ne by discriminate. rewrite Hc.
    destruct w as [h c f lg]. cbn [w_heap set_heap w_cache w_files w_log].
    now rewrite !list_insert_insert_eq.
  - reflexivity.
Qed.

Lemma deref_gemini_locs ls h l :
  deref (gemini_locs ls h) l
  = if existsb (Nat.eqb l) ls then gemini_form (deref h l) else deref h l.
Proof.
  unfold deref, gemini_locs. rewrite list_lookup_imap.
  destruct (h !! l) as [t|]; simpl; [reflexivity|].
  now destruct (existsb (Nat.eqb l) ls).
Qed.

Lemma gemini_locs_nil h : gemini_locs [] h = h.
Proof.
  apply list_eq. intros i. unfold gemini_locs. rewrite list_lookup_imap.
  now destruct (h !! i).
Qed.

Lemma gemini_locs_step l ls h :
  ~ In l ls ->
  gemini_locs ls (<[l := gemini_form (deref h l)]> h) = gemini_locs (l :: ls) h.
Proof.
  intros Hnew. apply list_eq. intros i. unfold gemini_locs. rewrite !list_lookup_imap.
  simpl. destruct (Nat.eq_dec i l) as [->|Hne].
  - rewrite Nat.eqb_refl. simpl.
    assert (Hout : existsb (Nat.eqb l) ls = false).
    { destruct (existsb (Nat.eqb l) ls) eqn:Hin; [|reflexivity].
      apply existsb_eqb_In in Hin. contradiction. }
    rewrite Hout. unfold deref. destruct (h !! l) as [t|] eqn:Hl.
    + now rewrite list_lookup_insert_eq by (now apply lookup_lt_Some in Hl).
    + rewrite list_insert_ge by (now apply lookup_ge_None in Hl). now rewrite Hl.
  - rewrite list_lookup_insert_ne by congruence.
    apply Nat.eqb_neq in Hne. now rewrite Hne.
Qed.

Lemma for_each_gemini_turn ls :
  NoDup ls ->
  forall w,
    (forall l, In l ls -> dict_has "role" (deref (w_heap w) l) = true) ->
    for_each gemini_turn ls w = (Ok tt, set_heap (gemini_locs ls (w_heap w)) w).
Proof.
  induction 1 as [|l ls Hnew Hnodup IH]; intros w Hroles; simpl.
  - unfold ret. now rewrite gemini_locs_nil, set_heap_same.
  - assert (Hnew' : ~ In l ls) by (now rewrite <- list_elem_of_In).
    unfold bind. rewrite gemini_turn_spec by (apply Hroles; now left).
    rewrite IH.
    + simpl. rewrite gemini_locs_step by exact Hnew'. now destruct w.
    + intros l' Hl'. simpl. rewrite deref_insert_ne by (intros ->; contradiction).
      apply Hroles. now right.
Qed.

Lemma gemini_response_run url p final w :
  NoDup p ->
  (forall l, In l p -> dict_has "role" (deref (w_heap w) l) = true) ->
  last p = Some final ->
  gemini_response url (MPrompt p) w
  = (match chat (w_log w) url (snapshot (gemini_locs p (w_heap w)) (removelast p))
             (snapshot_turn (deref (gemini_locs p (w_heap w)) final)) with
     | Some text => Ok (PStr text)
     | None => Raise ProviderError
     end,
     log (EvChat url (snapshot (gemini_locs p (w_heap w)) (removelast p))
            (snapshot_turn (deref (gemini_locs p (w_heap w)) final)))
       (set_heap (gemini_locs p (w_heap w)) w)).
Proof.
  intros Hnodup Hroles Hlast.
  unfold gemini_response. cbn [for_turns]. unfold bind at 1.
  rewrite for_each_gemini_turn by assumption. rewrite Hlast.
  unfold bind, snapshot_now, read_turn, send_message. cbn [w_heap w_log set_heap].
  now destruct (chat (w_log w) url _ _).
Qed.

(** X13.  The Gemini branch rewrites the caller's prompt before it calls
    the service.  For a prompt of distinct turns that all have a role, every
    turn ends with the role [user] in place of [system] and with its content
    under the key [parts]; the other turns are untouched.  The chat is then
    called once, with all turns but the last as its history and the last as
    its message, both in the new form, and its text (or its failure) is the
    outcome.  An empty prompt raises [IndexError] before any call. *)
Theorem gemini_response_rewrites_prompt :
  forall (model_url : arg) (p : prompt) (final : loc) (w : world),
    NoDup p ->
    (forall l, In l p -> dict_has "role" (deref (w_heap w) l) = true) ->
    last p = Some final ->
    let h' := gemini_locs p (w_heap w) in
    let history := snapshot h' (removelast p) in
    let message := snapshot_turn (deref h' final) in
    gemini_response model_url (MPrompt p) w
    = (match chat (w_log w) model_url history message with
       | Some text => Ok (PStr text)
       | None => Raise ProviderError
       end,
       log (EvChat model_url history message) (set_heap h' w))
    /\ (forall l, In l p ->
          deref h' l = gemini_form (deref (w_heap w) l)
          /\ dict_get "role" (deref h' l)
             = match dict_get "role" (deref (w_heap w) l) with
               | Some r => Some (if String.eqb r "system" then "user" else r)
               | None => None
               end
          /\ forall content, dict_get "content" (deref (w_heap w) l) = Some content ->
                             dict_get "parts" (deref h' l) = Some content)
    /\ (forall l, ~ In l p -> deref h' l = deref (w_heap w) l)
    /\ gemini_response model_url (MPrompt []) w = (Raise IndexError, w).
Proof.
  intros url p final w Hnodup Hroles Hlast h' history message.
  split; [|split; [|split]].
  - now apply gemini_response_run.
  - intros l Hl. subst h'. rewrite deref_gemini_locs.
    assert (Hin : existsb (Nat.eqb l) p = true) by (now apply existsb_eqb_In).
    rewrite Hin. split; [reflexivity|]. split; [apply gemini_form_role|].
    intros content. apply gemini_form_parts.
  - intros l Hl. subst h'. rewrite deref_gemini_locs.
    destruct (existsb (Nat.eqb l) p) eqn:Hin; [|reflexivity].
    apply existsb_eqb_In in Hin. contradiction.
  - reflexivity.
Qed.

(** For a model that is neither cost-tracked nor a Claude model the text is
    the entry itself. *)
Lemma extract_text_entry model k w v :
  dict_has model GPT_COSTS = false ->
  in_claude_models model = false ->
  w_cache w !! k = Some v ->
  extract_text model k w = (Ok v, w).
Proof.
  intros Hcost Hclaude Hv. unfold extract_text, cache_getitem, bind, cache_get.
  rewrite Hv. unfold ret. now rewrite Hcost, Hclaude.
Qed.

Lemma gemini_not_claude name :
  contains "gemini" (lower name) = true -> in_claude_models name = false.
Proof.
  intros Hgemini. destruct (in_claude_models name) eqn:Hclaude; [|reflexivity].
  unfold in_claude_models, CLAUDE_MODELS in Hclaude. cbn [existsb] in Hclaude.
  rewrite orb_false_r in Hclaude. apply String.eqb_eq in Hclaude. subst name.
  vm_compute in Hgemini. discriminate.
Qed.

(** X14.  For a Gemini model the cache is keyed by the prompt as the
    dispatcher rewrote it, not by the prompt that was looked up.  A prompt
    that misses is sent, and its text is stored and written under the key of
    the prompt in its new form (role [user] for [system], [parts] for
    [content]); where that key differs from the one that was looked up, the
    cache still has no entry for the prompt as the caller wrote it. *)
Theorem gemini_cache_key_is_rewritten_prompt :
  forall (p : prompt) (final : loc) (model_name : string) (model_url : arg)
         (cache_file : string) (generation_config : list (string * pyval))
         (parallel_model_calls : bool) (w : world) (text : string),
    contains "gemini" (lower model_name) = true ->
    startswith "o1" model_name = false ->
    NoDup p ->
    (forall l, In l p -> dict_has "role" (deref (w_heap w) l) = true) ->
    last p = Some final ->
    w_cache w !! key_of (w_heap w) p = None ->
    let h' := gemini_locs p (w_heap w) in
    let history := snapshot h' (removelast p) in
    let message := snapshot_turn (deref h' final) in
    chat (w_log w) model_url history message = Some text ->
    exists w',
      cached_generate [p] model_name model_url CacheDict cache_file generation_config
        parallel_model_calls w = (Ok (Texts [PStr text] 0), w')
      /\ w_heap w' = h'
      /\ w_log w' = EvChat model_url history message :: w_log w
      /\ w_cache w' = <[key_of h' p := PStr text]> (w_cache w)
      /\ file_text (w_files w') cache_file
         = file_text (w_files w) cache_file
           +:+ (record_text (key_of h' p) (PStr text) +:+ newline)
      /\ (key_of h' p <> key_of (w_heap w) p ->
          w_cache w' !! key_of (w_heap w) p = None).
Proof.
  intros p final name url file cfg par w text Hgemini Ho1 Hnodup Hroles Hlast Hnone
         h' history message Hchat.
  pose proof (gemini_name name Hgemini) as Hcost.
  set (w2 := log (EvChat url history message) (set_heap h' w)).
  assert (Hcall : model_call_wrapper (AStr name) url (ABatch [p]) cfg par w
                  = (Ok (PList [PStr text]), w2)).
  { unfold model_call_wrapper, retry. apply retry_first_attempt.
    unfold model_call_wrapper_once. cbn [arg_truthy negb]. rewrite Hcost, Hgemini.
    unfold get_batch_responses. cbn [arg_items map length Nat.leb]. rewrite orb_true_r.
    cbn [run_sequential]. unfold bind.
    rewrite (gemini_response_run url p final w Hnodup Hroles Hlast).
    fold h'. fold history. fold message. rewrite Hchat. reflexivity. }
  set (w3 := World h' (<[key_of h' p := PStr text]> (w_cache w))
               (<[file := file_text (w_files w) file
                          +:+ (record_text (key_of h' p) (PStr text) +:+ newline)]>
                  (w_files w))
               (EvChat url history message :: w_log w)).
  assert (Hafter : after_dispatch [p] [p] name file (PList [PStr text]) w2
                   = (Ok (Texts [PStr text] 0), w3)).
  { unfold after_dispatch. unfold bind at 1. unfold lift at 1. cbn [py_iter combine for_each].
    unfold bind at 1. unfold bind at 1. rewrite persist_response_run.
    cbn [fst snd w_heap w_cache w_files w_log w2 set_heap log]. fold w3.
    unfold ret at 1. unfold bind at 1. unfold lift at 1. cbn [py_len length Nat.eqb].
    assert (Hfree : dict_get name GPT_COSTS = None).
    { unfold dict_has in Hcost. now destruct (dict_get name GPT_COSTS). }
    cbn [collect_outputs]. unfold bind at 1. unfold bind at 1. rewrite prompt_key_run.
    unfold bind at 1.
    rewrite (extract_text_entry name _ w3 (PStr text) Hcost (gemini_not_claude name Hgemini))
      by apply lookup_insert_eq.
    rewrite Hfree. reflexivity. }
  exists w3. split.
  - unfold cached_generate. rewrite Ho1. unfold bind at 1. unfold ret at 1.
    assert (Hmiss : cache_misses name [p] w = (Ok [p], w)).
    { rewrite cache_misses_spec by (rewrite Hcost; discriminate).
      cbn [List.filter]. unfold miss. now rewrite Hnone. }
    rewrite generate_with_cached. unfold bind. now rewrite Hmiss, Hcall, Hafter.
  - split; [reflexivity|]. split; [reflexivity|]. split; [reflexivity|]. split.
    + unfold w3. cbn [w_files]. unfold file_text at 1. now rewrite lookup_insert_eq.
    + intros Hne. unfold w3. cbn [w_cache]. now rewrite lookup_insert_ne.
Qed.

(** ** The Claude branch *)

Lemma claude_model_name name :
  in_claude_models name = true ->
  dict_has name GPT_COSTS = false
  /\ contains "gemini" (lower name) = false
  /\ contains "gemma" (lower name) = false
  /\ startswith "o1" name = false.
Proof.
  intros Hclaude. unfold in_claude_models, CLAUDE_MODELS in Hclaude.
  cbn [existsb] in Hclaude. rewrite orb_false_r in Hclaude.
  apply String.eqb_eq in Hclaude. subst name. now vm_compute.
Qed.

Lemma claude_response_run name url cfg p w r :
  (forall l, In l p -> dict_has "role" (deref (w_heap w) l) = true) ->
  http (w_log w) url ANTHROPIC_HEADER
    (request_data name (snapshot (rewrite_locs p (w_heap w)) p) cfg) = HttpBody (Some r) ->
  py_contains "content" r = Ok true ->
  claude_response name url cfg (MPrompt p) w
  = (Ok r,
     log (EvPost url ANTHROPIC_HEADER
            (request_data name (snapshot (rewrite_locs p (w_heap w)) p) cfg))
       (set_heap (rewrite_locs p (w_heap w)) w)).
Proof.
  intros Hroles Hreply Hfield. unfold claude_response. cbn [for_turns].
  unfold bind at 1. rewrite for_each_system_to_user by exact Hroles.
  unfold bind at 1. cbn [messages_value]. unfold snapshot_now at 1. cbn [w_heap set_heap].
  unfold claude_request, retry. apply retry_first_attempt.
  unfold request_once, bind, requests_post. cbn [w_log set_heap].
  rewrite Hreply. cbn iota. now rewrite Hfield.
Qed.

(** The text of a Claude response is read at [content[0].text]. *)
Lemma extract_text_claude model k w v t :
  dict_has model GPT_COSTS = false ->
  in_claude_models model = true ->
  w_cache w !! k = Some v ->
  response_text model v = Ok t ->
  extract_text model k w = (Ok t, w).
Proof.
  intros Hcost Hclaude Hv Ht. unfold extract_text, cache_getitem, bind, cache_get.
  rewrite Hv. unfold ret. rewrite Hcost, Hclaude. unfold lift.
  unfold response_text in Ht. rewrite Hcost, Hclaude in Ht. now rewrite Ht.
Qed.

(** X15.  A prompt that misses, sent to a Claude model whose service
    answers.  The turns of the prompt are first rewritten in place ([system]
    becomes [user]); one request is posted, with the Anthropic header and a
    body that holds the model name, the rewritten messages and the
    generation config; the response is stored and written under the key of
    the rewritten prompt; the text returned is [content[0].text] and the
    cost is [0.0].  Where the rewritten key differs from the one that was
    looked up, the cache still has no entry for the prompt as the caller
    wrote it. *)
Theorem claude_call_through_cache :
  forall (p : prompt) (model_name : string) (model_url : arg) (cache_file : string)
         (generation_config : list (string * pyval)) (parallel_model_calls : bool)
         (w : world) (r t : pyval),
    in_claude_models model_name = true ->
    (forall l, In l p -> dict_has "role" (deref (w_heap w) l) = true) ->
    w_cache w !! key_of (w_heap w) p = None ->
    let h' := rewrite_locs p (w_heap w) in
    let data := request_data model_name (snapshot h' p) generation_config in
    http (w_log w) model_url ANTHROPIC_HEADER data = HttpBody (Some r) ->
    py_contains "content" r = Ok true ->
    response_text model_name r = Ok t ->
    exists w',
      cached_generate [p] model_name model_url CacheDict cache_file generation_config
        parallel_model_calls w = (Ok (Texts [t] 0), w')
      /\ w_heap w' = h'
      /\ w_log w' = EvPost model_url ANTHROPIC_HEADER data :: w_log w
      /\ w_cache w' = <[key_of h' p := r]> (w_cache w)
      /\ file_text (w_files w') cache_file
         = file_text (w_files w) cache_file +:+ (record_text (key_of h' p) r +:+ newline)
      /\ (key_of h' p <> key_of (w_heap w) p ->
          w_cache w' !! key_of (w_heap w) p = None).
Proof.
  intros p name url file cfg par w r t Hclaude Hroles Hnone h' data Hreply Hfield Htext.
  destruct (claude_model_name name Hclaude) as (Hcost & Hgemini & Hgemma & Ho1).
  set (w2 := log (EvPost url ANTHROPIC_HEADER data) (set_heap h' w)).
  assert (Hcall : model_call_wrapper (AStr name) url (ABatch [p]) cfg par w
                  = (Ok (PList [r]), w2)).
  { unfold model_call_wrapper, retry. apply retry_first_attempt.
    unfold model_call_wrapper_once. cbn [arg_truthy negb].
    rewrite Hcost, Hgemini, Hgemma, Hclaude.
    unfold get_batch_responses. cbn [arg_items map length Nat.leb]. rewrite orb_true_r.
    cbn [run_sequential]. unfold bind.
    now rewrite (claude_response_run name url cfg p w r Hroles Hreply Hfield). }
  set (w3 := World h' (<[key_of h' p := r]> (w_cache w))
               (<[file := file_text (w_files w) file
                          +:+ (record_text (key_of h' p) r +:+ newline)]> (w_files w))
               (EvPost url ANTHROPIC_HEADER data :: w_log w)).
  assert (Hafter : after_dispatch [p] [p] name file (PList [r]) w2
                   = (Ok (Texts [t] 0), w3)).
  { unfold after_dispatch. unfold bind at 1. unfold lift at 1. cbn [py_iter combine for_each].
    unfold bind at 1. unfold bind at 1. rewrite persist_response_run.
    cbn [fst snd w_heap w_cache w_files w_log w2 set_heap log]. fold w3.
    unfold ret at 1. unfold bind at 1. unfold lift at 1. cbn [py_len length Nat.eqb].
    assert (Hfree : dict_get name GPT_COSTS = None).
    { unfold dict_has in Hcost. now destruct (dict_get name GPT_COSTS). }
    cbn [collect_outputs]. unfold bind at 1. unfold bind at 1. rewrite prompt_key_run.
    unfold bind at 1.
    rewrite (extract_text_claude name _ w3 r t Hcost Hclaude) by
      first [apply lookup_insert_eq | exact Htext].
    rewrite Hfree. reflexivity. }
  exists w3. split.
  - unfold cached_generate. rewrite Ho1. unfold bind at 1. unfold ret at 1.
    assert (Hmiss : cache_misses name [p] w = (Ok [p], w)).
    { rewrite cache_misses_spec by (rewrite Hcost; discriminate).
      cbn [List.filter]. unfold miss. now rewrite Hnone. }
    rewrite generate_with_cached. unfold bind. now rewrite Hmiss, Hcall, Hafter.
  - split; [reflexivity|]. split; [reflexivity|]. split; [reflexivity|]. split.
    + unfold w3. cbn [w_files]. unfold file_text at 1. now rewrite lookup_insert_eq.
    + intros Hne. unfold w3. cbn [w_cache]. now rewrite lookup_insert_ne.
Qed.

(** ** A prompt that is answered, before one that is not *)

Lemma request_retry_rejected hd field url data wait :
  (forall lg, reply_fails field (http lg url hd data) = true) ->
  forall n k w, exists e w',
    retry_from wait k n (request_once hd field url data) w = (Raise (RetryError e), w')
    /\ w_heap w' = w_heap w
    /\ posts (w_log w') = repeat (EvPost url hd data) (S n) ++ posts (w_log w).
Proof.
  intros Hfail. induction n as [|n IH]; intros k w.
  - destruct (request_once_rejected hd field url data w (Hfail _)) as (e & w' & Hrun & Hposts & _).
    exists e, w'. simpl. rewrite Hrun. split; [reflexivity|]. split; [|exact Hposts].
    pose proof (preserves_request_once same_heap hd field url data frame_same_heap w) as Hh.
    now rewrite Hrun in Hh.
  - destruct (request_once_rejected hd field url data w (Hfail _))
      as (e1 & w1 & Hrun & Hposts & _).
    pose proof (preserves_request_once same_heap hd field url data frame_same_heap w) as Hh.
    rewrite Hrun in Hh. simpl in Hh. unfold same_heap in Hh.
    destruct (IH (S k) (log (EvSleep wait k) w1)) as (e & w' & Hretry & Hheap & Hp).
    exists e, w'. simpl retry_from. rewrite Hrun. split; [exact Hretry|].
    split; [simpl in Hheap; congruence|].
    simpl in Hp. rewrite Hp, Hposts. apply (repeat_snoc_app _ (S n)).
Qed.

Lemma concat_repeat_snoc {A : Type} (block : list A) j :
  concat (repeat block j) ++ block = block ++ concat (repeat block j).
Proof.
  induction j as [|j IH]; simpl; [now rewrite app_nil_r|].
  now rewrite <- app_assoc, IH.
Qed.

Lemma retry_from_rounds {A : Type} wait (f : M A) (I : world -> Prop) (Q : pyexn -> Prop)
  (block : list event) :
  (forall e w, I w -> I (log e w)) ->
  (forall w, I w -> exists e w',
     f w = (Raise e, w') /\ Q e /\ I w'
     /\ posts (w_log w') = block ++ posts (w_log w)) ->
  forall n k w, I w -> exists e w',
    retry_from wait k n f w = (Raise (RetryError e), w') /\ Q e
    /\ posts (w_log w') = concat (repeat block (S n)) ++ posts (w_log w).
Proof.
  intros Hlog Hf. induction n as [|n IH]; intros k w Hw.
  - destruct (Hf w Hw) as (e & w' & Hrun & HQ & _ & Hposts).
    exists e, w'. simpl retry_from. rewrite Hrun. split; [reflexivity|]. split; [exact HQ|].
    simpl. now rewrite app_nil_r.
  - destruct (Hf w Hw) as (e1 & w1 & Hrun & _ & Hw1 & Hposts).
    destruct (IH (S k) (log (EvSleep wait k) w1) (Hlog _ _ Hw1))
      as (e & w' & Hretry & HQ & Hposts').
    exists e, w'. simpl retry_from. rewrite Hrun. split; [exact Hretry|]. split; [exact HQ|].
    change (posts (w_log (log (EvSleep wait k) w1))) with (posts (w_log w1)) in Hposts'.
    rewrite Hposts', Hposts.
    change (concat (repeat block (S (S n)))) with (block ++ concat (repeat block (S n))).
    now rewrite app_assoc, concat_repeat_snoc.
Qed.

(** X16.  A prompt that is answered is asked again in every round that the
    failure of a later prompt causes.  For a cost-tracked model and a batch
    sent one prompt after the other, whose first prompt the service answers
    and whose second it always rejects, each of the ten rounds of
    [model_call_wrapper] posts the first prompt once and the second ten
    times: the first prompt is answered ten times before the call ends in
    [RetryError], and the prompts after the second are never sent. *)
Theorem answered_prompt_is_asked_again :
  forall (name : string) (url : arg) (p1 p2 : prompt) (rest : list prompt)
         (cfg : list (string * pyval)) (w : world),
    dict_has name GPT_COSTS = true ->
    let post1 := openai_post name url cfg (w_heap w) p1 in
    let post2 := openai_post name url cfg (w_heap w) p2 in
    (forall lg, reply_fails "choices"
                  (http lg url OPENAI_HEADER
                     (request_data name (snapshot (w_heap w) p1) cfg)) = false) ->
    (forall lg, reply_fails "choices"
                  (http lg url OPENAI_HEADER
                     (request_data name (snapshot (w_heap w) p2) cfg)) = true) ->
    exists e w',
      model_call_wrapper (AStr name) url (ABatch (p1 :: p2 :: rest)) cfg false w
      = (Raise (RetryError (RetryError e)), w')
      /\ posts (w_log w')
         = concat (repeat (repeat post2 10 ++ [post1]) 10) ++ posts (w_log w).
Proof.
  intros name url p1 p2 rest cfg w Hcost post1 post2 Hok Hfail.
  unfold model_call_wrapper, retry.
  destruct (retry_from_rounds (wait_fixed 20)
              (model_call_wrapper_once (AStr name) url (ABatch (p1 :: p2 :: rest)) cfg false)
              (fun w0 => w_heap w0 = w_heap w)
              (fun e => exists e0, e = RetryError e0)
              (repeat post2 10 ++ [post1]))
    with (n := 9) (k := 1) (w := w) as (e & w' & Hrun & (e0 & ->) & Hposts).
  - intros e w0 Hw0. exact Hw0.
  - intros w0 Hw0.
    unfold model_call_wrapper_once. cbn [arg_truthy negb]. rewrite Hcost.
    unfold get_batch_responses. cbn [arg_items map negb orb run_sequential].
    destruct (request_once_accepted OPENAI_HEADER "choices" url
                (request_data name (snapshot (w_heap w) p1) cfg) w0 (Hok _))
      as (r & _ & _ & Hfirst).
    assert (H1 : openai_response name url cfg (MPrompt p1) w0
                 = (Ok r, log post1 w0)).
    { unfold openai_response, bind. cbn [messages_value]. unfold snapshot_now.
      rewrite Hw0. unfold openai_request, retry. now apply retry_first_attempt. }
    destruct (request_retry_rejected OPENAI_HEADER "choices" url
                (request_data name (snapshot (w_heap w) p2) cfg)
                (wait_random_exponential 1 60) Hfail 9 1 (log post1 w0))
      as (e & w1 & Hsecond & Hheap & Hposts).
    assert (H2 : openai_response name url cfg (MPrompt p2) (log post1 w0)
                 = (Raise (RetryError e), w1)).
    { unfold openai_response, bind. cbn [messages_value]. unfold snapshot_now.
      cbn [w_heap log]. rewrite Hw0. exact Hsecond. }
    exists (RetryError e), w1. split.
    { unfold bind. now rewrite H1, H2. }
    split; [eauto|]. split; [simpl in Hheap; congruence|].
    rewrite Hposts. simpl posts. now rewrite <- app_assoc.
  - reflexivity.
  - exists e0, w'. split; [exact Hrun | exact Hposts].
Qed.

(** ** The Gemma branch *)


Lemma gemma_response_unreachable name url p w fm w1 :
  process_gemma_messages p w = (Ok fm, w1) ->
  http (w_log w1) url NoHeader (gemma_data name (snapshot (w_heap w1) fm)) = HttpFails ->
  gemma_response name url (MPrompt p) w
  = (Raise RequestException,
     log (EvPost url NoHeader (gemma_data name (snapshot (w_heap w1) fm))) w1).
Proof.
  intros Hproc Hreply. unfold gemma_response.
  unfold bind at 1. unfold bind at 1. rewrite Hproc. unfold snapshot_now at 1.
  fold (gemma_data name (snapshot (w_heap w1) fm)).
  unfold bind at 1. unfold requests_post. now rewrite Hreply.
Qed.

Lemma gemma_round name url p cfg par w :
  dict_has name GPT_COSTS = false ->
  contains "gemini" (lower name) = false ->
  contains "gemma" (lower name) = true ->
  model_call_wrapper_once (AStr name) url (ABatch [p]) cfg par w
  = (rs <- run_sequential (gemma_response name url) [MPrompt p] ;; ret (PList rs))%py w.
Proof.
  intros Hcost Hgemini Hgemma. unfold model_call_wrapper_once. cbn [arg_truthy negb].
  rewrite Hcost, Hgemini, Hgemma. unfold get_batch_responses.
  cbn [arg_items map length Nat.leb]. now rewrite orb_true_r.
Qed.


(** *** A server that cannot be reached *)

Lemma joined_shift a b n : joined (a +:+ blank_line +:+ b) b n = joined a b (S n).
Proof. induction n as [|n IH]; [reflexivity|]. simpl. now rewrite IH. Qed.

Lemma gemma_round_unreachable name url l1 l2 a b cfg par w :
  dict_has name GPT_COSTS = false ->
  contains "gemini" (lower name) = false ->
  contains "gemma" (lower name) = true ->
  (forall lg u hd d, http lg u hd d = HttpFails) ->
  l1 <> l2 ->
  turn_at (w_heap w) l1 ("user", a) ->
  turn_at (w_heap w) l2 ("user", b) ->
  exists w',
    model_call_wrapper_once (AStr name) url (ABatch [[l1; l2]]) cfg par w
    = (Raise RequestException, w')
    /\ turn_at (w_heap w') l1 ("user", a +:+ blank_line +:+ b)
    /\ turn_at (w_heap w') l2 ("user", b)
    /\ length (posts (w_log w')) = S (length (posts (w_log w))).
Proof.
  intros Hcost Hgemini Hgemma Hdown Hne H1 H2.
  destruct (merge_two_user_turns l1 l2 a b w Hne H1 H2) as (w1 & Hproc & T1 & T2).
  pose proof (heap_only_log _ w (heap_only_process_gemma_messages [l1; l2])) as Hlog.
  rewrite Hproc in Hlog. simpl in Hlog.
  eexists. split; [|split; [|split]].
  - rewrite gemma_round by assumption. cbn [run_sequential]. unfold bind.
    rewrite (gemma_response_unreachable name url _ w _ w1 Hproc (Hdown _ _ _ _)).
    reflexivity.
  - exact T1.
  - exact T2.
  - simpl. now rewrite Hlog.
Qed.

Lemma gemma_retry_unreachable name url l1 l2 b cfg par :
  dict_has name GPT_COSTS = false ->
  contains "gemini" (lower name) = false ->
  contains "gemma" (lower name) = true ->
  (forall lg u hd d, http lg u hd d = HttpFails) ->
  l1 <> l2 ->
  forall n k a w,
    turn_at (w_heap w) l1 ("user", a) ->
    turn_at (w_heap w) l2 ("user", b) ->
    exists w',
      retry_from (wait_fixed 20) k n
        (model_call_wrapper_once (AStr name) url (ABatch [[l1; l2]]) cfg par) w
      = (Raise (RetryError RequestException), w')
      /\ turn_at (w_heap w') l1 ("user", joined a b (S n))
      /\ length (posts (w_log w')) = S n + length (posts (w_log w)).
Proof.
  intros Hcost Hgemini Hgemma Hdown Hne. induction n as [|n IH]; intros k a w H1 H2.
  - destruct (gemma_round_unreachable name url l1 l2 a b cfg par w
                Hcost Hgemini Hgemma Hdown Hne H1 H2) as (w' & Hrun & T1 & _ & Hposts).
    exists w'. simpl retry_from. rewrite Hrun. split; [reflexivity|].
    split; [exact T1 | exact Hposts].
  - destruct (gemma_round_unreachable name url l1 l2 a b cfg par w
                Hcost Hgemini Hgemma Hdown Hne H1 H2) as (w1 & Hrun & T1 & T2 & Hposts).
    destruct (IH (S k) _ (log (EvSleep (wait_fixed 20) k) w1) T1 T2)
      as (w' & Hretry & T1' & Hposts').
    exists w'. simpl retry_from. rewrite Hrun. split; [exact Hretry|]. split.
    + now rewrite <- joined_shift.
    + rewrite Hposts'. simpl. rewrite Hposts. lia.
Qed.

(** X19.  Each attempt of the Gemma branch preprocesses the caller's
    messages again, and the preprocessing writes into them.  For a prompt of
    two distinct [user] messages with contents [a] and [b] and a server that
    cannot be reached, [model_call_wrapper] posts ten times (this branch has
    no retry of its own) and ends in [RetryError]; the caller's first message
    then holds [a] followed by [b] ten times over. *)
Theorem gemma_retries_grow_the_prompt :
  forall (name : string) (url : arg) (l1 l2 : loc) (a b : string)
         (cfg : list (string * pyval)) (par : bool) (w : world),
    contains "gemini" (lower name) = false ->
    contains "gemma" (lower name) = true ->
    (forall lg u hd d, http lg u hd d = HttpFails) ->
    l1 <> l2 ->
    turn_at (w_heap w) l1 ("user", a) ->
    turn_at (w_heap w) l2 ("user", b) ->
    exists w',
      model_call_wrapper (AStr name) url (ABatch [[l1; l2]]) cfg par w
      = (Raise (RetryError RequestException), w')
      /\ view (w_heap w') l1 = ("user", joined a b 10)
      /\ length (posts (w_log w')) = 10 + length (posts (w_log w)).
Proof.
  intros name url l1 l2 a b cfg par w Hgemini Hgemma Hdown Hne H1 H2.
  pose proof (gemma_name name Hgemma) as Hcost.
  destruct (gemma_retry_unreachable name url l1 l2 b cfg par Hcost Hgemini Hgemma Hdown Hne
              9 1 a w H1 H2) as (w' & Hrun & T1 & Hposts).
  exists w'. split; [exact Hrun|]. split; [exact (turn_at_view _ _ _ T1) | exact Hposts].
Qed.

(** ** Loading a cache file with a bad record *)

Lemma load_cache_file_stops file w content before bad after m e :
  w_files w !! file = Some content ->
  file_lines content = before ++ bad :: after ->
  load_lines ∅ before = Ok m ->
  load_line m bad = Raise e ->
  load_cache_file file w = (Raise e, w).
Proof.
  intros Hsome Hsplit Hbefore Hbad. unfold load_cache_file.
  rewrite Hsome, Hsplit, load_lines_app, Hbefore. cbn [bind_res load_lines].
  now rewrite Hbad.
Qed.

(** X20.  [load_cache_file] gives up at the first line it cannot use, and
    returns none of the records before or after it.  A line that decodes to
    something other than an object raises [TypeError]; an object without
    [completion], or with [completion] and without [prompt], raises
    [KeyError].  The file and the rest of the world are left as they were. *)
Theorem load_cache_file_bad_record :
  forall (cache_file : string) (w : world) (content : string)
         (before after : list string) (bad : string) (m : gmap string pyval)
         (record : pyval),
    w_files w !! cache_file = Some content ->
    file_lines content = before ++ bad :: after ->
    load_lines ∅ before = Ok m ->
    json_loads bad = Some record ->
    (is_object record = false -> load_cache_file cache_file w = (Raise TypeError, w))
    /\ (forall d, record = PDict d -> dict_get "completion" d = None ->
          load_cache_file cache_file w = (Raise KeyError, w))
    /\ (forall d, record = PDict d -> dict_get "prompt" d = None ->
          load_cache_file cache_file w = (Raise KeyError, w)).
Proof.
  intros file w content before after bad m record Hsome Hsplit Hbefore Hrecord.
  split; [|split].
  - intros Hobj. apply (load_cache_file_stops _ _ _ _ _ _ _ _ Hsome Hsplit Hbefore).
    unfold load_line. rewrite Hrecord. now destruct record.
  - intros d -> Hnone. apply (load_cache_file_stops _ _ _ _ _ _ _ _ Hsome Hsplit Hbefore).
    unfold load_line. rewrite Hrecord. simpl. now rewrite Hnone.
  - intros d -> Hnone. apply (load_cache_file_stops _ _ _ _ _ _ _ _ Hsome Hsplit Hbefore).
    unfold load_line. rewrite Hrecord. simpl. rewrite Hnone.
    now destruct (dict_get "completion" d).
Qed.
End Properties.

(** * The theorems at concrete inputs *)

(** One prompt, [[{"role": "user", "content": "hi"}]], sent without a cache
    to a working service under the name [gpt-4o]: the url is not empty, so the
    call raises and nothing is posted. *)
Lemma cached_generate_no_cache_example :
  arg_truthy (AStr "https://api.openai.com/v1/chat/completions") = true
  /\ exists e w',
       @cached_generate service_up [[0]] "gpt-4o"
         (AStr "https://api.openai.com/v1/chat/completions") CacheNone "cache.jsonl"
         [("temperature", PInt 0)] false (empty_world [user_turn "hi"]) = (Raise e, w')
       /\ (e = RetryError TypeError \/ e = KeyError)
       /\ network_calls (w_log w') = network_calls (w_log (empty_world [user_turn "hi"])).
Proof.
  split; [reflexivity|].
  apply (@cached_generate_no_cache_never_dispatches service_up). reflexivity.
Defined.

Lemma model_call_wrapper_unknown_model_example :
  [[0]] <> ([] : list (list nat))
  /\ dict_has "llama-3-8b" GPT_COSTS = false
  /\ contains "gemini" (lower "llama-3-8b") = false
  /\ contains "gemma" (lower "llama-3-8b") = false
  /\ in_claude_models "llama-3-8b" = false
  /\ @model_call_wrapper service_up (AStr "llama-3-8b") (AStr "http://localhost:8000")
       (ABatch [[0]]) [] true (empty_world [user_turn "hi"])
     = (Ok PNone, empty_world [user_turn "hi"]).
Proof.
  repeat (split; [first [discriminate | reflexivity]|]).
  apply (@model_call_wrapper_unknown_model service_up);
    first [discriminate | reflexivity].
Defined.

Lemma retry_bounds_service_down :
  @always_fails service_down "choices"
  /\ @always_fails service_down "content"
  /\ (exists e w9 w',
        @openai_request service_down (AStr "https://api.openai.com/v1/chat/completions")
          (PDict [("model", PStr "gpt-4o")]) (empty_world []) = (Raise (RetryError e), w')
        /\ @request_once service_down OPENAI_HEADER "choices"
             (AStr "https://api.openai.com/v1/chat/completions")
             (PDict [("model", PStr "gpt-4o")]) w9 = (Raise e, w')
        /\ posts (w_log w9)
           = repeat (EvPost (AStr "https://api.openai.com/v1/chat/completions")
                       OPENAI_HEADER (PDict [("model", PStr "gpt-4o")])) 9
             ++ posts (w_log (empty_world []))
        /\ posts (w_log w')
           = repeat (EvPost (AStr "https://api.openai.com/v1/chat/completions")
                       OPENAI_HEADER (PDict [("model", PStr "gpt-4o")])) 10
             ++ posts (w_log (empty_world []))
        /\ sleeps (w_log w')
           = List.rev (map (EvSleep (wait_random_exponential 1 60)) (seq 1 9))
             ++ sleeps (w_log (empty_world []))).
Proof.
  assert (H1 : @always_fails service_down "choices") by (intros lg url hd data; reflexivity).
  assert (H2 : @always_fails service_down "content") by (intros lg url hd data; reflexivity).
  split; [exact H1|]. split; [exact H2|].
  exact (proj1 (@retry_bounds service_down) H1 _ _ _).
Defined.

Lemma reasoning_model_rewrites_in_place_example :
  startswith "o1" "o1-preview" = true
  /\ roles_present [[0; 1]] [system_turn "Be brief."; user_turn "hi"]
  /\ @reasoning_rewrite [[0; 1]] (empty_world [system_turn "Be brief."; user_turn "hi"])
     = (Ok tt, empty_world [user_turn "Be brief."; user_turn "hi"])
  /\ @cached_generate service_up [[0; 1]] "o1-preview" (AStr "https://api.openai.com/v1")
       CacheDict "cache.jsonl" [("temperature", PInt 1)] false
       (empty_world [system_turn "Be brief."; user_turn "hi"])
     = @generate_with service_up [[0; 1]] "o1-preview" (AStr "https://api.openai.com/v1")
         CacheDict "cache.jsonl" [] false
         (empty_world [user_turn "Be brief."; user_turn "hi"]).
Proof.
  assert (Hroles : roles_present [[0; 1]] [system_turn "Be brief."; user_turn "hi"]).
  { intros p l [<-|[]] [<-|[<-|[]]]; reflexivity. }
  split; [reflexivity|]. split; [exact Hroles|].
  pose proof (@reasoning_model_rewrites_in_place service_up [[0; 1]] "o1-preview"
                (AStr "https://api.openai.com/v1") CacheDict "cache.jsonl"
                [("temperature", PInt 1)] false
                (empty_world [system_turn "Be brief."; user_turn "hi"])
                eq_refl Hroles) as (Hstep & _ & _ & Hrun).
  split; [exact Hstep | exact Hrun].
Defined.



(** The three cached prompts, asked twice: the same texts and cost both
    times, and the world stays as it is. *)
Lemma warm_cache_idempotent_example :
  (forall p, In p [[0]; [1]; [2]] ->
     @miss service_up "gpt-4o" (prepared "gpt-4o" [[0]; [1]; [2]] five_world) p = false)
  /\ (exists outcome,
        @cached_generate service_up [[0]; [1]; [2]] "gpt-4o" openai_url CacheDict
          "cache.jsonl" [] false five_world = (outcome, five_world)
        /\ @cached_generate service_up [[0]; [1]; [2]] "gpt-4o" openai_url CacheDict
             "cache.jsonl" [] false five_world = (outcome, five_world)
        /\ w_log five_world = w_log five_world
        /\ w_cache five_world = w_cache five_world
        /\ w_files five_world = w_files five_world)
  /\ fst (@cached_generate service_up [[0]; [1]; [2]] "gpt-4o" openai_url CacheDict
            "cache.jsonl" [] false five_world)
     = Ok (Texts [PStr "a0"; PStr "a1"; PStr "a2"]
             (PrimFloat.add (PrimFloat.add sample_cost sample_cost) sample_cost)).
Proof.
  assert (Hwarm : forall p, In p [[0]; [1]; [2]] ->
            @miss service_up "gpt-4o" (prepared "gpt-4o" [[0]; [1]; [2]] five_world) p
            = false).
  { intros p Hp. repeat (destruct Hp as [<-|Hp]; [vm_compute; reflexivity|]). destruct Hp. }
  split; [exact Hwarm|]. split.
  - apply (@warm_cache_idempotent service_up [[0]; [1]; [2]] "gpt-4o" openai_url
             "cache.jsonl" [] false five_world); [intros H; discriminate H | exact Hwarm].
  - vm_compute. reflexivity.
Defined.

(** One prompt, a cold cache, a service that reports 100 prompt tokens and
    50 completion tokens: the cost of [gpt-4o] is the sample cost. *)
Lemma cost_is_usage_times_price_example :
  let run := @cached_generate service_up [[0]] "gpt-4o" openai_url CacheDict
               "cache.jsonl" [] false (empty_world [user_turn "hi"]) in
  run = (Ok (Texts [PStr "ok"] sample_cost), snd run)
  /\ (exists termss,
        @batch_terms service_up
          [("prompt_tokens", PrimFloat.div 5 1000000);
           ("completion_tokens", PrimFloat.div 15 1000000)] (snd run) [[0]] termss
        /\ sample_cost = float_sum (concat termss)).
Proof.
  intros run.
  assert (Hrun : run = (Ok (Texts [PStr "ok"] sample_cost), snd run))
    by (vm_compute; reflexivity).
  split; [exact Hrun|].
  apply (proj1 (@cost_is_usage_times_price service_up [[0]] "gpt-4o" openai_url "cache.jsonl"
                  [] false (empty_world [user_turn "hi"]) [PStr "ok"] sample_cost (snd run)
                  Hrun)).
  reflexivity.
Defined.

(** The same prompt sent twice and answered twice, both answers stored and
    written: the file then loads as the cache holds it, the second answer
    under the key. *)
Lemma cache_file_round_trip_example :
  let w := empty_world [user_turn "hi"] in
  let rs := [sample_completion "first"; sample_completion "second"] in
  let pairs := combine [[0]; [0]] rs in
  let w' := snd (@after_dispatch service_up [[0]; [0]] [[0]; [0]] "gpt-4o" "cache.jsonl"
                   (PList rs) w) in
  (forall pair, In pair pairs ->
     @record_readable service_up (@key_of service_up (w_heap w) (fst pair)) (snd pair))
  /\ @load_cache_file service_up "cache.jsonl" w'
     = (Ok (@replay service_up (w_heap w) pairs ∅), w')
  /\ w_cache w' = @replay service_up (w_heap w) pairs (w_cache w)
  /\ @replay service_up (w_heap w) pairs ∅ !! @key_of service_up (w_heap w) [0]
     = Some (sample_completion "second").
Proof.
  intros w rs pairs w'.
  assert (Hok : forall pair, In pair pairs ->
            @record_readable service_up (@key_of service_up (w_heap w) (fst pair))
              (snd pair)).
  { intros pair Hp.
    repeat (destruct Hp as [<-|Hp]; [split; vm_compute; reflexivity|]). destruct Hp. }
  destruct (@cache_file_round_trip service_up [[0]; [0]] [[0]; [0]] "gpt-4o" "cache.jsonl"
              rs w [] ∅)
    as (Hrun & Hload & Hcache & Hlast & _); try reflexivity; try assumption.
  { constructor. }
  split; [exact Hok|]. split; [exact Hload|]. split; [exact Hcache|].
  apply (Hlast [([0], sample_completion "first")] [0] (sample_completion "second") []).
  - reflexivity.
  - intros q [].
Defined.

(** The turns [system, system, assistant, user]. *)
Lemma process_gemma_messages_example :
  (forall l, In l [0; 1; 2; 3] -> well_formed_turn four_turns l)
  /\ exists out w',
       @process_gemma_messages [0; 1; 2; 3] (empty_world four_turns) = (Ok out, w')
       /\ map (fun l => fst (view (w_heap w') l)) out = ["user"; "assistant"; "user"]
       /\ map (view (w_heap w')) out
          = [("user", "s1" +:+ blank_line +:+ "s2"); ("assistant", "a"); ("user", "u")].
Proof.
  assert (Hnd : NoDup [0; 1; 2; 3]).
  { repeat (apply NoDup_cons_2;
            [rewrite list_elem_of_In; simpl; intuition discriminate|]).
    apply NoDup_nil_2. }
  assert (Hwf : forall l, In l [0; 1; 2; 3] -> well_formed_turn four_turns l).
  { intros l Hl.
    repeat (destruct Hl as [<-|Hl];
            [eexists _, _; split; [reflexivity|]; split; [reflexivity|];
             unfold chat_role; tauto|]).
    destruct Hl. }
  split; [exact Hwf|].
  destruct (@process_gemma_messages_alternates [0; 1; 2; 3] (empty_world four_turns) Hwf)
    as (out & w' & Hrun & _ & Hroles & _ & _ & _ & Hdistinct).
  exists out, w'. split; [exact Hrun|]. split; [exact Hroles|].
  apply (proj2 (Hdistinct Hnd) "s1" "s2" "a" "u"). reflexivity.
Defined.

(** * The further properties at concrete inputs *)

(** One prompt for [gpt-4o], a cold cache, a service that is down: both
    retries are exhausted and nothing is stored. *)
Lemma dispatch_failure_stores_nothing_example :
  let run := @cached_generate service_down [[0]] "gpt-4o" openai_url CacheDict
               "cache.jsonl" [] false (empty_world [user_turn "hi"]) in
  fst run = Raise (RetryError (RetryError RequestException))
  /\ w_cache (snd run) = ∅
  /\ w_files (snd run) = ∅.
Proof.
  intros run.
  assert (Hrun : run = (Raise (RetryError (RetryError RequestException)), snd run))
    by (vm_compute; reflexivity).
  split; [now rewrite Hrun|].
  exact (@dispatch_failure_stores_nothing service_down [[0]] "gpt-4o" openai_url CacheDict
           "cache.jsonl" [] false (empty_world [user_turn "hi"]) _ _ Hrun).
Defined.

(** The same prompt twice in a batch, a cold cache: two texts, the same. *)
Lemma texts_follow_batch_example :
  let run := @cached_generate service_up [[0]; [0]] "gpt-4o" openai_url CacheDict
               "cache.jsonl" [] false (empty_world [user_turn "hi"]) in
  run = (Ok (Texts [PStr "ok"; PStr "ok"] (PrimFloat.add sample_cost sample_cost)), snd run)
  /\ length [PStr "ok"; PStr "ok"] = length [[0]; [0]]
  /\ Forall2 (@has_text service_up "gpt-4o" (snd run)) [[0]; [0]] [PStr "ok"; PStr "ok"].
Proof.
  intros run.
  assert (Hrun : run = (Ok (Texts [PStr "ok"; PStr "ok"]
                              (PrimFloat.add sample_cost sample_cost)), snd run))
    by (vm_compute; reflexivity).
  split; [exact Hrun|].
  destruct (@texts_follow_batch service_up [[0]; [0]] "gpt-4o" openai_url "cache.jsonl" []
              false (empty_world [user_turn "hi"]) _ _ _ Hrun) as (Hlen & Hall & _).
  split; [exact Hlen | exact Hall].
Defined.

(** Five prompts, two of them sent: asked again in the world the call
    left, the same answer comes back and the world stays. *)
Lemma second_call_is_free_example :
  let run := @cached_generate service_up five_prompts "gpt-4o" openai_url CacheDict
               "cache.jsonl" [] false five_world in
  (exists texts cost, run = (Ok (Texts texts cost), snd run)
     /\ @cached_generate service_up five_prompts "gpt-4o" openai_url CacheDict
          "cache.jsonl" [] false (snd run) = (Ok (Texts texts cost), snd run))
  /\ length (posts (w_log (snd run))) = 2.
Proof.
  intros run. split; [|vm_compute; reflexivity].
  assert (Hrun : exists texts cost, run = (Ok (Texts texts cost), snd run)).
  { eexists _, _. vm_compute. reflexivity. }
  destruct Hrun as (texts & cost & Hrun). exists texts, cost. split; [exact Hrun|].
  apply (@second_call_is_free service_up five_prompts "gpt-4o" openai_url "cache.jsonl" []
           false five_world texts cost (snd run)); [intros H; discriminate H | exact Hrun].
Defined.

(** A model name that no branch takes, a prompt that is not cached. *)
Lemma unknown_model_with_miss_raises_example :
  @cached_generate service_up [[0]] "llama-3-8b" (AStr "http://localhost:8000") CacheDict
    "cache.jsonl" [] false (empty_world [user_turn "hi"])
  = (Raise TypeError, empty_world [user_turn "hi"]).
Proof.
  refine (proj1 (@unknown_model_with_miss_raises service_up [[0]] "llama-3-8b"
                   (AStr "http://localhost:8000") "cache.jsonl" [] false
                   (empty_world [user_turn "hi"]) [0] _ _ _ _ _ _ _));
    first [reflexivity | now left | intros H; discriminate H].
Defined.

(** No cache and an empty url: the batch is ignored. *)
Lemma no_cache_empty_url_example :
  @cached_generate service_up [[0]] "gpt-4o" (AStr "") CacheNone "cache.jsonl" [] false
    (empty_world [user_turn "hi"])
  = (Ok (Raw (PList [])), empty_world [user_turn "hi"]).
Proof.
  refine (proj1 (@no_cache_empty_url_returns_nothing service_up [[0]] "gpt-4o" (AStr "")
                   "cache.jsonl" [] false (empty_world [user_turn "hi"]) _ _));
    first [reflexivity | intros H; discriminate H].
Defined.

(** A request to a service that answers: the first attempt returns. *)
Lemma returned_response_was_checked_example :
  let run := @openai_request service_up openai_url (PDict [("model", PStr "gpt-4o")])
               (empty_world []) in
  run = (Ok (sample_completion "ok"), snd run)
  /\ py_contains "choices" (sample_completion "ok") = Ok true
  /\ length (posts (w_log (snd run))) = 1.
Proof.
  intros run.
  assert (Hrun : run = (Ok (sample_completion "ok"), snd run)) by (vm_compute; reflexivity).
  split; [exact Hrun|].
  destruct (proj1 (@returned_response_was_checked service_up) _ _ _ _ _ Hrun)
    as (Hfield & _).
  split; [exact Hfield | vm_compute; reflexivity].
Defined.

Lemma service_flaky_answers_after :
  @answers_after service_flaky "choices" (length (posts (w_log (empty_world [])))) 3.
Proof.
  intros lg url hd data. simpl. split; intros H.
  - apply Nat.ltb_lt in H. now rewrite H.
  - assert (Hge : (length (posts lg) <? 3)%nat = false) by (apply Nat.ltb_ge; lia).
    now rewrite Hge.
Defined.

(** Three failures, then an answer: four posts, three sleeps. *)
Lemma transient_failures_are_retried_example :
  3 < 10
  /\ exists r w',
       @openai_request service_flaky openai_url (PDict [("model", PStr "gpt-4o")])
         (empty_world []) = (Ok r, w')
       /\ py_contains "choices" r = Ok true
       /\ posts (w_log w')
          = repeat (EvPost openai_url OPENAI_HEADER (PDict [("model", PStr "gpt-4o")])) 4
            ++ posts (w_log (empty_world []))
       /\ sleeps (w_log w')
          = List.rev (map (EvSleep (wait_random_exponential 1 60)) (seq 1 3))
            ++ sleeps (w_log (empty_world [])).
Proof.
  split; [lia|].
  apply (@transient_failures_are_retried service_flaky 3 openai_url
           (PDict [("model", PStr "gpt-4o")]) (empty_world []));
    [lia | exact service_flaky_answers_after].
Defined.

(** A batch of three prompts and a service that is down: one hundred posts
    when the prompts are sent in turn, three hundred when a pool sends
    them. *)
Lemma nested_retries_multiply_example :
  @always_fails service_down "choices"
  /\ (exists e w',
        @model_call_wrapper service_down (AStr "gpt-4o") openai_url
          (ABatch [[0]; [1]; [2]]) [] false (empty_world five_turns)
        = (Raise (RetryError (RetryError e)), w')
        /\ length (posts (w_log w')) = 100)
  /\ (exists e w',
        @model_call_wrapper service_down (AStr "gpt-4o") openai_url
          (ABatch [[0]; [1]; [2]]) [] true (empty_world five_turns)
        = (Raise (RetryError (RetryError e)), w')
        /\ length (posts (w_log w')) = 300).
Proof.
  assert (Hdown : @always_fails service_down "choices")
    by (intros lg url hd data; reflexivity).
  split; [exact Hdown|]. split.
  - destruct (@nested_retries_multiply service_down "gpt-4o" openai_url [[0]; [1]; [2]] []
                false (empty_world five_turns) Hdown eq_refl)
      as (e & w' & Hrun & Hposts & _); [discriminate|].
    exists e, w'. split; [exact Hrun | exact Hposts].
  - destruct (@nested_retries_multiply service_down "gpt-4o" openai_url [[0]; [1]; [2]] []
                true (empty_world five_turns) Hdown eq_refl)
      as (e & w' & Hrun & Hposts & _); [discriminate|].
    exists e, w'. split; [exact Hrun | exact Hposts].
Defined.

(** Two user messages, merged twice. *)
Lemma gemma_merge_accumulates_example :
  exists w1 w2,
    @process_gemma_messages [0; 1] (empty_world [user_turn "a"; user_turn "b"])
    = (Ok [0], w1)
    /\ view (w_heap w1) 0 = ("user", "a" +:+ blank_line +:+ "b")
    /\ view (w_heap w1) 1 = ("user", "b")
    /\ @process_gemma_messages [0; 1] w1 = (Ok [0], w2)
    /\ view (w_heap w2) 0 = ("user", ("a" +:+ blank_line +:+ "b") +:+ blank_line +:+ "b").
Proof.
  apply (@gemma_merge_accumulates 0 1 "a" "b" (empty_world [user_turn "a"; user_turn "b"]));
    [discriminate | now split | now split].
Defined.

Lemma two_turns_roles :
  forall l, In l [0; 1] -> dict_has "role" (deref two_turns l) = true.
Proof. intros l [<-|[<-|[]]]; reflexivity. Defined.

Lemma two_locs_distinct : NoDup [0; 1].
Proof.
  repeat (apply NoDup_cons_2; [rewrite list_elem_of_In; simpl; intuition discriminate|]).
  apply NoDup_nil_2.
Defined.

(** A system turn and a user turn, sent to a Gemini chat that answers. *)
Lemma gemini_response_rewrites_prompt_example :
  @gemini_response service_up (AStr "gemini-pro") (MPrompt [0; 1]) (empty_world two_turns)
  = (Ok (PStr "ok"),
     World [[("role", "user"); ("parts", "Be brief.")]; [("role", "user"); ("parts", "hi")]]
       ∅ ∅
       [EvChat (AStr "gemini-pro")
          (PList [PDict [("role", PStr "user"); ("parts", PStr "Be brief.")]])
          (PDict [("role", PStr "user"); ("parts", PStr "hi")])]).
Proof.
  exact (proj1 (@gemini_response_rewrites_prompt service_up (AStr "gemini-pro") [0; 1] 1
                  (empty_world two_turns) two_locs_distinct two_turns_roles eq_refl)).
Defined.

(** The same prompt through the cache: the key that is stored is not the
    key that was looked up. *)
Lemma gemini_cache_key_example :
  @key_of service_up (gemini_locs [0; 1] two_turns) [0; 1]
  <> @key_of service_up two_turns [0; 1]
  /\ exists w',
       @cached_generate service_up [[0; 1]] "gemini-pro" (AStr "gemini-pro") CacheDict
         "cache.jsonl" [] false (empty_world two_turns) = (Ok (Texts [PStr "ok"] 0), w')
       /\ w_cache w'
          = <[@key_of service_up (gemini_locs [0; 1] two_turns) [0; 1] := PStr "ok"]> ∅
       /\ w_cache w' !! @key_of service_up two_turns [0; 1] = None.
Proof.
  assert (Hkeys : @key_of service_up (gemini_locs [0; 1] two_turns) [0; 1]
                  <> @key_of service_up two_turns [0; 1])
    by (vm_compute; discriminate).
  split; [exact Hkeys|].
  destruct (@gemini_cache_key_is_rewritten_prompt service_up [0; 1] 1 "gemini-pro"
              (AStr "gemini-pro") "cache.jsonl" [] false (empty_world two_turns) "ok"
              eq_refl eq_refl two_locs_distinct two_turns_roles eq_refl eq_refl eq_refl)
    as (w' & Hrun & _ & _ & Hcache & _ & Habsent).
  exists w'. split; [exact Hrun|]. split; [exact Hcache | exact (Habsent Hkeys)].
Defined.

(** The same prompt for the Claude model. *)
Lemma claude_call_through_cache_example :
  @key_of service_claude (rewrite_locs [0; 1] two_turns) [0; 1]
  <> @key_of service_claude two_turns [0; 1]
  /\ exists w',
       @cached_generate service_claude [[0; 1]] "claude-3-5-sonnet-20241022" claude_url
         CacheDict "cache.jsonl" [("max_tokens", PInt 256)] false (empty_world two_turns)
       = (Ok (Texts [PStr "ok"] 0), w')
       /\ w_log w'
          = [EvPost claude_url ANTHROPIC_HEADER
               (PDict [("model", PStr "claude-3-5-sonnet-20241022");
                       ("messages",
                        PList [PDict [("role", PStr "user"); ("content", PStr "Be brief.")];
                               PDict [("role", PStr "user"); ("content", PStr "hi")]]);
                       ("max_tokens", PInt 256)])]
       /\ w_cache w' !! @key_of service_claude two_turns [0; 1] = None.
Proof.
  assert (Hkeys : @key_of service_claude (rewrite_locs [0; 1] two_turns) [0; 1]
                  <> @key_of service_claude two_turns [0; 1])
    by (vm_compute; discriminate).
  split; [exact Hkeys|].
  destruct (@claude_call_through_cache service_claude [0; 1] "claude-3-5-sonnet-20241022"
              claude_url "cache.jsonl" [("max_tokens", PInt 256)] false
              (empty_world two_turns) (sample_message "ok") (PStr "ok")
              eq_refl two_turns_roles eq_refl eq_refl eq_refl eq_refl)
    as (w' & Hrun & _ & Hlog & _ & _ & Habsent).
  exists w'. split; [exact Hrun|]. split; [exact Hlog | exact (Habsent Hkeys)].
Defined.

(** Three prompts sent in turn, the second always rejected: the first is
    answered ten times, the third is never sent. *)
Lemma answered_prompt_is_asked_again_example :
  exists e w',
    @model_call_wrapper service_picky (AStr "gpt-4o") openai_url
      (ABatch [[0]; [1]; [2]]) [] false (empty_world picky_turns)
    = (Raise (RetryError (RetryError e)), w')
    /\ posts (w_log w')
       = concat (repeat (repeat (openai_post "gpt-4o" openai_url [] picky_turns [1]) 10
                         ++ [openai_post "gpt-4o" openai_url [] picky_turns [0]]) 10).
Proof.
  destruct (@answered_prompt_is_asked_again service_picky "gpt-4o" openai_url [0] [1] [[2]]
              [] (empty_world picky_turns) eq_refl)
    as (e & w' & Hrun & Hposts).
  - intros lg. reflexivity.
  - intros lg. reflexivity.
  - exists e, w'. split; [exact Hrun|]. rewrite Hposts. apply app_nil_r.
Defined.

(** An [o1] prompt whose second turn has no role. *)
Lemma reasoning_model_missing_role_example :
  exists w',
    @cached_generate service_up [[0; 1]] "o1-preview" openai_url CacheDict "cache.jsonl"
      [] false (empty_world [system_turn "Be brief."; [("content", "hi")]])
    = (Raise KeyError, w')
    /\ w_log w' = [].
Proof.
  destruct (@reasoning_model_missing_role service_up [[0; 1]] "o1-preview" openai_url
              CacheDict "cache.jsonl" [] false
              (empty_world [system_turn "Be brief."; [("content", "hi")]]) [0; 1] 1)
    as (w' & Hrun & Hw'); [reflexivity | now left | right; now left | reflexivity |].
  exists w'. split; [exact Hrun|]. now rewrite Hw'.
Defined.

Lemma two_turns_well_formed :
  forall l, In l [0; 1] -> well_formed_turn two_turns l.
Proof.
  intros l Hl.
  repeat (destruct Hl as [<-|Hl];
          [eexists _, _; split; [reflexivity|]; split; [reflexivity|];
           unfold chat_role; tauto|]).
  destruct Hl.
Defined.


(** Two user messages for a Gemma server that is down. *)
Lemma gemma_retries_grow_the_prompt_example :
  exists w',
    @model_call_wrapper service_down (AStr "gemma-2-9b-it") gemma_url (ABatch [[0; 1]])
      [] false (empty_world [user_turn "a"; user_turn "b"])
    = (Raise (RetryError RequestException), w')
    /\ view (w_heap w') 0 = ("user", joined "a" "b" 10)
    /\ length (posts (w_log w')) = 10.
Proof.
  apply (@gemma_retries_grow_the_prompt service_down "gemma-2-9b-it" gemma_url 0 1 "a" "b"
           [] false (empty_world [user_turn "a"; user_turn "b"]));
    first [reflexivity | discriminate | now split | intros lg u hd d; reflexivity].
Defined.

(** A file of two lines, the second without a completion. *)
Lemma load_cache_file_bad_record_example :
  @load_cache_file service_up "cache.jsonl"
    (World [] ∅ (<["cache.jsonl" := broken_cache_file]> ∅) [])
  = (Raise KeyError, World [] ∅ (<["cache.jsonl" := broken_cache_file]> ∅) []).
Proof.
  refine (proj1 (proj2 (@load_cache_file_bad_record service_up "cache.jsonl"
                          (World [] ∅ (<["cache.jsonl" := broken_cache_file]> ∅) [])
                          broken_cache_file [good_record_line] [] bad_record_line
                          (<["p" := PStr "c"]> ∅) (PDict [("prompt", PStr "q")])
                          _ _ _ _))
            [("prompt", PStr "q")] eq_refl eq_refl).
  - reflexivity.
  - vm_compute. reflexivity.
  - vm_compute. reflexivity.
  - vm_compute. reflexivity.
Defined.

(** Five prompts for [gpt-4o], two of them sent by a pool: the turns are
    what they were. *)
Lemma cost_tracked_call_keeps_prompts_example :
  w_heap (snd (@cached_generate service_up five_prompts "gpt-4o" openai_url CacheDict
                 "cache.jsonl" [] true five_world)) = five_turns.
Proof.
  exact (proj1 (@cost_tracked_call_keeps_prompts service_up five_prompts "gpt-4o" openai_url
                  CacheDict "cache.jsonl" [] true five_world eq_refl eq_refl)).
Defined.

(** A text that has the word in it, cached for the prompt and then asked
    of [gpt-4o]. *)
Lemma cached_non_object_raises_example :
  @cached_generate service_up [[0]] "gpt-4o" openai_url CacheDict "cache.jsonl" [] false
    text_cached_world
  = (Raise TypeError, text_cached_world).
Proof.
  refine (proj1 (@cached_non_object_raises service_up [0] "gpt-4o" openai_url "cache.jsonl"
                   [] false text_cached_world (PStr "Here are your choices.") _ _ _ _ _)).
  - reflexivity.
  - intros H. discriminate H.
  - vm_compute. reflexivity.
  - reflexivity.
  - vm_compute. discriminate.
Defined.

(** A system turn and a user turn: the merged list is the result. *)
Lemma gemma_fillers_are_never_inserted_example :
  exists processed w1,
    @gemma_merge ([], None) [0; 1] (empty_world two_turns) = (Ok processed, w1)
    /\ (@process_gemma_messages [0; 1] (empty_world two_turns) = (Ok processed, w1)
        \/ @process_gemma_messages [0; 1] (empty_world two_turns)
           = (Ok (length (w_heap w1) :: processed),
              set_heap (w_heap w1 ++ [hello_turn]) w1)).
Proof.
  exact (@gemma_fillers_are_never_inserted [0; 1] (empty_world two_turns)
           two_turns_well_formed).
Defined.
